(** * csv-analyzer: sandbox, context budget, compaction and retry loop

    A shallow embedding of the core of the csv-analyzer repository
    ([src/core/token_counter.py], [src/core/compactor.py],
    [src/core/session.py], [src/core/sandbox_executor.py],
    [src/core/workflow.py]) and the properties of its specification.

    Conventions of the embedding.
    - A Python [str] is a list of Unicode code points ([pystr]); [len],
      slicing and [str.count] work on code points, as in Python.
    - A Python [int] is a [Z].
    - A Python [float] is the rational number it denotes ([Q]), a literal
      the decimal it is written as; [int(x)] is truncation toward zero.
      The two operations of binary64 the code uses, [int * float] and
      [float + float], round their operands and their result: they are
      parameters ([PyFloat]); exact arithmetic is one instance, binary64
      with rounding to nearest another.  Overflow to infinity is not
      modelled.
    - Dictionaries that the code uses as structures with a fixed set of
      keys (execution results, history turns) are records; a key that may
      be missing is an [option] field.
    - The Python interpreter itself ([ast.parse], [compile], [exec],
      [str.lower], [str.strip]) and the language-model service are not part
      of the repository; they are parameters, bundled in type classes.
    - A call that may raise an [Exception] which its caller handles
      returns a sum: [inl] of its value or [inr (str(e))]. *)

From Stdlib Require Import String Ascii ZArith QArith Qround Qabs Qpower Lia Lqa
  Bool Arith List.
From Stdlib Require Import Floats.
From Equations Require Import Equations.
Import ListNotations.

Set Implicit Arguments.
Set Warnings "-register-all".
Close Scope Q_scope.

(** ** Python strings *)

Module PyStr.

Abbreviation pystr := (list N).

(** Decoding of the UTF-8 bytes of a literal of this file into code
    points, so that the literals of the source can be written as they are. *)
Fixpoint utf8_decode (bs : list N) : pystr :=
  match bs with
  | [] => []
  | b :: rest =>
    if (b <? 128)%N then b :: utf8_decode rest
    else if (b <? 224)%N then
      match rest with
      | b1 :: r => ((b - 192) * 64 + (b1 - 128))%N :: utf8_decode r
      | _ => []
      end
    else if (b <? 240)%N then
      match rest with
      | b1 :: b2 :: r =>
        ((b - 224) * 4096 + (b1 - 128) * 64 + (b2 - 128))%N :: utf8_decode r
      | _ => []
      end
    else
      match rest with
      | b1 :: b2 :: b3 :: r =>
        ((b - 240) * 262144 + (b1 - 128) * 4096 + (b2 - 128) * 64 + (b3 - 128))%N
          :: utf8_decode r
      | _ => []
      end
  end.

Definition U (s : string) : pystr :=
  utf8_decode (map N_of_ascii (list_ascii_of_string s)).

(** [s.startswith(p)] *)
Fixpoint startswith (s p : pystr) {struct p} : bool :=
  match p, s with
  | [], _ => true
  | _ :: _, [] => false
  | a :: p', b :: s' => (a =? b)%N && startswith s' p'
  end.

(** [s.endswith(p)] *)
Definition endswith (s p : pystr) : bool := startswith (rev s) (rev p).

(** [p in s] *)
Fixpoint contains (s p : pystr) : bool :=
  startswith s p ||
  match s with
  | [] => false
  | _ :: s' => contains s' p
  end.

(** [s == t] *)
Fixpoint str_eqb (s t : pystr) : bool :=
  match s, t with
  | [], [] => true
  | a :: s', b :: t' => (a =? b)%N && str_eqb s' t'
  | _, _ => false
  end.

(** [s in set_of_strings] *)
Definition mem (s : pystr) (l : list pystr) : bool := existsb (str_eqb s) l.

(** Left-to-right scan of [str.count]: [skip] is the number of characters
    still covered by the occurrence found last. *)
Fixpoint count_from (p s : pystr) (skip : nat) : nat :=
  match s with
  | [] => 0
  | _ :: s' =>
    match skip with
    | S k => count_from p s' k
    | O => if startswith s p then S (count_from p s' (length p - 1))
           else count_from p s' 0
    end
  end.

(** [s.count(p)]: the number of non-overlapping occurrences of [p] in [s];
    the empty pattern occurs between all characters. *)
Definition count (s p : pystr) : nat :=
  match p with
  | [] => S (length s)
  | _ => count_from p s 0
  end.

(** [sep.join(parts)] *)
Fixpoint join (sep : pystr) (parts : list pystr) : pystr :=
  match parts with
  | [] => []
  | [x] => x
  | x :: rest => x ++ sep ++ join sep rest
  end.

(** [s.split(sep)] for a one-character separator. *)
Fixpoint split_on (sep : N) (s : pystr) : list pystr :=
  match s with
  | [] => [[]]
  | c :: s' =>
    if (c =? sep)%N then [] :: split_on sep s'
    else match split_on sep s' with
         | [] => [[c]]
         | w :: ws => (c :: w) :: ws
         end
  end.

(** Decimal digits of a natural number, as [str(n)] prints them. *)
Fixpoint digits_fuel (fuel : nat) (n : N) (acc : pystr) : pystr :=
  match fuel with
  | O => acc
  | S f =>
    let acc' := (48 + n mod 10)%N :: acc in
    if (n / 10 =? 0)%N then acc' else digits_fuel f (n / 10)%N acc'
  end.

Definition str_of_N (n : N) : pystr := digits_fuel (S (N.to_nat (N.log2 n))) n [].

Definition str_of_Z (z : Z) : pystr :=
  if (z <? 0)%Z then 45%N :: str_of_N (Z.to_N (- z)) else str_of_N (Z.to_N z).

End PyStr.
Import PyStr.

(** ** Python numbers and slices *)

(** [sum(l)] of a list of integers. *)
Definition list_sum_Z (l : list Z) : Z := fold_right Z.add 0%Z l.

(** [int(x)] of a float: truncation toward zero. *)
Definition py_int (x : Q) : Z := Z.quot (Qnum x) (Zpos (Qden x)).

(** The arithmetic of binary64, on the rationals the floats denote. *)
Class PyFloat := {
  fmul : Z -> Q -> Q;   (* [n * x] for an int [n] and a float [x] *)
  fadd : Q -> Q -> Q    (* [x + y] for two floats *)
}.

(** What the properties of the estimate need of the arithmetic: results
    of non-negative operands are non-negative, and a larger operand does
    not give a smaller result, as rounding to nearest guarantees. *)
Class PyFloatMonotone {F : PyFloat} : Prop := {
  fmul_nonneg : forall n x, (0 <= n)%Z -> (0 <= x)%Q -> (0 <= fmul n x)%Q;
  fmul_mono : forall n n' x x',
    (0 <= n <= n')%Z -> (0 <= x)%Q -> (x <= x')%Q ->
    (fmul n x <= fmul n' x')%Q;
  fadd_nonneg : forall x y, (0 <= x)%Q -> (0 <= y)%Q -> (0 <= fadd x y)%Q;
  fadd_mono : forall x x' y y',
    (x <= x')%Q -> (y <= y')%Q -> (fadd x y <= fadd x' y')%Q
}.

(** The accuracy of the product in binary64.  An integer up to [2^53] is
    a double; a number between [2^-1000] and [2^900] is rounded to a
    double with a relative error of at most [2^-53], and so is the
    product of the two doubles: the relative error of the result stays
    below [2^-51]. *)
Class PyFloatAccurate {F : PyFloat} : Prop := {
  fmul_accurate : forall n x,
    (0 <= n <= 2 ^ 53)%Z ->
    ((1 # 2 ^ 1000) <= x)%Q -> (x <= inject_Z (2 ^ 900))%Q ->
    (Qabs (fmul n x - inject_Z n * x) <= inject_Z n * x * (1 # 2 ^ 51))%Q
}.

(** Normalisation of a slice bound against a length: a negative bound
    counts from the end, and the result is clipped to [0 .. len]. *)
Definition slice_bound (len i : Z) : nat :=
  Z.to_nat (if (i <? 0)%Z then Z.max (len + i) 0 else Z.min i len).

(** [l[:stop]] *)
Definition slice_to {A} (l : list A) (stop : Z) : list A :=
  firstn (slice_bound (Z.of_nat (length l)) stop) l.

(** [l[start:]] *)
Definition slice_from {A} (l : list A) (start : Z) : list A :=
  skipn (slice_bound (Z.of_nat (length l)) start) l.

(** [d.get(key, default)] for an optional text field. *)
Definition get_or (field : option pystr) (default : pystr) : pystr :=
  match field with
  | Some s => s
  | None => default
  end.

(** ** Data model *)

(** The dictionary produced by the executor ([SandboxExecutor.execute]),
    extended by the workflow with the plot keys, and its filtered copy in
    the history.  [success] is always present; the other keys are
    optional.  A key bound to [None] is not told apart from a missing
    key ([dict.get] does not tell them apart either). *)
Record result_dict := {
  success : bool;
  stdout : option pystr;
  stderr : option pystr;
  error_type : option pystr;
  error : option pystr;
  error_message : option pystr;
  traceback : option pystr;
  plot_saved : option bool;
  plot_path : option pystr
}.

(** [dataclass ConversationTurn] of [session.py]. *)
Record ConversationTurn := {
  timestamp : pystr;
  question : pystr;
  code : pystr;
  execution_result : result_dict;
  explanation : pystr;
  retry_count : Z;
  turn_plot_path : option pystr
}.

(** A turn of the history handed to the token counter, the compactor and
    the generation service: the dictionary with the keys ['question'],
    ['code'], ['result'] and ['explanation']. *)
Record turn_dict := {
  d_question : pystr;
  d_code : pystr;
  d_result : result_dict;
  d_explanation : pystr
}.

(** [{'success': s}] and [{'success': True, 'stdout': out}] *)
Definition only_success (s : bool) : result_dict :=
  {| success := s; stdout := None; stderr := None; error_type := None;
     error := None; error_message := None; traceback := None;
     plot_saved := None; plot_path := None |}.

Definition success_with_stdout (out : pystr) : result_dict :=
  {| success := true; stdout := Some out; stderr := None; error_type := None;
     error := None; error_message := None; traceback := None;
     plot_saved := None; plot_path := None |}.

(** ** Token counter ([token_counter.py]) *)

Record TokenCounter := {
  model_max_tokens : Z;
  compression_threshold : Q;
  safe_max_tokens : Z
}.

Definition MODEL_MAX_TOKENS : Z := 128000.
Definition DEFAULT_THRESHOLD : Q := 0.7%Q.

Section TokenCounting.
Context {F : PyFloat}.

(** [TokenCounter.__init__]: [x or default] replaces [None] and zero. *)
Definition TokenCounter_init (model_max : option Z) (threshold : option Q)
  : TokenCounter :=
  let m := match model_max with
           | Some z => if (z =? 0)%Z then MODEL_MAX_TOKENS else z
           | None => MODEL_MAX_TOKENS
           end in
  let r := match threshold with
           | Some q => if Qeq_bool q 0%Q then DEFAULT_THRESHOLD else q
           | None => DEFAULT_THRESHOLD
           end in
  {| model_max_tokens := m;
     compression_threshold := r;
     safe_max_tokens := py_int (fmul m r) |}.

(** ['一' <= c <= '鿿'] *)
Definition is_chinese (c : N) : bool := ((0x4e00 <=? c) && (c <=? 0x9fff))%N.

Definition code_indicators : list pystr :=
  [U "def "; U "import "; U "print("; U "if "; U "for "; U "while "].

Definition chinese_count (text : pystr) : Z :=
  Z.of_nat (length (filter is_chinese text)).

Definition code_density (text : pystr) : Z :=
  Z.of_nat (list_sum (map (count text) code_indicators)).

Definition is_code_heavy (text : pystr) : bool := (5 <? code_density text)%Z.

(** [TokenCounter.estimate_tokens] *)
Definition estimate_tokens (text : pystr) : Z :=
  match text with
  | [] => 0
  | _ =>
    let total_chars := Z.of_nat (length text) in
    let english_chars := (total_chars - chinese_count text)%Z in
    if is_code_heavy text then
      py_int (fadd (fmul (chinese_count text) 1.5%Q)
                   (fmul english_chars 0.4%Q))
    else
      py_int (fadd (fmul (chinese_count text) 1.5%Q)
                   (fmul english_chars 0.25%Q))
  end.

(** The value of [estimated] as a function of the weight class and of the
    two character counts, and the count [english_chars] of a text. *)
Definition weighted (heavy : bool) (chinese english : Z) : Z :=
  if heavy then py_int (fadd (fmul chinese 1.5%Q) (fmul english 0.4%Q))
  else py_int (fadd (fmul chinese 1.5%Q) (fmul english 0.25%Q)).

Definition english_chars (text : pystr) : Z :=
  (Z.of_nat (length text) - chinese_count text)%Z.

Record token_info := {
  tk_question : Z;
  tk_global_context : Z;
  tk_history : Z;
  tk_total : Z
}.

(** One iteration of the loop over the history in
    [calculate_context_tokens]: the running value of [tokens['history']]. *)
Definition add_turn_tokens (acc : Z) (turn : turn_dict) : Z :=
  let acc := (acc + estimate_tokens (d_question turn))%Z in
  let acc := (acc + estimate_tokens (d_code turn))%Z in
  let acc := if success (d_result turn)
             then (acc + estimate_tokens (get_or (stdout (d_result turn)) []))%Z
             else acc in
  (acc + estimate_tokens (d_explanation turn))%Z.

(** [TokenCounter.calculate_context_tokens].  [global_ctx] is the prompt of
    the global context when it is ready ([get_global_context()]). *)
Definition calculate_context_tokens (global_ctx : option pystr)
    (question : pystr) (history : list turn_dict)
    (global_context_tokens : option Z) : token_info :=
  let q := estimate_tokens question in
  let g := match global_context_tokens with
           | Some n => n
           | None => match global_ctx with
                     | Some ctx_prompt => estimate_tokens ctx_prompt
                     | None => 0%Z
                     end
           end in
  let h := fold_left add_turn_tokens history 0%Z in
  {| tk_question := q; tk_global_context := g; tk_history := h;
     tk_total := (q + g + h)%Z |}.

(** What one turn of the history adds to [tokens['history']]: question,
    code and explanation always, the stdout of the result only when the
    result is successful. *)
Definition turn_tokens (turn : turn_dict) : Z :=
  (estimate_tokens (d_question turn) + estimate_tokens (d_code turn)
   + (if success (d_result turn)
      then estimate_tokens (get_or (stdout (d_result turn)) [])
      else 0)
   + estimate_tokens (d_explanation turn))%Z.

End TokenCounting.

(** [TokenCounter.should_compact] *)
Definition should_compact (self : TokenCounter) (total_tokens : Z) : bool :=
  (safe_max_tokens self <=? total_tokens)%Z.

(** ** Session manager ([session.py]) *)

(** The body of the loop of [SessionManager._turns_to_dicts]. *)
Definition turn_to_dict (only_successful : bool) (turn : ConversationTurn)
  : turn_dict :=
  let res := execution_result turn in
  {| d_question := question turn;
     d_code := code turn;
     d_explanation := explanation turn;
     d_result :=
       if only_successful then
         if success res then
           let r := success_with_stdout (get_or (stdout res) []) in
           match plot_saved res with
           | Some true =>
             {| success := success r; stdout := stdout r; stderr := stderr r;
                error_type := error_type r; error := error r;
                error_message := error_message r; traceback := traceback r;
                plot_saved := Some true; plot_path := plot_path res |}
           | _ => r
           end
         else only_success false
       else res |}.

Definition _turns_to_dicts (turns : list ConversationTurn)
    (only_successful : bool) : list turn_dict :=
  map (turn_to_dict only_successful) turns.

(** ** Conversation compactor ([compactor.py]) *)

(** Operations of Python's [str] whose Unicode tables are not part of the
    repository. *)
Class PyUnicode := {
  lower : pystr -> pystr;   (* [s.lower()] *)
  strip : pystr -> pystr    (* [s.strip()] *)
}.

Record ConversationCompactor := {
  compactor_threshold : Q;
  target_ratio : Q;
  keep_recent : Z
}.

(** The value of [key_info]: every entry is [{'turn': i + 1, <text>}].
    The key ['variables_defined'] is initialised and never used. *)
Record key_information := {
  important_decisions : list (Z * pystr);
  code_changes : list (Z * pystr);
  errors_encountered : list (Z * pystr);
  key_findings : list (Z * pystr)
}.

Definition NL : N := 10.

Section Compactor.
Context {F : PyFloat} {Uc : PyUnicode}.

Definition decision_keywords : list pystr :=
  [U "决定"; U "选择"; U "采用"; U "decided"; U "chose"].

Definition finding_keywords : list pystr :=
  [U "发现"; U "结果显示"; U "数据表明"; U "found"; U "shows"].

(** The lines of the code kept for the summary: at most three stripped
    lines that start a function or contain ['='] in their first 30
    characters, each cut to 60 characters. *)
Definition key_lines (code : pystr) : list pystr :=
  map (firstn 60)
    (firstn 3
      (filter (fun line => startswith line (U "def ")
                           || contains (firstn 30 line) (U "="))
              (map strip (split_on NL code)))).

(** The body of the loop of [_extract_key_information] for the turn at
    index [i]. *)
Definition extract_turn (i : nat) (turn : turn_dict) (k : key_information)
  : key_information :=
  let n := (Z.of_nat i + 1)%Z in
  let question := d_question turn in
  let code := d_code turn in
  let result := d_result turn in
  let explanation := d_explanation turn in
  let decisions :=
    if existsb (fun kw => contains (lower question) kw
                          || contains (lower explanation) kw)
               decision_keywords
    then important_decisions k ++ [(n, firstn 100 question)]
    else important_decisions k in
  let changes :=
    match code with
    | [] => code_changes k
    | _ =>
      if (50 <? length code)%nat then
        match key_lines code with
        | [] => code_changes k
        | ls => code_changes k ++ [(n, join (U "; ") ls)]
        end
      else code_changes k
    end in
  let errors :=
    if negb (success result) then
      errors_encountered k ++
        [(n, get_or (error_type result) (U "Unknown") ++ U ": "
             ++ firstn 100 (get_or (error result) []))]
    else errors_encountered k in
  let findings :=
    if existsb (fun kw => contains (lower explanation) kw) finding_keywords
    then key_findings k ++ [(n, firstn 150 explanation)]
    else key_findings k in
  {| important_decisions := decisions; code_changes := changes;
     errors_encountered := errors; key_findings := findings |}.

Fixpoint extract_from (i : nat) (history : list turn_dict)
    (k : key_information) : key_information :=
  match history with
  | [] => k
  | turn :: rest => extract_from (S i) rest (extract_turn i turn k)
  end.

(** [ConversationCompactor._extract_key_information] *)
Definition _extract_key_information (history : list turn_dict)
  : key_information :=
  extract_from 0 history
    {| important_decisions := []; code_changes := [];
       errors_encountered := []; key_findings := [] |}.

(** ["- 第{turn}轮: {text}"] *)
Definition bullet (entry : Z * pystr) : pystr :=
  U "- 第" ++ str_of_Z (fst entry) ++ U "轮: " ++ snd entry.

(** One titled section of the summary, with at most [cap] entries. *)
Definition summary_section (title : pystr) (cap : nat)
    (entries : list (Z * pystr)) : list pystr :=
  match entries with
  | [] => []
  | _ => [title] ++ map bullet (firstn cap entries) ++ [[]]
  end.

(** [ConversationCompactor._create_summary] *)
Definition _create_summary (key_info : key_information)
    (custom_instruction : option pystr) : pystr :=
  let parts :=
    match custom_instruction with
    | Some (c :: cs) => [U "**压缩说明**: " ++ (c :: cs) ++ [NL]]
    | _ => []
    end in
  let parts := parts ++ [U "## 历史对话摘要" ++ [NL]] in
  let parts := parts
    ++ summary_section (U "### 关键决策") 5 (important_decisions key_info) in
  let parts := parts
    ++ summary_section (U "### 主要代码操作") 5 (code_changes key_info) in
  let parts := parts
    ++ summary_section (U "### 遇到的错误") 3 (errors_encountered key_info) in
  let parts := parts
    ++ summary_section (U "### 关键发现") 5 (key_findings key_info) in
  let parts :=
    if (length parts =? 1)%nat
    then parts ++ [U "*（早期对话未发现关键信息）*"]
    else parts in
  join [NL] parts.

(** The synthetic turn that stands for the compressed prefix. *)
Definition summary_turn (summary : pystr) : turn_dict :=
  {| d_question := U "【历史对话摘要】";
     d_code := [];
     d_result := success_with_stdout [];
     d_explanation := summary |}.

(** [ConversationCompactor.compact] *)
Definition compact (self : ConversationCompactor) (history : list turn_dict)
    (custom_instruction : option pystr) : list turn_dict :=
  if (Z.of_nat (length history) <=? keep_recent self)%Z then history
  else
    let to_compress := slice_to history (- keep_recent self) in
    let to_keep := slice_from history (- keep_recent self) in
    let key_info := _extract_key_information to_compress in
    let summary := _create_summary key_info custom_instruction in
    [summary_turn summary] ++ to_keep.

(** [ConversationCompactor.compact_with_llm] *)
Definition compact_with_llm (self : ConversationCompactor)
    (history : list turn_dict) (custom_instruction : option pystr)
  : list turn_dict :=
  compact self history custom_instruction.

(** *** The history a session hands out *)

Record SessionManager := {
  turns : list ConversationTurn;
  token_counter : TokenCounter;
  enable_smart_compression : bool;
  compactor : option ConversationCompactor
}.

(** The branch of [get_recent_history] that does not compact. *)
Definition recent_turns (self : SessionManager) (n : Z) : list turn_dict :=
  let history_dicts := _turns_to_dicts (turns self) true in
  if (n <? Z.of_nat (length history_dicts))%Z
  then slice_from history_dicts (- n)
  else history_dicts.

(** [SessionManager.compact_history] *)
Definition compact_history (self : SessionManager) (keep : Z)
    (custom_instruction : option pystr) : list turn_dict :=
  match compactor self with
  | None => recent_turns self keep
  | Some c => compact c (_turns_to_dicts (turns self) true) custom_instruction
  end.

(** [SessionManager.get_recent_history] *)
Definition get_recent_history (global_ctx : option pystr)
    (self : SessionManager) (n : Z) (auto_compact : bool)
    (current_question : pystr) : list turn_dict :=
  let history_dicts := _turns_to_dicts (turns self) true in
  match compactor self with
  | Some _ =>
    if auto_compact && enable_smart_compression self then
      let token_info := calculate_context_tokens global_ctx current_question
                          history_dicts None in
      if should_compact (token_counter self) (tk_total token_info)
      then compact_history self n None
      else recent_turns self n
    else recent_turns self n
  | None => recent_turns self n
  end.

(** [SessionManager.calculate_current_tokens] *)
Definition calculate_current_tokens (global_ctx : option pystr)
    (self : SessionManager) (current_question : pystr) : token_info :=
  calculate_context_tokens global_ctx current_question
    (_turns_to_dicts (turns self) true) None.

End Compactor.

(** ** Sandbox executor ([sandbox_executor.py]) *)

(** *** The syntax tree seen by the policy check

    The node classes that [_check_code_safety] tests for, as [ast.parse]
    builds them; every other class is [Other] with its child nodes in
    field order.  [Call] lists the positional arguments and then the
    [keyword] nodes.  The [ctx] of [Attribute] and [Name] is a child node
    too ([Other []]), as [ast.iter_child_nodes] yields it. *)
Record alias := { name : pystr; asname : option pystr }.

Inductive node :=
| Import (names : list alias)
| ImportFrom (module : option pystr) (names : list alias) (level : Z)
| Call (func : node) (args : list node)
| Attribute (value : node) (attr : pystr)
| Name (id : pystr)
| AliasNode (a : alias)
| Other (children : list node).

Definition ctx_node : node := Other [].

(** [ast.iter_child_nodes] *)
Definition iter_child_nodes (n : node) : list node :=
  match n with
  | Import names => map AliasNode names
  | ImportFrom _ names _ => map AliasNode names
  | Call func args => func :: args
  | Attribute value _ => [value; ctx_node]
  | Name _ => [ctx_node]
  | AliasNode _ => []
  | Other children => children
  end.

Fixpoint node_size (n : node) : nat :=
  S match n with
    | Import names => length names
    | ImportFrom _ names _ => length names
    | Call func args => node_size func + list_sum (map node_size args)
    | Attribute value _ => node_size value + 1
    | Name _ => 1
    | AliasNode _ => 0
    | Other children => list_sum (map node_size children)
    end.

Definition queue_size (todo : list node) : nat := list_sum (map node_size todo).

(** [ast.walk]: breadth first, the queue [todo] is extended with the
    children of the node taken from its front. *)
Equations walk_queue (todo : list node) : list node
  by wf (queue_size todo) lt :=
walk_queue [] := [];
walk_queue (n :: rest) := n :: walk_queue (rest ++ iter_child_nodes n).
Next Obligation.
  assert (Haliases : forall names : list alias,
            list_sum (map node_size (map AliasNode names)) = length names).
  { induction names as [|a names IH]; simpl; [reflexivity|now rewrite IH]. }
  assert (Hnode : node_size n
                  = S (list_sum (map node_size (iter_child_nodes n)))).
  { destruct n; simpl; rewrite ?Haliases; lia. }
  unfold queue_size. rewrite map_app, list_sum_app. simpl. lia.
Qed.

Definition walk (tree : node) : list node := walk_queue [tree].

(** [n] is a node of the tree rooted at [t]: [t] itself or a node of one
    of its children. *)
Inductive occurs_in (n : node) : node -> Prop :=
| occurs_here : occurs_in n n
| occurs_below (t c : node) :
    In c (iter_child_nodes t) -> occurs_in n c -> occurs_in n t.

(** The module-import constructs: [import ...] and [from ... import ...]. *)
Definition is_import (n : node) : bool :=
  match n with
  | Import _ | ImportFrom _ _ _ => true
  | _ => false
  end.

(** *** The policy check *)

Definition FORBIDDEN_BUILTINS : list pystr :=
  map U ["eval"; "exec"; "compile"; "__import__"; "open"; "input";
         "raw_input"; "execfile"; "file"; "reload"; "vars"; "locals";
         "globals"; "dir"; "getattr"; "setattr"; "delattr"; "hasattr"]%string.

Definition FORBIDDEN_MODULES : list pystr :=
  map U ["os"; "sys"; "subprocess"; "shutil"; "socket"; "urllib";
         "requests"; "pickle"; "shelve"; "marshal"; "importlib";
         "__builtin__"; "builtins"]%string.

(** The test of [_check_code_safety] on an attribute name. *)
Definition is_dunder (attr : pystr) : bool :=
  startswith attr (U "__") && endswith attr (U "__").

(** The body of the loop of [_check_code_safety] on one node:
    [Some msg] when it raises [CodeSecurityError(msg)]. *)
Definition check_node (n : node) : option pystr :=
  match n with
  | Import names =>
    match find (fun a => mem (name a) FORBIDDEN_MODULES) names with
    | Some a => Some (U "禁止导入模块: " ++ name a)
    | None => None
    end
  | ImportFrom module _ _ =>
    match module with
    | Some m => if mem m FORBIDDEN_MODULES
                then Some (U "禁止导入模块: " ++ m) else None
    | None => None
    end
  | Call (Name func_name) _ =>
    if mem func_name FORBIDDEN_BUILTINS
    then Some (U "禁止使用函数: " ++ func_name) else None
  | Attribute _ attr =>
    if is_dunder attr then Some (U "禁止访问魔术属性: " ++ attr) else None
  | _ => None
  end.

(** The loop over the walk: the first node that raises ends it. *)
Fixpoint check_nodes (ns : list node) : option pystr :=
  match ns with
  | [] => None
  | n :: rest =>
    match check_node n with
    | Some msg => Some msg
    | None => check_nodes rest
    end
  end.

(** *** The interpreter *)

(** How [exec(code, globals_dict)] ends inside [_execute_with_timeout].
    An exception that is not an [Exception] (KeyboardInterrupt,
    SystemExit) leaves [execute] and the workflow altogether; it is not
    modelled. *)
Inductive exec_ending :=
| Returned
| AlarmPropagated
    (* the SIGALRM handler ran and its TimeoutError left [exec] *)
| RaisedTimeoutError (msg : pystr)
    (* another instance of TimeoutError left [exec]; [msg] is [str(e)] *)
| Raised (cls msg : pystr).
    (* any other [Exception]: [type(e).__name__] and [str(e)] *)

Record exec_report (namespace : Type) := {
  ending : exec_ending;
  captured_stdout : pystr;     (* [stdout_capture.getvalue()] *)
  captured_stderr : pystr;     (* [stderr_capture.getvalue()] *)
  format_exc : pystr;          (* [traceback.format_exc()] in the handler *)
  elapsed : N;
    (* wall-clock time spent in [exec], in seconds rounded up *)
  alarm_intercepted : bool;
    (* the handler ran and the executed code caught its TimeoutError
       ([except Exception], say) or replaced it by another exception *)
  namespace_after : namespace  (* [globals_dict] as [exec] leaves it *)
}.

(** How [ast.parse(code)] ends: with the tree, with a SyntaxError, or with
    another [Exception] (a ValueError for a source with a null byte, a
    RecursionError or MemoryError for a source nested too deeply), of
    which [str(e)] is kept. *)
Inductive parse_result :=
| Parsed (tree : node)
| ParseSyntaxError
| ParseRaised (e : pystr).

(** How [compile(code, '<sandbox>', 'exec')] ends; for a SyntaxError
    [str(e)] and [traceback.format_exc()] are kept. *)
Inductive compile_result :=
| Compiled
| CompileSyntaxError (e tb : pystr)
| CompileRaised (e : pystr).

(** The Python platform the executor runs on.  [py_exec] is given the
    alarm that is armed, if any.  The executor is called from the main
    thread, as the workflow does, where [signal.signal] is allowed. *)
Class PyRuntime := {
  namespace : Type;
  ast_parse : pystr -> parse_result;
  py_compile : pystr -> compile_result;
  py_exec : option N -> pystr -> namespace -> exec_report namespace;
  has_SIGALRM : bool
    (* [hasattr(signal, 'SIGALRM')] *)
}.


(** What leaves a method of the executor when it raises. *)
Inductive raised :=
| CodeSecurityError (msg : pystr)
| OtherException (e : pystr).   (* [str(e)] of any other [Exception] *)

(** The executor object, with the fields its methods read.  [executed]
    is not a field of the source: it records the code strings passed to
    [exec], oldest first.  [timeout] is a number of seconds. *)
Record SandboxExecutor {R : PyRuntime} := {
  timeout : N;
  use_process_isolation : bool;
  globals_dict : namespace;
  executed : list pystr
}.

Section Sandbox.
Context {Uc : PyUnicode} {R : PyRuntime}.

(** [SandboxExecutor._check_code_safety]: [None] when it returns,
    [Some exc] when it raises.  Only the SyntaxError of [ast.parse] is
    caught. *)
Definition _check_code_safety (code : pystr) : option raised :=
  match ast_parse code with
  | ParseSyntaxError => None
  | ParseRaised e => Some (OtherException e)
  | Parsed tree =>
    match check_nodes (walk tree) with
    | Some msg => Some (CodeSecurityError msg)
    | None => None
    end
  end.

Definition import_hint_runtime : pystr :=
  U "__import__ not found: 代码中使用了__import__()函数，这在安全沙箱中是被禁止的。
解决方案：不要使用任何import语句，直接使用预加载的变量：
  - pd (pandas)
  - np (numpy)
  - plt (matplotlib.pyplot)
  - sns (seaborn)
  - datetime, timedelta, math
所有这些变量已经预加载，可以直接使用。".

Definition import_hint_static : pystr :=
  U "代码安全检查失败: 代码中使用了__import__()函数，这在安全沙箱中是被禁止的。
解决方案：不要使用任何import语句，直接使用预加载的变量：
  - pd (pandas)
  - np (numpy)
  - plt (matplotlib.pyplot)
  - sns (seaborn)
  - datetime, timedelta, math
所有这些变量已经预加载，可以直接使用。".

(** The message of the TimeoutError raised by [timeout_handler]. *)
Definition timeout_message (self : SandboxExecutor) : pystr :=
  U "代码执行超时（" ++ str_of_N (timeout self) ++ U "秒）".

(** [signal.alarm(self.timeout)] under [hasattr(signal, 'SIGALRM')]:
    the alarm that is armed; zero seconds arm nothing. *)
Definition armed_alarm (self : SandboxExecutor) : option N :=
  if has_SIGALRM then
    if (0 <? timeout self)%N then Some (timeout self) else None
  else None.

Definition mk_failure (etype err : pystr) (emsg : option pystr)
    (tb : pystr) (out err_out : option pystr) : result_dict :=
  {| success := false; stdout := out; stderr := err_out;
     error_type := Some etype; error := Some err; error_message := emsg;
     traceback := Some tb; plot_saved := None; plot_path := None |}.

(** [SandboxExecutor._execute_with_timeout] *)
Definition _execute_with_timeout (self : SandboxExecutor) (code : pystr)
  : result_dict * SandboxExecutor :=
  let report := py_exec (armed_alarm self) code (globals_dict self) in
  let self' := {| timeout := timeout self;
                  use_process_isolation := use_process_isolation self;
                  globals_dict := namespace_after report;
                  executed := executed self ++ [code] |} in
  let out := captured_stdout report in
  let err := captured_stderr report in
  match ending report with
  | Returned =>
    ({| success := true; stdout := Some out; stderr := Some err;
        error_type := None; error := None; error_message := None;
        traceback := None; plot_saved := None; plot_path := None |}, self')
  | AlarmPropagated =>
    (mk_failure (U "TimeoutError") (timeout_message self) None
                (format_exc report) (Some out) (Some err), self')
  | RaisedTimeoutError msg =>
    (mk_failure (U "TimeoutError") msg None
                (format_exc report) (Some out) (Some err), self')
  | Raised cls msg =>
    if contains (lower msg) (U "__import__")
       || contains msg (U "__import__ not found")
    then (mk_failure (U "ImportError") import_hint_runtime
                     (Some import_hint_runtime)
                     (format_exc report) (Some out) (Some err), self')
    else (mk_failure cls msg (Some msg)
                     (format_exc report) (Some out) (Some err), self')
  end.

(** [SandboxExecutor.execute]: [inl] of the dictionary it returns, or
    [inr (str(e))] when an [Exception] leaves it, which is what happens
    to every exception of the policy check other than CodeSecurityError
    and to every exception of [compile] other than SyntaxError. *)
Definition execute (self : SandboxExecutor) (code : pystr)
  : (result_dict + pystr) * SandboxExecutor :=
  match _check_code_safety code with
  | Some (CodeSecurityError e) =>
    let error_msg := if contains (lower e) (U "__import__")
                     then import_hint_static else e in
    (inl (mk_failure (U "SecurityError") error_msg (Some error_msg) []
                     None None),
     self)
  | Some (OtherException e) => (inr e, self)
  | None =>
    match py_compile code with
    | CompileSyntaxError e tb =>
      (inl (mk_failure (U "SyntaxError") e None tb None None), self)
    | CompileRaised e => (inr e, self)
    | Compiled =>
      let '(result, self') :=
        if use_process_isolation self
        then _execute_with_timeout self code
        else _execute_with_timeout self code in
      (inl result, self')
    end
  end.

End Sandbox.

(** ** Workflow ([workflow.py]) *)

(** The dictionary [error_feedback] built after a failed execution. *)
Record error_feedback_dict := {
  fb_code : pystr;
  fb_error_type : pystr;
  fb_error_message : pystr;
  fb_traceback : pystr
}.

(** [error_feedback = {'code': code, 'error_type': result.get(...), ...}] *)
Definition feedback_of (code : pystr) (result : result_dict)
  : error_feedback_dict :=
  {| fb_code := code;
     fb_error_type := get_or (error_type result) (U "Unknown");
     fb_error_message := get_or (error result) (U "Unknown error");
     fb_traceback := get_or (traceback result) [] |}.

(** The keys of the dictionary returned by
    [AsyncErrorAnalyzer.analyze_error_with_thinking] that the workflow
    reads. *)
Record thinking_dict := {
  th_success : bool;
  th_code : option pystr
}.

(** The language-model collaborators.  A call returns [inl] of its value
    or [inr (str(e))] when it raises an [Exception], and moves the state
    of the service. *)
Class LLMServices := {
  llm_state : Type;
  df_info : Type;
  generate_code :
    pystr -> df_info -> list turn_dict -> option error_feedback_dict ->
    pystr -> llm_state -> (pystr + pystr) * llm_state;
  analyze_error_with_thinking :
    pystr -> df_info -> list turn_dict -> error_feedback_dict ->
    pystr -> llm_state -> (thinking_dict + pystr) * llm_state
}.

(** What the workflow does to the outside, in order: the calls on the
    presentation layer ([self.ui]) and the calls of the generation
    service, the deep analysis and the executor. *)
Inductive event :=
| ShowInfo (msg : pystr)
| ShowRetry (attempt max_retries : Z)
| ShowCode (code : pystr)
| ShowExecuting
| ShowError (msg kind : pystr)
| CallGenerate (attempt : nat)
| CallThinking (attempt : nat)
| CallExecute (attempt : nat) (code : pystr).

(** Counting the calls recorded in a trace. *)
Definition generation_calls (t : list event) : nat :=
  length (filter (fun e => match e with CallGenerate _ => true | _ => false end) t).

Definition thinking_calls (t : list event) : nat :=
  length (filter (fun e => match e with CallThinking _ => true | _ => false end) t).

Definition execution_calls (t : list event) : nat :=
  length (filter (fun e => match e with CallExecute _ _ => true | _ => false end) t).

(** The local variables of [_generate_and_execute_with_retry] that live
    across iterations. *)
Record loop_state := {
  error_feedback : option error_feedback_dict;
  last_code : option pystr;
  last_result : option result_dict
}.

(** How one iteration of the loop ends. *)
Inductive step_result :=
| Return (code : option pystr) (result : option result_dict) (retries : Z)
| Continue (st : loop_state).

Section Workflow.
Context {Uc : PyUnicode} {R : PyRuntime} {L : LLMServices}.

Record World := {
  llm : llm_state;
  sandbox : SandboxExecutor;
  trace : list event
}.

Definition emit (e : event) (w : World) : World :=
  {| llm := llm w; sandbox := sandbox w; trace := trace w ++ [e] |}.

(** [self.executor.execute(code)] in the world: [inl] of the result
    or [inr (str(e))] when the call raises. *)
Definition run_execute (attempt : nat) (code : pystr) (w : World)
  : (result_dict + pystr) * World :=
  let '(result, sb) := execute (sandbox w) code in
  (result, {| llm := llm w; sandbox := sb;
              trace := trace w ++ [CallExecute attempt code] |}).

Variable max_retries : Z.
Variable question : pystr.
Variable info : df_info.
Variable history : list turn_dict.
Variable plot : pystr.

(** What the loop shows when an attempt starts. *)
Definition announce (attempt : nat) : event :=
  match attempt with
  | O => ShowInfo (U "正在生成代码...")
  | S _ => ShowRetry (Z.of_nat attempt + 1) max_retries
  end.

(** The [except Exception as e] clause of the loop body; [st] holds the
    local variables as the statement that raised found them. *)
Definition on_exception (attempt : nat) (e : pystr) (st : loop_state)
    (w : World) : step_result * World :=
  if (Z.of_nat attempt <? max_retries - 1)%Z
  then (Continue st, emit (ShowError e (U "Exception")) w)
  else (Return (last_code st) (last_result st) (Z.of_nat attempt), w).

(** The block under [if attempt == 0] after a failed execution. *)
Definition deep_analysis (attempt : nat) (fb : error_feedback_dict)
    (st : loop_state) (w : World) : step_result * World :=
  let w := emit (ShowInfo (U "🧠 启动深度错误分析（thinking模式）...")) w in
  let '(t, l) := analyze_error_with_thinking question info history fb plot
                   (llm w) in
  let w := {| llm := l; sandbox := sandbox w;
              trace := trace w ++ [CallThinking attempt] |} in
  match t with
  | inr e => on_exception attempt e st w
  | inl thinking_result =>
    match th_success thinking_result, th_code thinking_result with
    | true, Some (c :: cs) =>
      let tcode := c :: cs in
      let w := emit (ShowInfo (U "✨ 使用thinking深度分析结果")) w in
      let w := emit (ShowCode tcode) w in
      let w := emit ShowExecuting w in
      let '(x, w) := run_execute attempt tcode w in
      match x with
      | inr e => on_exception attempt e st w
      | inl thinking_exec_result =>
        if success thinking_exec_result
        then (Return (Some tcode) (Some thinking_exec_result)
                     (Z.of_nat attempt), w)
        else (Continue st,
              emit (ShowError
                      (get_or (error thinking_exec_result)
                              (U "thinking修复失败"))
                      (get_or (error_type thinking_exec_result) (U "Error")))
                   w)
      end
    | _, _ => (Continue st, w)
    end
  end.

(** The body of [for attempt in range(self.max_retries)]. *)
Definition attempt_body (attempt : nat) (st : loop_state) (w : World)
  : step_result * World :=
  let w := emit (announce attempt) w in
  let '(g, l) := generate_code question info history (error_feedback st)
                   plot (llm w) in
  let w := {| llm := l; sandbox := sandbox w;
              trace := trace w ++ [CallGenerate attempt] |} in
  match g with
  | inr e => on_exception attempt e st w
  | inl code =>
    let st := {| error_feedback := error_feedback st;
                 last_code := Some code;
                 last_result := last_result st |} in
    let w := emit (ShowCode code) w in
    let w := emit ShowExecuting w in
    let '(x, w) := run_execute attempt code w in
    match x with
    | inr e => on_exception attempt e st w
    | inl result =>
      let st := {| error_feedback := error_feedback st;
                   last_code := last_code st;
                   last_result := Some result |} in
      if success result
      then (Return (Some code) (Some result) (Z.of_nat attempt), w)
      else
        let fb := feedback_of code result in
        let st := {| error_feedback := Some fb;
                     last_code := last_code st;
                     last_result := last_result st |} in
        let w := emit (ShowError (get_or (error result) (U "Unknown error"))
                                 (get_or (error_type result) (U "Error"))) w in
        match attempt with
        | O => deep_analysis attempt fb st w
        | S _ => (Continue st, w)
        end
    end
  end.

(** The [for] loop over the attempts that are left, and the [return]
    after it. *)
Fixpoint retry_loop (attempts : list nat) (st : loop_state) (w : World)
  : (option pystr * option result_dict * Z) * World :=
  match attempts with
  | [] => ((last_code st, last_result st, max_retries), w)
  | attempt :: rest =>
    match attempt_body attempt st w with
    | (Return c r n, w') => ((c, r, n), w')
    | (Continue st', w') => retry_loop rest st' w'
    end
  end.

Definition initial_loop_state : loop_state :=
  {| error_feedback := None; last_code := None; last_result := None |}.

(** [AnalysisWorkflow._generate_and_execute_with_retry] *)
Definition _generate_and_execute_with_retry (w : World)
  : (option pystr * option result_dict * Z) * World :=
  retry_loop (seq 0 (Z.to_nat max_retries)) initial_loop_state w.

End Workflow.

(** * The code around the core

    The modules that the core calls or is called from: the execution
    environment of the executor and the rest of the session manager and
    of the token counter, the parser of the deep-analysis answer
    ([llm/thinking_parser.py], [llm/async_error_analyzer.py]), the
    cleaning of a generated answer ([llm/client.py]), the configuration
    ([utils/config.py]) and the prompt manager ([llm/prompts.py]).

    Not embedded: the calls of the model API and the prompts sent to it,
    the presentation layer ([cli/interface.py]) and the methods that
    only drive it ([analyze_question], [run_interactive]), the files
    ([save], [load], [export_report], [load_config], [csv_handler.py]),
    the formatting of floats ([format_token_display]) and the text of a
    dictionary ([str(result)] in [_estimate_history_length]). *)

(** ** The execution environment ([sandbox_executor.py])

    The methods [_init_globals], [set_dataframe], [reset] and
    [get_variable] read and write the dictionary [globals_dict] only; they
    are functions on that dictionary here. *)

(** A Python [dict] with [str] keys: the list of its items, each key
    once.  Lookup does not depend on the order of the items. *)
Definition pydict (V : Type) : Type := list (pystr * V).

(** [d.get(k)] *)
Fixpoint dict_get {V} (d : pydict V) (k : pystr) : option V :=
  match d with
  | [] => None
  | (k', v) :: rest => if str_eqb k' k then Some v else dict_get rest k
  end.

(** [d[k] = v] *)
Fixpoint dict_set {V} (d : pydict V) (k : pystr) (v : V) : pydict V :=
  match d with
  | [] => [(k, v)]
  | (k', v') :: rest =>
    if str_eqb k' k then (k', v) :: rest else (k', v') :: dict_set rest k v
  end.

(** [d.update(items)] *)
Definition dict_update {V} (d : pydict V) (items : pydict V) : pydict V :=
  fold_left (fun d kv => dict_set d (fst kv) (snd kv)) items d.

Definition ALLOWED_BUILTINS : list pystr :=
  map U ["abs"; "all"; "any"; "ascii"; "bin"; "bool"; "bytearray";
         "bytes"; "chr"; "complex"; "dict"; "divmod"; "enumerate";
         "filter"; "float"; "format"; "frozenset"; "hex"; "int";
         "isinstance"; "issubclass"; "iter"; "len"; "list"; "map";
         "max"; "min"; "next"; "oct"; "ord"; "pow"; "print"; "range";
         "repr"; "reversed"; "round"; "set"; "slice"; "sorted"; "str";
         "sum"; "tuple"; "type"; "zip";
         "Exception"; "ValueError"; "TypeError"; "KeyError";
         "IndexError"; "AttributeError"]%string.

(** The names bound by the literal of [safe_builtins.update({...})]; each
    is bound to the builtin of that name. *)
Definition UPDATED_BUILTINS : list pystr :=
  map U ["float"; "int"; "str"; "bool"; "list"; "dict"; "tuple"; "set";
         "len"; "print"; "range"; "sum"; "max"; "min"; "abs"; "round";
         "sorted"; "enumerate"; "zip"; "map"; "filter"; "all"; "any";
         "isinstance"; "type"; "issubclass";
         "Exception"; "ValueError"; "TypeError"; "KeyError"; "IndexError";
         "AttributeError"; "ZeroDivisionError"; "RuntimeError"]%string.

Section Environment.

(** The objects of the interpreter (modules, functions, classes, the data
    frame) and the module [builtins]: [hasattr(builtins, name)] and
    [getattr(builtins, name)]. *)
Variable pyobject : Type.
Variable hasattr_builtins : pystr -> bool.
Variable builtin : pystr -> pyobject.

(** The modules and classes imported by [_init_globals]. *)
Variables pd np plt sns datetime timedelta math : pyobject.

(** The values bound in [globals_dict]. *)
Inductive pyvalue :=
| PyNone
| PyObject (o : pyobject)
| PyBuiltins (d : pydict pyobject).

(** The dictionary [safe_builtins] built by [_init_globals]. *)
Definition safe_builtins : pydict pyobject :=
  let allowed :=
    fold_left (fun d name => if hasattr_builtins name
                             then dict_set d name (builtin name) else d)
              ALLOWED_BUILTINS [] in
  dict_update allowed (map (fun name => (name, builtin name)) UPDATED_BUILTINS).

(** [SandboxExecutor._init_globals]: the value it gives to
    [self.globals_dict]. *)
Definition _init_globals : pydict pyvalue :=
  [(U "__builtins__", PyBuiltins safe_builtins);
   (U "pd", PyObject pd);
   (U "np", PyObject np);
   (U "plt", PyObject plt);
   (U "sns", PyObject sns);
   (U "datetime", PyObject datetime);
   (U "timedelta", PyObject timedelta);
   (U "math", PyObject math)].

(** [SandboxExecutor.set_dataframe] *)
Definition set_dataframe (globals_dict : pydict pyvalue) (df : pyvalue)
  : pydict pyvalue :=
  dict_set globals_dict (U "df") df.

(** [SandboxExecutor.get_variable]: [globals_dict.get(name)], which is
    [None] for a name that is not bound. *)
Definition get_variable (globals_dict : pydict pyvalue) (name : pystr)
  : pyvalue :=
  match dict_get globals_dict name with
  | Some v => v
  | None => PyNone
  end.

(** [SandboxExecutor.reset] *)
Definition reset (globals_dict : pydict pyvalue) : pydict pyvalue :=
  let df_backup := get_variable globals_dict (U "df") in
  match df_backup with
  | PyNone => _init_globals
  | _ => dict_set _init_globals (U "df") df_backup
  end.

End Environment.

(** ** Session manager, continued ([session.py]) *)

(** [SessionManager.__init__], for the fields modelled.
    [compactor_available] is the module constant [COMPACTOR_AVAILABLE]:
    whether [compactor.py] could be imported. *)
Definition SessionManager_init {F : PyFloat} (compactor_available : bool)
    (enable_smart_compression : bool) (compression_threshold : Q)
    (model_max_tokens : option Z) : SessionManager :=
  {| turns := [];
     token_counter :=
       TokenCounter_init model_max_tokens (Some compression_threshold);
     enable_smart_compression :=
       enable_smart_compression && compactor_available;
     compactor := None |}.

(** [SessionManager.add_turn] *)
Definition add_turn (self : SessionManager) (turn : ConversationTurn)
  : SessionManager :=
  {| turns := turns self ++ [turn];
     token_counter := token_counter self;
     enable_smart_compression := enable_smart_compression self;
     compactor := compactor self |}.

(** [SessionManager.set_compactor] *)
Definition set_compactor (self : SessionManager) (c : ConversationCompactor)
  : SessionManager :=
  if enable_smart_compression self then
    {| turns := turns self;
       token_counter := token_counter self;
       enable_smart_compression := enable_smart_compression self;
       compactor := Some c |}
  else self.

(** The dictionary returned by [SessionManager.get_statistics]. *)
Record statistics := {
  total_turns : Z;
  success_count : Z;
  failed_count : Z;
  total_retries : Z;
  plots_generated : Z
}.

(** The truth value of an optional text: [None] and [''] are false. *)
Definition truthy (s : option pystr) : bool :=
  match s with
  | Some (_ :: _) => true
  | _ => false
  end.

(** [SessionManager.get_statistics] *)
Definition get_statistics (self : SessionManager) : statistics :=
  let total_turns := Z.of_nat (length (turns self)) in
  let success_count :=
    Z.of_nat (length (filter (fun t => success (execution_result t))
                             (turns self))) in
  let total_retries := list_sum_Z (map retry_count (turns self)) in
  let plots_count :=
    Z.of_nat (length (filter (fun t => truthy (turn_plot_path t))
                             (turns self))) in
  {| total_turns := total_turns;
     success_count := success_count;
     failed_count := (total_turns - success_count)%Z;
     total_retries := total_retries;
     plots_generated := plots_count |}.

(** ** Token counter, continued ([token_counter.py]) *)

(** The true division [a / b] of two ints, a binary64 operation like
    [fmul] and [fadd]: on the rationals, a parameter. *)
Class PyFloatDiv := {
  fdiv : Z -> Z -> Q
}.

(** What the status of the context window needs of the arithmetic: a
    quotient of at least one is not rounded below one, and a hundred
    times a float of at least one is not rounded below a hundred.
    Binary64 has both, its rounding being monotone and 1 and 100 being
    floats. *)
Class PyFloatPercent {F : PyFloat} {D : PyFloatDiv} : Prop := {
  fdiv_at_least_one : forall a b, (0 < b <= a)%Z -> (1 <= fdiv a b)%Q;
  fmul_at_least_hundred : forall x, (1 <= x)%Q -> (100 <= fmul 100 x)%Q
}.

(** The dictionary returned by [get_context_window_status]. *)
Record window_status := {
  ws_total_tokens : Z;
  ws_max_tokens : Z;
  ws_remaining_tokens : Z;
  ws_usage_percentage : Q;
  ws_status : pystr;
  ws_should_compact : bool
}.

Section WindowStatus.
Context {F : PyFloat} {D : PyFloatDiv}.

(** [TokenCounter.get_context_window_status]; [None] when the division
    raises ZeroDivisionError.  The product [x * 100] of a float and an
    int is the product [100 * x] of [fmul]. *)
Definition get_context_window_status (self : TokenCounter) (total_tokens : Z)
  : option window_status :=
  let remaining := (safe_max_tokens self - total_tokens)%Z in
  if (safe_max_tokens self =? 0)%Z then None
  else
    let usage_pct := fmul 100 (fdiv total_tokens (safe_max_tokens self)) in
    let status :=
      if Qle_bool 100 usage_pct then U "critical"
      else if Qle_bool 80 usage_pct then U "warning"
      else if Qle_bool 50 usage_pct then U "normal"
      else U "healthy" in
    Some {| ws_total_tokens := total_tokens;
            ws_max_tokens := safe_max_tokens self;
            ws_remaining_tokens := remaining;
            ws_usage_percentage := usage_pct;
            ws_status := status;
            ws_should_compact := should_compact self total_tokens |}.

(** [SessionManager.get_context_window_status] *)
Definition session_context_window_status (global_ctx : option pystr)
    (self : SessionManager) (current_question : pystr)
  : option window_status :=
  let token_info :=
    calculate_current_tokens global_ctx self current_question in
  get_context_window_status (token_counter self) (tk_total token_info).

End WindowStatus.

(** ** Parser of the deep-analysis answer ([llm/thinking_parser.py]) *)

(** [not s] for a text. *)
Definition is_empty (s : pystr) : bool :=
  match s with
  | [] => true
  | _ => false
  end.

(** [any(p in s for p in patterns)] *)
Definition contains_any (s : pystr) (patterns : list pystr) : bool :=
  existsb (contains s) patterns.

Section ThinkingParser.
Context {Uc : PyUnicode}.

Definition parser_code_indicators : list pystr :=
  map U ["="; "df["; "print("; "plt."; "pd."; "np.";
         "if "; "for "; "while "; "def "; "class ";
         "import "; "from "; "return "; "yield ";
         ".groupby("; ".sum("; ".mean("; ".apply(";
         "else:"; "elif "; "try:"; "except "]%string.

Definition explanation_patterns : list pystr :=
  map U ["这个修复版本"; "这样可以确保"; "注意："; "说明：";
         "步骤"; "原因分析"; "解决方案"; "修改点：";
         "以上代码"; "上述代码"; "该代码"; "此代码"]%string.

(** [ThinkingParser._looks_like_code] *)
Definition _looks_like_code (line : pystr) : bool :=
  let stripped := strip line in
  if is_empty stripped then true
  else if startswith stripped (U "#") then true
  else contains_any stripped parser_code_indicators.

(** [ThinkingParser._is_explanation_line] *)
Definition _is_explanation_line (line : pystr) : bool :=
  let stripped := strip line in
  if startswith stripped (U "#") then false
  else if _looks_like_code line then false
  else contains_any stripped explanation_patterns.

(** The first loop of [extract_code_from_thinking]: the lines it appends
    to [code_lines], from the state [in_code_block] on. *)
Fixpoint code_block_lines (in_code_block : bool) (lines : list pystr)
  : list pystr :=
  match lines with
  | [] => []
  | line :: rest =>
    if startswith (strip line) (U "```python")
       || (startswith (strip line) (U "```") && negb in_code_block)
    then code_block_lines true rest
    else if str_eqb (strip line) (U "```") && in_code_block then []
    else if in_code_block then line :: code_block_lines in_code_block rest
    else code_block_lines in_code_block rest
  end.

(** The second loop: what is kept of the lines of the block. *)
Definition keep_block_line (line : pystr) : bool :=
  let stripped := strip line in
  if startswith stripped (U "#") then true
  else if is_empty stripped then true
  else if _is_explanation_line line then false
  else true.

(** The third loop, for an answer without a block. *)
Definition keep_plain_line (line : pystr) : bool :=
  let stripped := strip line in
  if is_empty stripped then false
  else if _is_explanation_line line then false
  else _looks_like_code line.

(** [ThinkingParser.extract_code_from_thinking] *)
Definition extract_code_from_thinking (final_answer : pystr) : option pystr :=
  let lines := split_on NL (strip final_answer) in
  match code_block_lines false lines with
  | (_ :: _) as code_lines =>
    Some (join [NL] (filter keep_block_line code_lines))
  | [] =>
    match filter keep_plain_line lines with
    | (_ :: _) as code_lines => Some (join [NL] code_lines)
    | [] => None
    end
  end.

Definition thinking_keywords : list pystr :=
  map U ["分析"; "思考"; "考虑"; "因为"; "所以"; "步骤"]%string.

(** [ThinkingParser.format_thinking_for_display] *)
Definition format_thinking_for_display (thinking_content : pystr)
    (max_length : Z) : pystr :=
  if is_empty thinking_content then []
  else
    let lines := split_on NL thinking_content in
    let formatted_lines :=
      map (fun line => U "• " ++ firstn 100 (strip line))
          (filter (fun line => negb (is_empty (strip line))
                               && contains_any (strip line) thinking_keywords)
                  lines) in
    let formatted := join [NL] (slice_to formatted_lines 10) in
    if (max_length <? Z.of_nat (length formatted))%Z
    then slice_to formatted max_length ++ U "..."
    else formatted.

(** What [client.chat.completions.create] returned for the deep-analysis
    request: an object without [choices[0].message] (reading it raises
    [e]), or a message with its attributes [reasoning_content] and
    [content]. *)
Inductive completion :=
| Malformed (e : pystr)
| Message (reasoning_content content : option pystr).

(** The dictionary returned by [parse_thinking_response]. *)
Record parsed_thinking := {
  thinking_content : pystr;
  final_answer : pystr;
  has_thinking : bool;
  parse_error : option pystr
}.

(** [ThinkingParser.parse_thinking_response] *)
Definition parse_thinking_response (response : completion)
  : parsed_thinking :=
  match response with
  | Message reasoning content =>
    {| thinking_content := get_or reasoning [];
       final_answer := get_or content [];
       has_thinking := truthy reasoning;
       parse_error := None |}
  | Malformed e =>
    {| thinking_content := []; final_answer := []; has_thinking := false;
       parse_error := Some e |}
  end.

(** [AsyncErrorAnalyzer.analyze_error_with_thinking] from the call of the
    model API on, for the keys the workflow reads: [api] is what
    [create(...)] returned, or [inr (str(e))] when it raised.  (The prompt
    is built before the [try]; building it and calling the API are the
    environment.) *)
Definition thinking_result_of (api : completion + pystr) : thinking_dict :=
  match api with
  | inr _ => {| th_success := false; th_code := None |}
  | inl response =>
    let parsed := parse_thinking_response response in
    match extract_code_from_thinking (final_answer parsed) with
    | Some ((_ :: _) as fixed_code) =>
      {| th_success := true; th_code := Some fixed_code |}
    | _ => {| th_success := false; th_code := None |}
    end
  end.

End ThinkingParser.

(** ** Cleaning of a generated answer ([llm/client.py]) *)

(** [GLMClient._clean_code_response] *)
Definition _clean_code_response {Uc : PyUnicode} (response : pystr) : pystr :=
  let lines := split_on NL (strip response) in
  let lines :=
    match lines with
    | first :: rest =>
      if startswith (strip first) (U "```") then rest else lines
    | [] => lines
    end in
  let lines :=
    match lines with
    | [] => lines
    | _ :: _ =>
      if str_eqb (strip (last lines [])) (U "```") then removelast lines
      else lines
    end in
  strip (join [NL] lines).

(** ** Configuration ([utils/config.py]) *)

(** The values that [yaml.safe_load] builds; the keys of a mapping are
    texts. *)
Inductive yaml :=
| YNone
| YBool (b : bool)
| YInt (z : Z)
| YFloat (q : Q)
| YStr (s : pystr)
| YList (items : list yaml)
| YDict (items : pydict yaml).

Definition DOT : N := 46.

(** The loop of [Config.get] over the keys that are left. *)
Fixpoint config_lookup (keys : list pystr) (value default : yaml) : yaml :=
  match keys with
  | [] => value
  | k :: rest =>
    match value with
    | YDict items =>
      match dict_get items k with
      | None | Some YNone => default
      | Some v => config_lookup rest v default
      end
    | _ => default
    end
  end.

(** [Config.get(key, default)] on the configuration [_config] *)
Definition Config_get (_config : yaml) (key : pystr) (default : yaml) : yaml :=
  config_lookup (split_on DOT key) _config default.

(** [s[start:stop]] *)
Definition slice {A} (l : list A) (start stop : Z) : list A :=
  let len := Z.of_nat (length l) in
  skipn (slice_bound len start) (firstn (slice_bound len stop) l).

(** The test of [_replace_env_vars] on a text: ["${...}"]. *)
Definition is_placeholder (value : pystr) : bool :=
  startswith value (U "${") && endswith value (U "}").

(** What [_replace_env_vars] stores for one value of the mapping; [env]
    is the environment of the process, as [os.getenv] reads it. *)
Fixpoint replace_value (env : pystr -> option pystr) (value : yaml) : yaml :=
  match value with
  | YDict items =>
    YDict ((fix replace_items (items : pydict yaml) : pydict yaml :=
              match items with
              | [] => []
              | (key, v) :: rest =>
                (key, replace_value env v) :: replace_items rest
              end) items)
  | YStr s =>
    if is_placeholder s
    then YStr (match env (slice s 2 (-1)) with
               | Some v => v
               | None => s
               end)
    else value
  | _ => value
  end.

(** [_replace_env_vars(config_dict)] *)
Definition _replace_env_vars (env : pystr -> option pystr)
    (config_dict : pydict yaml) : pydict yaml :=
  map (fun kv => (fst kv, replace_value env (snd kv))) config_dict.

(** ** Prompt manager ([llm/prompts.py]) *)

Section Prompts.
Context {F : PyFloat} {Uc : PyUnicode}.

(** [PromptManager.estimate_token_count] *)
Definition estimate_token_count (text : pystr) : Z :=
  let chinese_chars := Z.of_nat (length (filter is_chinese text)) in
  let total_chars := Z.of_nat (length text) in
  let english_chars := (total_chars - chinese_chars)%Z in
  py_int (fadd (fmul chinese_chars 1.5%Q) (fmul english_chars 0.25%Q)).

(** [s[:limit] + suffix] when [len(s) > limit], for a literal limit. *)
Definition cut_to (limit : nat) (suffix s : pystr) : pystr :=
  if (limit <? length s)%nat then firstn limit s ++ suffix else s.

(** The text [turn_str] that [format_history] builds for the turn
    numbered [i]. *)
Definition format_turn (max_length_per_turn : Z) (i : Z) (turn : turn_dict)
  : pystr :=
  let code := cut_to 300 ([NL] ++ U "... (代码已截断)") (d_code turn) in
  let turn_parts :=
    [[NL] ++ U "第" ++ str_of_Z i ++ U "轮:";
     U "问题: " ++ d_question turn;
     U "代码:" ++ [NL] ++ code] in
  let result := d_result turn in
  let turn_parts :=
    if success result then
      let out := strip (get_or (stdout result) []) in
      if is_empty out then turn_parts
      else turn_parts
           ++ [U "结果: " ++ cut_to 200 (U "... (输出已截断)") out]
    else
      let error_msg := get_or (error result) (U "Unknown error") in
      turn_parts ++ [U "错误: " ++ cut_to 100 (U "...") error_msg] in
  let turn_str := join [NL] turn_parts in
  if (max_length_per_turn <? Z.of_nat (length turn_str))%Z
  then slice_to turn_str max_length_per_turn ++ [NL] ++ U "... (本轮已截断)"
  else turn_str.

(** The loop of [format_history] from the turn numbered [i] on: the
    texts it appends to [history_parts]. *)
Fixpoint format_turns (max_length_per_turn max_total_length : Z) (i : Z)
    (history : list turn_dict) (current_length : Z) : list pystr :=
  match history with
  | [] => []
  | turn :: rest =>
    let turn_str := format_turn max_length_per_turn i turn in
    if (max_total_length <? current_length + Z.of_nat (length turn_str))%Z
    then [[NL] ++ U "... (更早的历史已省略)"]
    else turn_str
         :: format_turns max_length_per_turn max_total_length (i + 1) rest
              (current_length + Z.of_nat (length turn_str))
  end.

(** [PromptManager.format_history] *)
Definition format_history (history : list turn_dict)
    (max_length_per_turn max_total_length : Z) : pystr :=
  match history with
  | [] => []
  | _ :: _ =>
    let title := U "【对话历史】" in
    join [NL]
      (title :: format_turns max_length_per_turn max_total_length 1 history
                  (Z.of_nat (length title)))
  end.

End Prompts.

(** ** Concrete platforms and collaborators

    Instances of the parameters, on which the properties below are
    evaluated. *)

(** Exact arithmetic. *)
Definition exact_float : PyFloat :=
  {| fmul := fun n x => (inject_Z n * x)%Q; fadd := Qplus |}.

(** Binary64 arithmetic, on the rationals the doubles denote: the
    operands are rounded to doubles (an integer and a decimal literal are
    converted, a double is left as it is), and the exact result of the
    operation is rounded again.  [b64_round q] is the double nearest to
    [q], a tie going to the even significand; a double has a
    significand of 53 bits and its last bit is worth at least [2^-1074].
    Overflow is not modelled: the exponent has no upper bound. *)

(** [n / d] rounded to the nearest integer, a tie to the even one. *)
Definition round_half_even (n : Z) (d : positive) : Z :=
  let q := (n / Zpos d)%Z in
  match (2 * (n mod Zpos d) ?= Zpos d)%Z with
  | Lt => q
  | Gt => (q + 1)%Z
  | Eq => if Z.even q then q else (q + 1)%Z
  end.

(** [m * 2^e] *)
Definition Qscale (m e : Z) : Q :=
  if (0 <=? e)%Z then inject_Z (m * 2 ^ e)
  else Qmake m (Z.to_pos (2 ^ (- e))).

(** The exponent of the last bit of the significand of the double
    nearest to [q <> 0]: the [e] with [2^(e + 52) <= |q| < 2^(e + 53)],
    or [-1074] when that is below it. *)
Definition b64_exponent (q : Q) : Z :=
  let a := Z.abs (Qnum q) in
  let d := Zpos (Qden q) in
  let k := (Z.log2 a - Z.log2 d)%Z in
  let reaches := if (0 <=? k)%Z then (d * 2 ^ k <=? a)%Z
                 else (d <=? a * 2 ^ (- k))%Z in
  Z.max ((if reaches then k else k - 1) - 52) (-1074).

Definition b64_round (q : Q) : Q :=
  if (Qnum q =? 0)%Z then 0%Q
  else
    let e := b64_exponent q in
    let m := if (0 <=? e)%Z
             then round_half_even (Qnum q) (Qden q * Z.to_pos (2 ^ e))
             else round_half_even (Qnum q * 2 ^ (- e)) (Qden q) in
    Qscale m e.

Definition binary64 : PyFloat :=
  {| fmul := fun n x => b64_round (b64_round (inject_Z n) * b64_round x)%Q;
     fadd := fun x y => b64_round (b64_round x + b64_round y)%Q |}.

(** The rational a primitive float denotes, for comparing the
    definitions above with the arithmetic of the machine. *)
Definition float_value (x : float) : option Q :=
  match Prim2SF x with
  | S754_zero _ => Some 0%Q
  | S754_finite sign m e => Some (Qscale (if sign then Zneg m else Zpos m) e)
  | _ => None
  end.

Definition float_of_small (n : Z) : float :=
  PrimFloat.of_uint63 (Uint63.of_Z n).

(** [str.lower] and [str.strip] on texts whose cased letters and white
    space are ASCII. *)
Definition ascii_lower (s : pystr) : pystr :=
  map (fun c => if ((65 <=? c) && (c <=? 90))%N then (c + 32)%N else c) s.

Definition is_ascii_space (c : N) : bool :=
  (((9 <=? c) && (c <=? 13)) || ((28 <=? c) && (c <=? 32)))%N.

Fixpoint lstrip (s : pystr) : pystr :=
  match s with
  | c :: s' => if is_ascii_space c then lstrip s' else s
  | [] => []
  end.

Definition ascii_strip (s : pystr) : pystr := rev (lstrip (rev (lstrip s))).

Definition ascii_unicode : PyUnicode :=
  {| lower := ascii_lower; strip := ascii_strip |}.

(** Two turns of a history, the second one failed. *)
Definition turn_a : turn_dict :=
  {| d_question := U "平均销售额是多少";
     d_code := U "print(df['Sales'].mean())";
     d_result := success_with_stdout (U "42.0");
     d_explanation := U "平均销售额为 42.0" |}.

Definition turn_b : turn_dict :=
  {| d_question := U "画出趋势图";
     d_code := U "df.plot(";
     d_result := only_success false;
     d_explanation := U "（解释生成失败）" |}.

(** A platform that knows a few programs.  [sigalrm] tells whether it has
    SIGALRM (Unix) or not.  A text with a null byte makes its parser and
    its compiler raise ValueError; every other text is a syntax error to
    it. *)
Definition plain (name_ : string) : alias := {| name := U name_; asname := None |}.

(** [For(target=Name, iter=Call(Name, [BinOp(Constant, Pow, Constant)]),
    body=[Pass])] *)
Definition long_loop : node :=
  Other [Name (U "i");
         Call (Name (U "range")) [Other [Other []; Other []; Other []]];
         Other []].

(** A program that survives the alarm: the first loop is interrupted,
    the TimeoutError of the handler is caught, and the second loop runs
    with no alarm left. *)
Definition stubborn_code : pystr :=
  U "try:
    for i in range(10**9): pass
except Exception:
    pass
for i in range(10**9): pass".

(** A program text with a null byte. *)
Definition null_byte_code : pystr := U "print(1)" ++ [0%N].

Definition null_byte_message : pystr :=
  U "source code string cannot contain null bytes".

Definition demo_parse (code : pystr) : parse_result :=
  if str_eqb code (U "import json") then
    Parsed (Other [Import [plain "json"]])
  else if str_eqb code (U "import os") then
    Parsed (Other [Import [plain "os"]])
  else if str_eqb code (U "from sys import path") then
    Parsed (Other [ImportFrom (Some (U "sys")) [plain "path"] 0])
  else if str_eqb code (U "x = df.__class__") then
    (* Module(body=[Assign(targets=[Name], value=Attribute)]) *)
    Parsed (Other [Other [Name (U "x");
                          Attribute (Name (U "df")) (U "__class__")]])
  else if str_eqb code (U "eval('1')") then
    (* Module(body=[Expr(value=Call(func=Name, args=[Constant]))]) *)
    Parsed (Other [Other [Call (Name (U "eval")) [Other []]]])
  else if str_eqb code (U "raise ValueError()") then
    (* Module(body=[Raise(exc=Call(func=Name))]) *)
    Parsed (Other [Other [Call (Name (U "ValueError")) []]])
  else if str_eqb code (U "print(1)") then
    (* Module(body=[Expr(value=Call(func=Name, args=[Constant]))]) *)
    Parsed (Other [Other [Call (Name (U "print")) [Other []]]])
  else if str_eqb code (U "for i in range(10**9): pass") then
    (* Module(body=[For]) *)
    Parsed (Other [long_loop])
  else if str_eqb code stubborn_code then
    (* Module(body=[Try(body=[For], handlers=[ExceptHandler(type=Name,
       body=[Pass])]), For]) *)
    Parsed (Other [Other [long_loop; Other [Name (U "Exception"); Other []]];
                   long_loop])
  else if existsb (N.eqb 0) code then ParseRaised null_byte_message
  else ParseSyntaxError.

Definition demo_compile (code : pystr) : compile_result :=
  match demo_parse code with
  | Parsed _ => Compiled
  | ParseRaised e => CompileRaised e
  | ParseSyntaxError =>
    CompileSyntaxError (U "invalid syntax (<sandbox>, line 1)")
                       (U "Traceback (most recent call last): SyntaxError")
  end.

Definition demo_exec (alarm : option N) (code : pystr) (ns : unit)
  : exec_report unit :=
  if str_eqb code (U "import json") then
    (* the restricted builtins have no [__import__] *)
    {| ending := Raised (U "ImportError") (U "__import__ not found");
       captured_stdout := []; captured_stderr := [];
       format_exc := U "Traceback (most recent call last): ImportError";
       elapsed := 0; alarm_intercepted := false; namespace_after := ns |}
  else if str_eqb code (U "raise ValueError()") then
    (* [str(ValueError())] is the empty string *)
    {| ending := Raised (U "ValueError") [];
       captured_stdout := []; captured_stderr := [];
       format_exc := U "Traceback (most recent call last): ValueError";
       elapsed := 0; alarm_intercepted := false; namespace_after := ns |}
  else if str_eqb code (U "for i in range(10**9): pass") then
    (* a loop that needs 60 seconds when nothing interrupts it; an
       interrupted run ends just after the alarm *)
    match alarm with
    | Some t =>
      if (t <? 60)%N then
        {| ending := AlarmPropagated;
           captured_stdout := []; captured_stderr := [];
           format_exc := U "Traceback (most recent call last): TimeoutError";
           elapsed := t + 1; alarm_intercepted := false;
           namespace_after := ns |}
      else
        {| ending := Returned; captured_stdout := []; captured_stderr := [];
           format_exc := []; elapsed := 60; alarm_intercepted := false;
           namespace_after := ns |}
    | None =>
      {| ending := Returned; captured_stdout := []; captured_stderr := [];
         format_exc := []; elapsed := 60; alarm_intercepted := false;
         namespace_after := ns |}
    end
  else if str_eqb code stubborn_code then
    (* two loops of 60 seconds each; an alarm during the first one is
       caught by the handler of the program, an alarm during the second
       one is not *)
    match alarm with
    | Some t =>
      if (t <? 60)%N then
        {| ending := Returned; captured_stdout := []; captured_stderr := [];
           format_exc := []; elapsed := t + 61; alarm_intercepted := true;
           namespace_after := ns |}
      else if (t <? 120)%N then
        {| ending := AlarmPropagated;
           captured_stdout := []; captured_stderr := [];
           format_exc := U "Traceback (most recent call last): TimeoutError";
           elapsed := t + 1; alarm_intercepted := false;
           namespace_after := ns |}
      else
        {| ending := Returned; captured_stdout := []; captured_stderr := [];
           format_exc := []; elapsed := 120; alarm_intercepted := false;
           namespace_after := ns |}
    | None =>
      {| ending := Returned; captured_stdout := []; captured_stderr := [];
         format_exc := []; elapsed := 120; alarm_intercepted := false;
         namespace_after := ns |}
    end
  else if str_eqb code (U "print(1)") then
    {| ending := Returned; captured_stdout := U "1" ++ [NL];
       captured_stderr := []; format_exc := [];
       elapsed := 0; alarm_intercepted := false; namespace_after := ns |}
  else
    {| ending := Returned; captured_stdout := []; captured_stderr := [];
       format_exc := []; elapsed := 0; alarm_intercepted := false;
       namespace_after := ns |}.

Definition demo_runtime (sigalrm : bool) : PyRuntime :=
  {| namespace := unit;
     ast_parse := demo_parse;
     py_compile := demo_compile;
     py_exec := demo_exec;
     has_SIGALRM := sigalrm |}.

(** A fresh executor with the default timeout of 30 seconds. *)
Definition demo_executor (sigalrm : bool)
  : @SandboxExecutor (demo_runtime sigalrm) :=
  @Build_SandboxExecutor (demo_runtime sigalrm) 30 false tt [].

(** A generation service that answers from a script, one entry per call
    ([inl code] or [inr (str(e))]), and a deep analysis with one fixed
    answer.  The state of the service is the number of calls made. *)
Definition scripted_llm (script : list (pystr + pystr))
    (thinking : thinking_dict + pystr) : LLMServices :=
  {| llm_state := nat;
     df_info := unit;
     generate_code := fun _ _ _ _ _ calls =>
       (nth calls script (inr (U "service unavailable")), S calls);
     analyze_error_with_thinking := fun _ _ _ _ _ calls =>
       (thinking, calls) |}.

(** The world at the start of a question on the Unix platform. *)
Definition demo_world (L : LLMServices) (start : @llm_state L)
  : @World (demo_runtime true) L :=
  @Build_World (demo_runtime true) L start (demo_executor true) [].

(** A service whose first call fails and whose second call answers, and
    a service whose first code fails at run time and whose deep analysis
    proposes a working candidate. *)
Definition flaky_llm : LLMServices :=
  scripted_llm [inr (U "connection reset"); inl (U "print(1)")]
               (inr (U "unused")).

Definition healing_llm : LLMServices :=
  scripted_llm [inl (U "raise ValueError()"); inl (U "print(1)")]
               (inl {| th_success := true; th_code := Some (U "print(1)") |}).

(** A generation service that is down: every call raises. *)
Definition unavailable_llm : LLMServices :=
  scripted_llm [] (inr (U "unused")).

(** A session of three turns, the second one failed, with a context
    window of 40 tokens whose threshold, 20 tokens, is reached; the
    compactor keeps one turn. *)
Definition ok_turn (q out : string) : ConversationTurn :=
  {| timestamp := U "2024-01-01T00:00:00";
     question := U q;
     code := U "print(df.shape)";
     execution_result := success_with_stdout (U out);
     explanation := U "the shape of the data";
     retry_count := 0;
     turn_plot_path := None |}.

Definition failed_turn : ConversationTurn :=
  {| timestamp := U "2024-01-01T00:01:00";
     question := U "plot it";
     code := U "df.plot(";
     execution_result :=
       {| success := false; stdout := None; stderr := None;
          error_type := Some (U "SyntaxError");
          error := Some (U "'(' was never closed");
          error_message := None;
          traceback := Some (U "Traceback (most recent call last)");
          plot_saved := None; plot_path := None |};
     explanation := U "no plot";
     retry_count := 3;
     turn_plot_path := None |}.

Definition small_compactor : ConversationCompactor :=
  {| compactor_threshold := 0.7%Q; target_ratio := 0.4%Q; keep_recent := 1 |}.

Definition demo_session : SessionManager :=
  add_turn
    (add_turn
       (add_turn
          (set_compactor
             (SessionManager_init (F := exact_float) true true 0.5%Q (Some 40%Z))
             small_compactor)
          (ok_turn "how many rows" "(10, 3)"))
       failed_turn)
    (ok_turn "and columns" "(10, 3)").

(** Exact division, and the division of binary64: the true division of
    two ints is the double nearest to their quotient. *)
Definition exact_div : PyFloatDiv :=
  {| fdiv := fun a b => (inject_Z a / inject_Z b)%Q |}.

Definition binary64_div : PyFloatDiv :=
  {| fdiv := fun a b => b64_round (inject_Z a / inject_Z b)%Q |}.

(** An answer of the deep analysis with a fenced block, and one without. *)
Definition fenced_answer : pystr :=
  join [NL] [U "The column has to be cleaned first."; U "```python";
             U "# 清洗 Sales 列"; U "sales = df['Sales']";
             U "说明：先去掉符号"; U "print(sales.mean())"; U "```";
             U "x = 1"].

Definition plain_answer : pystr :=
  join [NL] [U "Use the mean:"; U ""; U "print(df['Sales'].mean())";
             U "That is all."].

(** A configuration file: [session.context_window] is set to zero, and
    the API key is a placeholder. *)
Definition demo_config : yaml :=
  YDict [(U "llm", YDict [(U "model", YStr (U "glm-4-plus"));
                          (U "api_key", YStr (U "${ZHIPU_API_KEY}"));
                          (U "stop", YList [YStr (U "${STOP}")])]);
         (U "session", YDict [(U "context_window", YInt 0);
                              (U "enable_smart_compression", YBool false)]);
         (U "logging", YNone)].

Definition demo_env (name : pystr) : option pystr :=
  if str_eqb name (U "ZHIPU_API_KEY") then Some (U "secret")
  else if str_eqb name (U "STOP") then Some (U "halt")
  else None.


(** A generation service whose first code fails at run time and whose
    second code has a null byte; its deep analysis finds nothing. *)
Definition careless_llm : LLMServices :=
  scripted_llm [inl (U "raise ValueError()"); inl null_byte_code]
               (inl {| th_success := false; th_code := None |}).
(** ** Statements of the specification that the code does not satisfy

    Each is the sentence of the specification, quantified over every
    platform; the properties below refute it on a concrete platform and
    prove what holds instead. *)

(** "For every non-negative total, [should_compact] is true exactly when
    the total reaches the floor of the product of the maximum and the
    threshold", for the arithmetic [F]. *)
Definition should_compact_at_floor_of_product (F : PyFloat) : Prop :=
  forall (model_max : option Z) (threshold : option Q) (total : Z),
    let tc := TokenCounter_init (F := F) model_max threshold in
    (0 <= total)%Z ->
    (should_compact tc total = true
     <-> (Qfloor (inject_Z (model_max_tokens tc) * compression_threshold tc)
          <= total)%Z).

(** "Any code that parses and contains an import or from-import of any
    module is rejected by the policy check and never executed." *)
Definition policy_rejects_every_import : Prop :=
  forall (Uc : PyUnicode) (R : PyRuntime) (self : SandboxExecutor)
         (code : pystr) (tree imp : node),
    ast_parse code = Parsed tree ->
    occurs_in imp tree -> is_import imp = true ->
    (exists msg, _check_code_safety code = Some (CodeSecurityError msg))
    /\ executed (snd (execute self code)) = executed self.

(** "success = false implies error kind and error message present and
    non-empty; success = true implies no error field." *)
Definition outcome_invariant (r : result_dict) : Prop :=
  (success r = false ->
     (exists k, error_type r = Some k /\ k <> [])
     /\ (exists m, error r = Some m /\ m <> []))
  /\ (success r = true ->
        error_type r = None /\ error r = None
        /\ error_message r = None /\ traceback r = None).

Definition every_outcome_satisfies_invariant : Prop :=
  forall (Uc : PyUnicode) (R : PyRuntime) (self : SandboxExecutor)
         (code : pystr) (r : result_dict),
    fst (execute self code) = inl r -> outcome_invariant r.





(** * Properties *)

(** ** Numbers *)

Lemma Qfloor_unfold (q : Q) : Qfloor q = (Qnum q / Zpos (Qden q))%Z.
Proof. now destruct q. Qed.

Lemma py_int_nonneg (q : Q) : (0 <= q)%Q -> py_int q = Qfloor q.
Proof.
  intros Hq. rewrite Qfloor_unfold. unfold py_int.
  apply Z.quot_div_nonneg; [|reflexivity].
  unfold Qle in Hq. simpl in Hq. lia.
Qed.

Lemma py_int_neg (q : Q) : (q < 0)%Q -> (py_int q <= 0 /\ Qfloor q < 0)%Z.
Proof.
  intros Hq. rewrite Qfloor_unfold. unfold py_int.
  unfold Qlt in Hq. simpl in Hq.
  assert (Hn : (Qnum q < 0)%Z) by lia.
  split.
  - rewrite <- (Z.opp_involutive (Qnum q)), Z.quot_opp_l by discriminate.
    assert (0 <= - Qnum q ÷ Z.pos (Qden q))%Z; [|lia].
    apply Z.quot_pos; lia.
  - apply Z.div_lt_upper_bound; lia.
Qed.

Lemma py_int_mono (p q : Q) : (0 <= p)%Q -> (p <= q)%Q -> (py_int p <= py_int q)%Z.
Proof.
  intros Hp Hpq. rewrite !py_int_nonneg; [now apply Qfloor_resp_le | |assumption].
  now apply Qle_trans with p.
Qed.

(** ** Binary64

    The rounding of [binary64] is monotone, leaves the integers of at
    most 53 bits as they are, and has a relative error of at most
    [2^-53] in the range of the normal doubles; so [binary64] has what
    the properties below assume of the float arithmetic. *)

Section Binary64.
Local Unset Implicit Arguments.

(** *** Rounding to the nearest integer *)

Lemma round_half_even_near (n : Z) (d : positive) :
  (2 * round_half_even n d * Zpos d - Zpos d <= 2 * n
   <= 2 * round_half_even n d * Zpos d + Zpos d)%Z.
Proof.
  unfold round_half_even.
  pose proof (Z.div_mod n (Zpos d) ltac:(lia)) as Hdm.
  pose proof (Z.mod_pos_bound n (Zpos d) ltac:(lia)) as Hr.
  destruct (Z.compare_spec (2 * (n mod Zpos d)) (Zpos d)) as [H|H|H];
    [destruct (Z.even _)| |]; nia.
Qed.

Lemma round_half_even_mono_num (n n' : Z) (d : positive) :
  (n <= n')%Z -> (round_half_even n d <= round_half_even n' d)%Z.
Proof.
  intros Hn. unfold round_half_even.
  pose proof (Z.div_mod n (Zpos d) ltac:(lia)) as Hdm.
  pose proof (Z.mod_pos_bound n (Zpos d) ltac:(lia)) as Hr.
  pose proof (Z.div_mod n' (Zpos d) ltac:(lia)) as Hdm'.
  pose proof (Z.mod_pos_bound n' (Zpos d) ltac:(lia)) as Hr'.
  pose proof (Z.div_le_mono n n' (Zpos d) ltac:(lia) Hn) as Hq.
  destruct (Z.eq_dec (n / Zpos d) (n' / Zpos d)) as [Heq|Hne].
  - rewrite <- Heq in *.
    assert (Hrr : (n mod Zpos d <= n' mod Zpos d)%Z) by nia.
    destruct (Z.compare_spec (2 * (n mod Zpos d)) (Zpos d)) as [H|H|H];
      destruct (Z.compare_spec (2 * (n' mod Zpos d)) (Zpos d)) as [H'|H'|H'];
      try destruct (Z.even _); lia.
  - assert (Hlt : (n / Zpos d + 1 <= n' / Zpos d)%Z) by lia.
    destruct (Z.compare_spec (2 * (n mod Zpos d)) (Zpos d)) as [H|H|H];
      destruct (Z.compare_spec (2 * (n' mod Zpos d)) (Zpos d)) as [H'|H'|H'];
      try destruct (Z.even (n / Zpos d)); try destruct (Z.even (n' / Zpos d));
      lia.
Qed.

Lemma round_half_even_scale (n : Z) (d k : positive) :
  round_half_even (n * Zpos k) (d * k) = round_half_even n d.
Proof.
  unfold round_half_even. rewrite Pos2Z.inj_mul.
  rewrite Z.div_mul_cancel_r by lia.
  rewrite Z.mul_mod_distr_r by lia.
  replace (2 * (n mod Zpos d * Zpos k))%Z
    with ((2 * (n mod Zpos d)) * Zpos k)%Z by ring.
  rewrite <- Zmult_compare_compat_r by lia. reflexivity.
Qed.

Lemma round_half_even_exact (z : Z) (d : positive) :
  round_half_even (z * Zpos d) d = z.
Proof.
  unfold round_half_even. rewrite Z.div_mul, Z.mod_mul by lia.
  cbn. reflexivity.
Qed.

Lemma round_half_even_opp (n : Z) (d : positive) :
  round_half_even (- n) d = (- round_half_even n d)%Z.
Proof.
  unfold round_half_even.
  pose proof (Z.mod_pos_bound n (Zpos d) ltac:(lia)) as Hr.
  destruct (Z.eq_dec (n mod Zpos d) 0) as [Hz|Hnz].
  - rewrite Z.div_opp_l_z, Z.mod_opp_l_z, Hz by lia. cbn. reflexivity.
  - rewrite Z.div_opp_l_nz, Z.mod_opp_l_nz by lia.
    destruct (Z.compare_spec (2 * (n mod Zpos d)) (Zpos d)) as [H|H|H];
      destruct (Z.compare_spec (2 * (Zpos d - n mod Zpos d)) (Zpos d))
        as [H'|H'|H']; try lia.
    rewrite Z.even_sub, Z.even_opp. cbn.
    destruct (Z.even (n / Zpos d)); cbn; lia.
Qed.

(** *** Rounding to the nearest double *)

(** The nearest integer of a rational, powers of two, and the rounded
    significand of a rational at its exponent. *)
Local Abbreviation rheQ x := (round_half_even (Qnum x) (Qden x)).
Local Abbreviation pow2 e := ((2 # 1) ^ e)%Q.

Lemma rheQ_mono (x y : Q) : (x <= y)%Q -> (rheQ x <= rheQ y)%Z.
Proof.
  unfold Qle. intros H.
  rewrite <- (round_half_even_scale (Qnum x) (Qden x) (Qden y)).
  rewrite <- (round_half_even_scale (Qnum y) (Qden y) (Qden x)).
  rewrite (Pos.mul_comm (Qden y) (Qden x)).
  now apply round_half_even_mono_num.
Qed.

Lemma rheQ_compat (x y : Q) : (x == y)%Q -> rheQ x = rheQ y.
Proof.
  intros H. apply Z.le_antisymm; apply rheQ_mono; rewrite H; apply Qle_refl.
Qed.

Lemma rheQ_Z (z : Z) : rheQ (inject_Z z) = z.
Proof.
  cbn [inject_Z Qnum Qden].
  rewrite <- (round_half_even_exact z 1) at 2. now rewrite Z.mul_1_r.
Qed.

Lemma rheQ_opp (x : Q) : rheQ (- x)%Q = (- rheQ x)%Z.
Proof. destruct x as [n d]. cbn [Qopp Qnum Qden]. apply round_half_even_opp. Qed.

Lemma rheQ_near (x : Q) :
  (inject_Z (rheQ x) - (1 # 2) <= x <= inject_Z (rheQ x) + (1 # 2))%Q.
Proof.
  destruct x as [n d]. cbn [Qnum Qden].
  pose proof (round_half_even_near n d) as H.
  unfold Qle, Qminus, Qplus, Qopp, inject_Z. cbn [Qnum Qden].
  rewrite ?Pos2Z.inj_mul. split; nia.
Qed.

Lemma pow2_pos (e : Z) : (0 < pow2 e)%Q.
Proof. now apply Qpower_0_lt. Qed.

Lemma pow2_plus (a b : Z) : (pow2 (a + b) == pow2 a * pow2 b)%Q.
Proof. now apply Qpower_plus. Qed.

Lemma pow2_opp (a : Z) : (pow2 (- a) == / pow2 a)%Q.
Proof. apply Qpower_opp. Qed.

Lemma pow2_inv (a : Z) : (pow2 a * pow2 (- a) == 1)%Q.
Proof.
  rewrite <- pow2_plus, Z.add_opp_diag_r. reflexivity.
Qed.

Lemma pow2_le (a b : Z) : (a <= b)%Z -> (pow2 a <= pow2 b)%Q.
Proof. intros H. apply Qpower_le_compat_l; [assumption|discriminate]. Qed.

Lemma pow2_lt_inv (a b : Z) : (pow2 a < pow2 b)%Q -> (a < b)%Z.
Proof.
  intros H. destruct (Z.lt_ge_cases a b) as [Hlt|Hge]; [assumption|].
  apply pow2_le in Hge. lra.
Qed.

Lemma pow2_Z (k : Z) : (0 <= k)%Z -> (pow2 k == inject_Z (2 ^ k))%Q.
Proof. intros H. now rewrite Zpower_Qpower. Qed.

Lemma Qscale_pow2 (m e : Z) : (Qscale m e == inject_Z m * pow2 e)%Q.
Proof.
  unfold Qscale. destruct (Z.leb_spec 0 e) as [He|He].
  - rewrite inject_Z_mult, pow2_Z by assumption. reflexivity.
  - assert (Hp : (0 < 2 ^ (- e))%Z) by (apply Z.pow_pos_nonneg; lia).
    rewrite Qmake_Qdiv, Z2Pos.id by assumption.
    rewrite <- pow2_Z by lia. rewrite pow2_opp.
    unfold Qdiv. rewrite Qinv_involutive. reflexivity.
Qed.

Lemma log2_bounds (a : Z) :
  (0 < a)%Z ->
  (pow2 (Z.log2 a) <= inject_Z a)%Q /\ (inject_Z a < pow2 (Z.log2 a + 1))%Q.
Proof.
  intros Ha. pose proof (Z.log2_spec a Ha) as [Hlo Hhi].
  pose proof (Z.log2_nonneg a) as Hnn.
  rewrite !pow2_Z by lia. rewrite <- Zle_Qle, <- Zlt_Qlt.
  replace (Z.log2 a + 1)%Z with (Z.succ (Z.log2 a)) by lia. now split.
Qed.

Lemma b64_exponent_spec (q : Q) :
  (0 < q)%Q ->
  (q < pow2 (b64_exponent q + 53))%Q
  /\ ((pow2 (b64_exponent q + 52) <= q)%Q \/ b64_exponent q = (-1074)%Z).
Proof.
  intros Hq. destruct q as [a d]. unfold Qlt in Hq. cbn in Hq.
  assert (Ha : (0 < a)%Z) by lia. clear Hq.
  unfold b64_exponent. cbn [Qnum Qden]. rewrite (Z.abs_eq a) by lia.
  set (k := (Z.log2 a - Z.log2 (Zpos d))%Z).
  destruct (log2_bounds a Ha) as [Hal Hah].
  destruct (log2_bounds (Zpos d) ltac:(lia)) as [Hdl Hdh].
  set (A := inject_Z a) in *. set (D := inject_Z (Zpos d)) in *.
  assert (HD : (0 < D)%Q).
  { apply Qlt_le_trans with (pow2 (Z.log2 (Zpos d))); [apply pow2_pos|assumption]. }
  assert (Hq : (a # d == A / D)%Q) by apply Qmake_Qdiv.
  assert (Hup : (A < pow2 (k + 1) * D)%Q).
  { apply Qlt_le_trans with (pow2 (Z.log2 a + 1)); [assumption|].
    replace (Z.log2 a + 1)%Z with ((k + 1) + Z.log2 (Zpos d))%Z by lia.
    rewrite pow2_plus. apply Qmult_le_l; [apply pow2_pos|assumption]. }
  assert (Hdown : (pow2 (k - 1) * D <= A)%Q).
  { apply Qle_trans with (pow2 (Z.log2 a)); [|assumption].
    replace (Z.log2 a) with ((k - 1) + (Z.log2 (Zpos d) + 1))%Z by lia.
    rewrite (pow2_plus (k - 1)).
    apply Qmult_le_l; [apply pow2_pos|]. now apply Qlt_le_weak. }
  set (reaches := if (0 <=? k)%Z then (Zpos d * 2 ^ k <=? a)%Z
                  else (Zpos d <=? a * 2 ^ (- k))%Z).
  assert (Hreach : reaches = true <-> (pow2 k * D <= A)%Q).
  { subst reaches. destruct (Z.leb_spec 0 k) as [Hk|Hk].
    - rewrite Z.leb_le, pow2_Z by assumption. unfold A, D.
      rewrite <- inject_Z_mult, <- Zle_Qle. lia.
    - rewrite Z.leb_le.
      assert (Hinv : (pow2 k * pow2 (- k) == 1)%Q) by apply pow2_inv.
      rewrite Zle_Qle, inject_Z_mult. fold A D.
      rewrite <- (pow2_Z (- k)) by lia.
      pose proof (pow2_pos k) as Hpk. pose proof (pow2_pos (- k)) as Hpmk.
      split; intros H.
      + apply Qle_trans with (pow2 k * (A * pow2 (- k)))%Q.
        * apply Qmult_le_l; assumption.
        * apply Qle_lteq. right.
          transitivity (A * (pow2 k * pow2 (- k)))%Q; [ring|].
          rewrite Hinv. ring.
      + apply Qle_trans with (pow2 k * D * pow2 (- k))%Q.
        * apply Qle_lteq. right.
          transitivity (D * (pow2 k * pow2 (- k)))%Q; [|ring].
          rewrite Hinv. ring.
        * apply Qmult_le_compat_r; [assumption|now apply Qlt_le_weak]. }
  set (e0 := ((if reaches then k else k - 1) - 52)%Z).
  assert (Hlow : (pow2 (e0 + 52) * D <= A)%Q).
  { subst e0. destruct reaches.
    - replace (k - 52 + 52)%Z with k by lia. now apply Hreach.
    - replace (k - 1 - 52 + 52)%Z with (k - 1)%Z by lia. assumption. }
  assert (Hhigh : (A < pow2 (e0 + 53) * D)%Q).
  { subst e0. destruct reaches eqn:Hr.
    - replace (k - 52 + 53)%Z with (k + 1)%Z by lia. assumption.
    - replace (k - 1 - 52 + 53)%Z with k by lia.
      apply Qnot_le_lt. intros Habs. apply Hreach in Habs. discriminate. }
  split.
  - rewrite Hq. apply Qlt_shift_div_r; [assumption|].
    apply Qlt_le_trans with (pow2 (e0 + 53) * D)%Q; [assumption|].
    apply Qmult_le_compat_r; [|now apply Qlt_le_weak].
    apply pow2_le. lia.
  - destruct (Z.max_spec e0 (-1074)) as [[_ ->]|[_ ->]]; [now right|left].
    rewrite Hq. now apply Qle_shift_div_l.
Qed.

Local Abbreviation significand q :=
  (round_half_even
     (Qnum (Qmult q (Qpower (Qmake 2 1) (Z.opp (b64_exponent q)))))
     (Qden (Qmult q (Qpower (Qmake 2 1) (Z.opp (b64_exponent q)))))).

Lemma inv_pow2 (e : Z) :
  (0 <= e)%Z -> (1 # Z.to_pos (2 ^ e) == pow2 (- e))%Q.
Proof.
  intros He.
  assert (Hp : (0 < 2 ^ e)%Z) by (apply Z.pow_pos_nonneg; lia).
  rewrite Qmake_Qdiv, Z2Pos.id by assumption.
  rewrite <- pow2_Z, pow2_opp by assumption.
  unfold Qdiv. now rewrite Qmult_1_l.
Qed.

Lemma Qnum_zero (q : Q) : Qnum q = 0%Z <-> (q == 0)%Q.
Proof. unfold Qeq. cbn. lia. Qed.

Lemma b64_round_zero (q : Q) : (q == 0)%Q -> b64_round q = 0%Q.
Proof.
  intros H. apply Qnum_zero in H. unfold b64_round. now rewrite H.
Qed.

(** The rounded value is the rounded significand at the exponent. *)
Lemma b64_round_eq (q : Q) :
  ~ (q == 0)%Q ->
  (b64_round q == inject_Z (significand q) * pow2 (b64_exponent q))%Q.
Proof.
  intros Hq. unfold b64_round.
  destruct (Z.eqb_spec (Qnum q) 0) as [Hz|_]; [now apply Qnum_zero in Hz|].
  cbv zeta. rewrite Qscale_pow2.
  set (e := b64_exponent q).
  apply Qmult_comp; [|reflexivity].
  apply inject_Z_injective.
  destruct (Z.leb_spec 0 e) as [He|He].
  - change (round_half_even (Qnum q) (Qden q * Z.to_pos (2 ^ e)))
      with (rheQ (Qnum q # (Qden q * Z.to_pos (2 ^ e)))).
    apply rheQ_compat.
    rewrite <- inv_pow2 by assumption.
    destruct q as [n d]. unfold Qeq, Qmult. cbn [Qnum Qden]. ring.
  - change (round_half_even (Qnum q * 2 ^ (- e)) (Qden q))
      with (rheQ (Qnum q * 2 ^ (- e) # Qden q)).
    apply rheQ_compat.
    rewrite pow2_Z by lia.
    destruct q as [n d]. unfold Qeq, Qmult, inject_Z. cbn [Qnum Qden].
    rewrite Pos.mul_1_r. ring.
Qed.

Lemma b64_exponent_min (q : Q) : (-1074 <= b64_exponent q)%Z.
Proof. unfold b64_exponent. apply Z.le_max_r. Qed.

Lemma b64_exponent_mono (p q : Q) :
  (0 < p)%Q -> (p <= q)%Q -> (b64_exponent p <= b64_exponent q)%Z.
Proof.
  intros Hp Hpq.
  assert (Hq : (0 < q)%Q) by lra.
  destruct (b64_exponent_spec p Hp) as [_ Hlow].
  destruct (b64_exponent_spec q Hq) as [Hhigh _].
  pose proof (b64_exponent_min q) as Hmin.
  destruct (Z.le_gt_cases (b64_exponent p) (b64_exponent q)) as [H|H];
    [assumption|].
  destruct Hlow as [Hlow|Hlow]; [|lia].
  assert (Hlt : (pow2 (b64_exponent p + 52) < pow2 (b64_exponent q + 53))%Q)
    by lra.
  apply pow2_lt_inv in Hlt. lia.
Qed.

Lemma sig_scaled (q : Q) (e : Z) :
  (q == q * pow2 (- e) * pow2 e)%Q.
Proof.
  transitivity (q * (pow2 e * pow2 (- e)))%Q; [|ring].
  rewrite pow2_inv. ring.
Qed.

Lemma sig_bounds (q : Q) :
  (0 < q)%Q ->
  (0 <= significand q <= 2 ^ 53)%Z
  /\ ((pow2 (b64_exponent q + 52) <= q)%Q -> (2 ^ 52 <= significand q)%Z).
Proof.
  intros Hq. set (e := b64_exponent q).
  destruct (b64_exponent_spec q Hq) as [Hhigh _]. fold e in Hhigh.
  pose proof (pow2_pos (- e)) as Hpm. pose proof (pow2_pos e) as Hpe.
  pose proof (pow2_inv e) as Hinv.
  assert (Hover : forall k, (pow2 (e + k) * pow2 (- e) == inject_Z (2 ^ k))%Q
                            \/ (k < 0)%Z).
  { intros k. destruct (Z.lt_ge_cases k 0) as [Hk|Hk]; [now right|left].
    rewrite <- pow2_Z by assumption.
    rewrite <- pow2_plus. replace (e + k + - e)%Z with k by lia. reflexivity. }
  split; [split|].
  - rewrite <- (rheQ_Z 0). apply rheQ_mono. cbn [inject_Z].
    apply Qmult_le_0_compat; now apply Qlt_le_weak.
  - rewrite <- (rheQ_Z (2 ^ 53)). apply rheQ_mono.
    destruct (Hover 53%Z) as [<-|Habs]; [|lia].
    apply Qmult_le_compat_r; now apply Qlt_le_weak.
  - intros Hlow. rewrite <- (rheQ_Z (2 ^ 52)). apply rheQ_mono.
    destruct (Hover 52%Z) as [<-|Habs]; [|lia].
    apply Qmult_le_compat_r; [assumption|now apply Qlt_le_weak].
Qed.

Lemma b64_round_nonneg (q : Q) : (0 <= q)%Q -> (0 <= b64_round q)%Q.
Proof.
  intros Hq. destruct (Qeq_dec q 0) as [Hz|Hnz].
  - rewrite (b64_round_zero q Hz). apply Qle_refl.
  - rewrite (b64_round_eq q Hnz).
    assert (Hpos : (0 < q)%Q).
    { apply Qle_lteq in Hq. destruct Hq as [H|H]; [assumption|].
      symmetry in H. contradiction. }
    destruct (sig_bounds q Hpos) as [[Hs _] _].
    apply Qmult_le_0_compat.
    + change (inject_Z 0 <= inject_Z (significand q))%Q. now rewrite <- Zle_Qle.
    + apply Qlt_le_weak, pow2_pos.
Qed.

Lemma b64_round_pos_mono (p q : Q) :
  (0 < p)%Q -> (p <= q)%Q -> (b64_round p <= b64_round q)%Q.
Proof.
  intros Hp Hpq.
  assert (Hq : (0 < q)%Q) by lra.
  rewrite (b64_round_eq p), (b64_round_eq q) by lra.
  pose proof (b64_exponent_mono p q Hp Hpq) as He.
  destruct (sig_bounds p Hp) as [[_ Hsp] _].
  destruct (sig_bounds q Hq) as [_ Hsq].
  destruct (b64_exponent_spec q Hq) as [_ Hlow].
  pose proof (b64_exponent_min p) as Hmin.
  destruct (Z.eq_dec (b64_exponent p) (b64_exponent q)) as [Heq|Hne].
  - rewrite Heq.
    apply Qmult_le_compat_r; [|apply Qlt_le_weak, pow2_pos].
    rewrite <- Zle_Qle. apply rheQ_mono.
    apply Qmult_le_compat_r; [assumption|apply Qlt_le_weak, pow2_pos].
  - destruct Hlow as [Hlow|Hlow]; [|lia].
    specialize (Hsq Hlow).
    apply Qle_trans with (inject_Z (2 ^ 53) * pow2 (b64_exponent p))%Q.
    + apply Qmult_le_compat_r; [|apply Qlt_le_weak, pow2_pos].
      now rewrite <- Zle_Qle.
    + apply Qle_trans with (inject_Z (2 ^ 52) * pow2 (b64_exponent q))%Q.
      * rewrite <- !pow2_Z by lia. rewrite <- !pow2_plus.
        apply pow2_le. lia.
      * apply Qmult_le_compat_r; [|apply Qlt_le_weak, pow2_pos].
        now rewrite <- Zle_Qle.
Qed.

Lemma b64_round_opp (q : Q) : (b64_round (- q) == - b64_round q)%Q.
Proof.
  destruct (Qeq_dec q 0) as [Hz|Hnz].
  - rewrite (b64_round_zero q Hz), (b64_round_zero (- q)); [reflexivity|].
    rewrite Hz. reflexivity.
  - unfold b64_round.
    assert (Hexp : b64_exponent (- q) = b64_exponent q).
    { unfold b64_exponent. destruct q as [n d]. cbn [Qopp Qnum Qden].
      now rewrite Z.abs_opp. }
    destruct q as [n d]. cbn [Qopp Qnum Qden] in *.
    destruct (Z.eqb_spec n 0) as [Hn|Hn].
    { exfalso. apply Hnz. now apply Qnum_zero. }
    destruct (Z.eqb_spec (- n) 0) as [Hn'|_]; [lia|].
    cbv zeta. rewrite Hexp. rewrite !Qscale_pow2.
    destruct (0 <=? b64_exponent (n # d))%Z.
    + rewrite round_half_even_opp, inject_Z_opp. ring.
    + rewrite Z.mul_opp_l, round_half_even_opp, inject_Z_opp. ring.
Qed.

Lemma b64_round_mono (p q : Q) :
  (p <= q)%Q -> (b64_round p <= b64_round q)%Q.
Proof.
  intros Hpq.
  destruct (Qlt_le_dec 0 p) as [Hp|Hp]; [now apply b64_round_pos_mono|].
  assert (Hrp : (b64_round p <= 0)%Q).
  { assert (H : (0 <= b64_round (- p))%Q) by (apply b64_round_nonneg; lra).
    rewrite b64_round_opp in H. lra. }
  destruct (Qlt_le_dec q 0) as [Hq|Hq].
  - assert (H : (b64_round (- q) <= b64_round (- p))%Q)
      by (apply b64_round_pos_mono; lra).
    rewrite !b64_round_opp in H. lra.
  - apply Qle_trans with 0%Q; [assumption|now apply b64_round_nonneg].
Qed.

Lemma b64_round_compat (p q : Q) : (p == q)%Q -> (b64_round p == b64_round q)%Q.
Proof.
  intros H. apply Qle_antisym; apply b64_round_mono; rewrite H; apply Qle_refl.
Qed.

Lemma pow2_le_inv (a b : Z) : (pow2 a <= pow2 b)%Q -> (a <= b)%Z.
Proof.
  intros H. destruct (Z.le_gt_cases a b) as [Hle|Hgt]; [assumption|].
  assert (Hlt : (pow2 b < pow2 a)%Q)
    by (apply Qpower_lt_compat_l; [lia|reflexivity]).
  lra.
Qed.

(** An integer of at most 53 bits is a double. *)
Lemma b64_round_Z (z : Z) :
  (0 <= z <= 2 ^ 53)%Z -> (b64_round (inject_Z z) == inject_Z z)%Q.
Proof.
  intros Hz. destruct (Z.eq_dec z 0) as [->|Hnz]; [reflexivity|].
  assert (Hpos : (0 < inject_Z z)%Q).
  { change (inject_Z 0 < inject_Z z)%Q. rewrite <- Zlt_Qlt. lia. }
  destruct (b64_exponent_spec _ Hpos) as [_ Hlow].
  rewrite b64_round_eq by lra.
  set (e := b64_exponent (inject_Z z)) in *.
  destruct (Z.le_gt_cases e 0) as [He|He].
  - assert (Hx : (inject_Z z * pow2 (- e) == inject_Z (z * 2 ^ (- e)))%Q).
    { rewrite inject_Z_mult, pow2_Z by lia. reflexivity. }
    rewrite (rheQ_compat _ _ Hx), rheQ_Z, <- Hx.
    symmetry. apply sig_scaled.
  - destruct Hlow as [Hlow|Hlow]; [|lia].
    assert (Htop : (pow2 (e + 52) <= pow2 53)%Q).
    { apply Qle_trans with (inject_Z z); [assumption|].
      rewrite pow2_Z by lia. rewrite <- Zle_Qle. lia. }
    apply pow2_le_inv in Htop.
    assert (He1 : e = 1%Z) by lia.
    assert (Hz53 : z = (2 ^ 53)%Z).
    { rewrite He1 in Hlow. change (1 + 52)%Z with 53%Z in Hlow.
      rewrite pow2_Z in Hlow by lia. rewrite <- Zle_Qle in Hlow. lia. }
    subst e. rewrite He1. rewrite Hz53. vm_compute. reflexivity.
Qed.

(** In the range of the normal doubles the relative error of the rounding
    is at most [2^-53]. *)
Lemma b64_round_error (q : Q) :
  (pow2 (-1022) <= q)%Q ->
  (Qabs (b64_round q - q) <= q * (1 # 2 ^ 53))%Q.
Proof.
  intros Hq.
  assert (Hpos : (0 < q)%Q).
  { apply Qlt_le_trans with (pow2 (-1022)); [apply pow2_pos|assumption]. }
  destruct (b64_exponent_spec q Hpos) as [_ Hlow].
  rewrite b64_round_eq by lra.
  set (e := b64_exponent q) in *.
  assert (Hlow' : (pow2 (e + 52) <= q)%Q).
  { destruct Hlow as [H|H]; [assumption|]. now rewrite H. }
  clear Hlow.
  pose proof (rheQ_near (q * pow2 (- e))) as [Hm1 Hm2].
  pose proof (pow2_pos e) as Hpe.
  assert (Hhalf : (pow2 e * (1 # 2) <= q * (1 # 2 ^ 53))%Q).
  { apply Qle_trans with (pow2 (e + 52) * (1 # 2 ^ 53))%Q.
    - rewrite pow2_plus. apply Qle_lteq. right.
      transitivity (pow2 e * (pow2 52 * (1 # 2 ^ 53)))%Q; [|ring].
      apply Qmult_comp; [reflexivity|]. vm_compute. reflexivity.
    - apply Qmult_le_compat_r; [assumption|discriminate]. }
  assert (Hq' : (q == q * pow2 (- e) * pow2 e)%Q) by apply sig_scaled.
  set (x := (q * pow2 (- e))%Q) in *.
  set (m := inject_Z (rheQ x)) in *.
  set (P := pow2 e) in *. clearbody P m x.
  assert (HP : (0 <= P)%Q) by now apply Qlt_le_weak.
  assert (H1 : (x * P <= (m + (1 # 2)) * P)%Q)
    by (apply Qmult_le_compat_r; assumption).
  assert (H2 : ((m - (1 # 2)) * P <= x * P)%Q)
    by (apply Qmult_le_compat_r; assumption).
  rewrite <- Hq' in H1, H2.
  assert (Hr1 : ((m + (1 # 2)) * P == m * P + P * (1 # 2))%Q) by ring.
  assert (Hr2 : ((m - (1 # 2)) * P == m * P - P * (1 # 2))%Q) by ring.
  rewrite Hr1 in H1. rewrite Hr2 in H2.
  set (mP := (m * P)%Q) in *. set (hP := (P * (1 # 2))%Q) in *.
  set (bound := (q * (1 # 2 ^ 53))%Q) in *. clearbody mP hP bound.
  apply Qabs_Qle_condition. split; lra.
Qed.

Lemma inject_Z_nonneg (z : Z) : (0 <= z)%Z -> (0 <= inject_Z z)%Q.
Proof.
  intros H. change (inject_Z 0 <= inject_Z z)%Q. now rewrite <- Zle_Qle.
Qed.

Lemma Qmult_le_l_nonneg (a b c : Q) :
  (0 <= c)%Q -> (a <= b)%Q -> (c * a <= c * b)%Q.
Proof.
  intros Hc Hab. rewrite (Qmult_comm c a), (Qmult_comm c b).
  now apply Qmult_le_compat_r.
Qed.

(** Binary64 is monotone. *)
Lemma binary64_monotone : @PyFloatMonotone binary64.
Proof.
  constructor; cbn [fmul fadd binary64].
  - intros n x Hn Hx. apply b64_round_nonneg.
    apply Qmult_le_0_compat; apply b64_round_nonneg;
      [now apply inject_Z_nonneg|assumption].
  - intros n n' x x' Hn Hx Hxx'. apply b64_round_mono.
    apply Qmult_le_compat_nonneg; split.
    + apply b64_round_nonneg. apply inject_Z_nonneg. lia.
    + apply b64_round_mono. rewrite <- Zle_Qle. lia.
    + now apply b64_round_nonneg.
    + now apply b64_round_mono.
  - intros x y Hx Hy. apply b64_round_nonneg.
    pose proof (b64_round_nonneg x Hx). pose proof (b64_round_nonneg y Hy).
    lra.
  - intros x x' y y' Hx Hy. apply b64_round_mono.
    pose proof (b64_round_mono x x' Hx). pose proof (b64_round_mono y y' Hy).
    lra.
Qed.

(** The product of binary64 is accurate. *)
Lemma binary64_accurate : @PyFloatAccurate binary64.
Proof.
  constructor. intros n x Hn Hlow Hhigh. cbn [fmul binary64].
  assert (Htiny : (pow2 (-1022) <= (1 # 2 ^ 1000) * (1 - (1 # 2 ^ 53)))%Q).
  { apply Qle_bool_iff. vm_compute. reflexivity. }
  assert (Hx : (0 < x)%Q).
  { apply Qlt_le_trans with (1 # 2 ^ 1000)%Q; [reflexivity|assumption]. }
  assert (Hrx : (Qabs (b64_round x - x) <= x * (1 # 2 ^ 53))%Q).
  { apply b64_round_error.
    apply Qle_trans with ((1 # 2 ^ 1000) * (1 - (1 # 2 ^ 53)))%Q;
      [assumption|].
    apply Qle_trans with (1 # 2 ^ 1000)%Q; [|assumption].
    apply Qle_bool_iff. vm_compute. reflexivity. }
  apply Qabs_Qle_condition in Hrx. destruct Hrx as [Hrx1 Hrx2].
  set (N := inject_Z n).
  assert (HN : (0 <= N)%Q) by (apply inject_Z_nonneg; lia).
  assert (Hprod : (b64_round N * b64_round x == N * b64_round x)%Q).
  { apply Qmult_comp; [now apply b64_round_Z|reflexivity]. }
  rewrite (b64_round_compat _ _ Hprod).
  destruct (Z.eq_dec n 0) as [Hz|Hnz].
  { assert (Hzero : (N * b64_round x == 0)%Q).
    { unfold N. rewrite Hz. ring. }
    rewrite (b64_round_zero _ Hzero).
    assert (Hzx : (0 - N * x == 0)%Q) by (unfold N; rewrite Hz; ring).
    rewrite Hzx. cbn [Qabs Z.abs Qnum Qden].
    apply Qmult_le_0_compat; [|discriminate].
    apply Qmult_le_0_compat; [assumption|now apply Qlt_le_weak]. }
  assert (HN1 : (1 <= N)%Q).
  { change (inject_Z 1 <= inject_Z n)%Q. rewrite <- Zle_Qle. lia. }
  set (u := (1 # 2 ^ 53)%Q) in *.
  set (rx := b64_round x) in *.
  assert (Hu : (0 <= u)%Q) by discriminate.
  assert (Hu1 : (u <= 1)%Q) by discriminate.
  (* the rounded threshold and the product of the doubles *)
  assert (Hxu : (x * (1 - u) <= rx)%Q).
  { assert (H : (x * (1 - u) == x - x * u)%Q) by ring. rewrite H. lra. }
  assert (Hnorm : (pow2 (-1022) <= N * rx)%Q).
  { apply Qle_trans with ((1 # 2 ^ 1000) * (1 - u))%Q; [assumption|].
    apply Qle_trans with (x * (1 - u))%Q.
    - apply Qmult_le_compat_r; [assumption|discriminate].
    - apply Qle_trans with (1 * rx)%Q; [lra|].
      apply Qmult_le_compat_r; [assumption|].
      apply Qle_trans with (x * (1 - u))%Q; [|assumption].
      apply Qmult_le_0_compat; [now apply Qlt_le_weak|discriminate]. }
  pose proof (b64_round_error _ Hnorm) as Hrp.
  apply Qabs_Qle_condition in Hrp. destruct Hrp as [Hrp1 Hrp2].
  fold u in Hrp1, Hrp2.
  set (E := (N * x)%Q).
  assert (HE : (0 <= E)%Q)
    by (apply Qmult_le_0_compat; [assumption|now apply Qlt_le_weak]).
  set (W := (E * u)%Q).
  assert (HW : (0 <= W)%Q) by now apply Qmult_le_0_compat.
  assert (Hd1 : (- W <= N * rx - E <= W)%Q).
  { assert (Ha : (N * (rx - x) <= N * (x * u))%Q)
      by (apply Qmult_le_l_nonneg; [assumption|lra]).
    assert (Hb : (N * (- (x * u)) <= N * (rx - x))%Q)
      by (apply Qmult_le_l_nonneg; [assumption|lra]).
    assert (H1 : (N * (rx - x) == N * rx - E)%Q) by (unfold E; ring).
    assert (H2 : (N * (x * u) == W)%Q) by (unfold W, E; ring).
    assert (H3 : (N * (- (x * u)) == - W)%Q) by (unfold W, E; ring).
    rewrite H1, H2 in Ha. rewrite H1, H3 in Hb. split; assumption. }
  assert (Hpu : (N * rx * u <= 2 * W)%Q).
  { apply Qle_trans with ((E + W) * u)%Q.
    - apply Qmult_le_compat_r; [lra|assumption].
    - assert (H : ((E + W) * u == W + W * u)%Q) by (unfold W; ring).
      rewrite H.
      assert (H' : (W * u <= W * 1)%Q)
        by (apply Qmult_le_l_nonneg; assumption).
      lra. }
  assert (Hgoal : (E * (1 # 2 ^ 51) == 4 * W)%Q).
  { unfold W. transitivity (E * (4 * u))%Q; [|ring].
    apply Qmult_comp; [reflexivity|]. vm_compute. reflexivity. }
  change (inject_Z n * x)%Q with E. rewrite Hgoal.
  set (P := (N * rx)%Q) in *. set (Pu := (P * u)%Q) in *.
  set (R := b64_round P) in *. clearbody R Pu P W E.
  apply Qabs_Qle_condition. split; lra.
Qed.

End Binary64.

(** ** Token counter *)

Lemma Qfloor_below (x : Q) (z : Z) : (inject_Z z <= x)%Q -> (z <= Qfloor x)%Z.
Proof.
  intros H. rewrite <- (Qfloor_Z z). now apply Qfloor_resp_le.
Qed.

Lemma Qfloor_above (x : Q) (z : Z) : (x < inject_Z z)%Q -> (Qfloor x < z)%Z.
Proof.
  intros H. rewrite Zlt_Qlt.
  apply Qle_lt_trans with x; [apply Qfloor_le|assumption].
Qed.

Lemma exact_float_accurate : @PyFloatAccurate exact_float.
Proof.
  constructor. intros n x Hn Hlow _. cbn [fmul exact_float].
  assert (Hx : (0 <= x)%Q).
  { apply Qle_trans with (1 # 2 ^ 1000)%Q; [discriminate|assumption]. }
  assert (Hzero : (inject_Z n * x - inject_Z n * x == 0)%Q) by ring.
  rewrite Hzero. cbn [Qabs Z.abs Qnum Qden].
  apply Qmult_le_0_compat; [|discriminate].
  apply Qmult_le_0_compat; [|assumption].
  apply inject_Z_nonneg. lia.
Qed.

(** The truncated product of an accurate arithmetic, against the exact
    product. *)
Lemma accurate_product_bounds {F : PyFloat} {A : PyFloatAccurate}
    (m : Z) (r : Q) :
  (0 <= m <= 2 ^ 53)%Z ->
  ((1 # 2 ^ 1000) <= r)%Q -> (r <= inject_Z (2 ^ 900))%Q ->
  (0 <= inject_Z m * r)%Q
  /\ (inject_Z m * r * (1 - (1 # 2 ^ 51)) <= fmul m r)%Q
  /\ (fmul m r <= inject_Z m * r * (1 + (1 # 2 ^ 51)))%Q
  /\ py_int (fmul m r) = Qfloor (fmul m r).
Proof.
  intros Hm Hlow Hhigh.
  pose proof (@fmul_accurate F A m r Hm Hlow Hhigh) as Herr.
  set (exact := (inject_Z m * r)%Q) in *.
  apply Qabs_Qle_condition in Herr. destruct Herr as [Hbelow Habove].
  assert (Hexact : (0 <= exact)%Q).
  { apply Qmult_le_0_compat; [apply inject_Z_nonneg; lia|].
    apply Qle_trans with (1 # 2 ^ 1000)%Q; [discriminate|assumption]. }
  assert (Hlo : (exact * (1 - (1 # 2 ^ 51)) <= fmul m r)%Q).
  { apply Qle_trans with (exact - exact * (1 # 2 ^ 51))%Q;
      [apply Qle_lteq; right; ring|].
    set (err := (exact * (1 # 2 ^ 51))%Q) in *. lra. }
  assert (Hhi : (fmul m r <= exact * (1 + (1 # 2 ^ 51)))%Q).
  { apply Qle_trans with (exact + exact * (1 # 2 ^ 51))%Q;
      [|apply Qle_lteq; right; ring].
    set (err := (exact * (1 # 2 ^ 51))%Q) in *. lra. }
  split; [assumption|]. split; [assumption|]. split; [assumption|].
  apply py_int_nonneg.
  apply Qle_trans with (exact * (1 - (1 # 2 ^ 51)))%Q; [|assumption].
  apply Qmult_le_0_compat; [assumption|discriminate].
Qed.

Lemma accurate_ceiling_near_floor {F : PyFloat} {A : PyFloatAccurate}
    (m : Z) (r : Q) :
  (0 <= m <= 2 ^ 50)%Z -> ((1 # 2 ^ 1000) <= r)%Q -> (r <= 1)%Q ->
  (Qfloor (inject_Z m * r) - 1 <= py_int (fmul m r)
   <= Qfloor (inject_Z m * r) + 1)%Z.
Proof.
  intros Hm Hlow Hone.
  assert (Hhigh : (r <= inject_Z (2 ^ 900))%Q).
  { apply Qle_trans with 1%Q; [assumption|].
    change (inject_Z 1 <= inject_Z (2 ^ 900))%Q. now rewrite <- Zle_Qle. }
  destruct (@accurate_product_bounds F A m r ltac:(lia) Hlow Hhigh)
    as [Hexact [Hlo [Hhi Hint]]].
  rewrite Hint. clear Hint.
  assert (Hsmall : (inject_Z m * r <= inject_Z (2 ^ 50))%Q).
  { apply Qle_trans with (inject_Z m * 1)%Q.
    - apply Qmult_le_compat_nonneg.
      + split; [apply inject_Z_nonneg; lia|apply Qle_refl].
      + split; [|assumption].
        apply Qle_trans with (1 # 2 ^ 1000)%Q; [discriminate|assumption].
    - rewrite Qmult_1_r, <- Zle_Qle. lia. }
  set (exact := (inject_Z m * r)%Q) in *.
  assert (Hhalf : (exact * (1 # 2 ^ 51) <= 1 # 2)%Q).
  { apply Qle_trans with (inject_Z (2 ^ 50) * (1 # 2 ^ 51))%Q;
      [|discriminate].
    apply Qmult_le_compat_r; [assumption|discriminate]. }
  pose proof (Qfloor_le exact) as Hfl.
  pose proof (Qlt_floor exact) as Hfu.
  rewrite inject_Z_plus in Hfu. change (inject_Z 1) with 1%Q in Hfu.
  set (err := (exact * (1 # 2 ^ 51))%Q) in *.
  assert (Hlo' : (exact - err <= fmul m r)%Q).
  { apply Qle_trans with (exact * (1 - (1 # 2 ^ 51)))%Q; [|assumption].
    apply Qle_lteq. right. unfold err. ring. }
  assert (Hhi' : (fmul m r <= exact + err)%Q).
  { apply Qle_trans with (exact * (1 + (1 # 2 ^ 51)))%Q; [assumption|].
    apply Qle_lteq. right. unfold err. ring. }
  clearbody err. clear Hlo Hhi.
  split.
  - apply Qfloor_below. unfold Z.sub. rewrite inject_Z_plus, inject_Z_opp.
    change (inject_Z 1) with 1%Q. lra.
  - assert (Hz : (Qfloor (fmul m r) < Qfloor exact + 2)%Z); [|lia].
    apply Qfloor_above. rewrite inject_Z_plus.
    change (inject_Z 2) with 2%Q. lra.
Qed.

(** C6, as the code has it.  For a counter built by
    [TokenCounter.__init__], whose two settings are the arguments, or
    128000 and 0.7 where an argument is missing or zero: [should_compact]
    answers true exactly when the total reaches the safe ceiling, which
    is the float product [model_max_tokens * compression_threshold]
    truncated toward zero, and it answers true at the ceiling itself.
    With a product as accurate as that of binary64 the ceiling is the
    floor of a number within a relative distance of [2^-51] of the
    exact product, and so within one of the floor of the exact product
    for up to [2^50] tokens and a threshold of at most 1. *)
Theorem should_compact_iff_truncated_product
    {F : PyFloat} {A : PyFloatAccurate}
    (model_max : option Z) (threshold : option Q) (total : Z) :
  let tc := TokenCounter_init model_max threshold in
  let m := model_max_tokens tc in
  let r := compression_threshold tc in
  let ceiling := py_int (fmul m r) in
  let exact := (inject_Z m * r)%Q in
  ((forall z, model_max = Some z -> z <> 0%Z -> m = z)
   /\ (model_max = None \/ model_max = Some 0%Z -> m = 128000%Z)
   /\ (forall q, threshold = Some q -> ~ (q == 0)%Q -> r = q)
   /\ (threshold = None \/ (exists q, threshold = Some q /\ (q == 0)%Q) ->
       r = 0.7%Q))
  /\ safe_max_tokens tc = ceiling
  /\ (should_compact tc total = true <-> (ceiling <= total)%Z)
  /\ should_compact tc ceiling = true
  /\ ((0 <= m <= 2 ^ 53)%Z ->
      ((1 # 2 ^ 1000) <= r)%Q -> (r <= inject_Z (2 ^ 900))%Q ->
      (Qfloor (exact * (1 - (1 # 2 ^ 51))) <= ceiling
       <= Qfloor (exact * (1 + (1 # 2 ^ 51))))%Z)
  /\ ((0 <= m <= 2 ^ 50)%Z -> ((1 # 2 ^ 1000) <= r)%Q -> (r <= 1)%Q ->
      (Qfloor exact - 1 <= ceiling <= Qfloor exact + 1)%Z).
Proof.
  intros tc m r ceiling exact.
  split; [|split; [|split; [|split; [|split]]]].
  - subst m r tc. unfold TokenCounter_init.
    cbn [model_max_tokens compression_threshold].
    split; [|split; [|split]].
    + intros z -> Hz. destruct (Z.eqb_spec z 0); [contradiction|reflexivity].
    + intros [->| ->]; reflexivity.
    + intros q -> Hq. destruct (Qeq_bool q 0) eqn:Hqb; [|reflexivity].
      apply Qeq_bool_iff in Hqb. contradiction.
    + intros [->|[q [-> Hq]]]; [reflexivity|].
      apply Qeq_bool_iff in Hq. now rewrite Hq.
  - reflexivity.
  - unfold should_compact. rewrite Z.leb_le. reflexivity.
  - unfold should_compact. apply Z.leb_le.
    change (safe_max_tokens tc) with ceiling. lia.
  - intros Hm Hlow Hhigh. subst ceiling exact.
    destruct (@accurate_product_bounds F A m r Hm Hlow Hhigh)
      as [_ [Hlo [Hhi Hint]]].
    rewrite Hint. split; now apply Qfloor_resp_le.
  - intros Hm Hlow Hone. subst ceiling exact.
    now apply accurate_ceiling_near_floor.
Qed.

Lemma should_compact_iff_truncated_product_witness :
  should_compact (TokenCounter_init (F := binary64) None None) 89600 = true
  /\ should_compact (TokenCounter_init (F := binary64) None None) 89599
     = false
  /\ (28 <= safe_max_tokens (TokenCounter_init (F := binary64) (Some 100%Z)
                               (Some 0.29%Q)) <= 30)%Z.
Proof.
  destruct (@should_compact_iff_truncated_product binary64
              binary64_accurate None None 89600)
    as [_ [_ [Hiff _]]].
  destruct (@should_compact_iff_truncated_product binary64
              binary64_accurate None None 89599)
    as [_ [_ [Hnot _]]].
  destruct (@should_compact_iff_truncated_product binary64
              binary64_accurate (Some 100%Z) (Some 0.29%Q) 0)
    as [_ [_ [_ [_ [_ Hnear]]]]].
  split; [|split].
  - apply Hiff. vm_compute. discriminate.
  - destruct (should_compact _ 89599) eqn:Hs; [|reflexivity].
    destruct Hnot as [Hnot _]. specialize (Hnot eq_refl).
    vm_compute in Hnot. now contradiction Hnot.
  - apply Hnear.
    + split; vm_compute; discriminate.
    + vm_compute. discriminate.
    + vm_compute. discriminate.
Defined.

(** The rounding of [b64_round] and the product of [binary64] are those
    of the machine, on the default setting and on two others. *)
Example binary64_agrees_with_machine :
  float_value (PrimFloat.div (float_of_small 7) (float_of_small 10))
    = Some (b64_round 0.7%Q)
  /\ float_value (PrimFloat.mul (float_of_small 128000)
                    (PrimFloat.div (float_of_small 7) (float_of_small 10)))
     = Some (fmul (PyFloat := binary64) 128000 0.7%Q)
  /\ float_value (PrimFloat.mul (float_of_small 100)
                    (PrimFloat.div (float_of_small 29) (float_of_small 100)))
     = Some (fmul (PyFloat := binary64) 100 0.29%Q)
  /\ float_value (PrimFloat.add
                    (PrimFloat.div (float_of_small 1) (float_of_small 10))
                    (PrimFloat.div (float_of_small 2) (float_of_small 10)))
     = Some (fadd (PyFloat := binary64) 0.1%Q 0.2%Q).
Proof. vm_compute. repeat split; reflexivity. Qed.

(** In binary64 the default ceiling is 128000 * 0.7 = 89600, and the
    product 100 * 0.29 is rounded to 28.999999999999996, whose integer
    part is 28, where the exact product is 29. *)
Example binary64_ceilings :
  safe_max_tokens (TokenCounter_init (F := binary64) None None) = 89600%Z
  /\ safe_max_tokens (TokenCounter_init (F := binary64) (Some 100%Z)
                        (Some 0.29%Q)) = 28%Z
  /\ safe_max_tokens (TokenCounter_init (F := exact_float) (Some 100%Z)
                        (Some 0.29%Q)) = 29%Z.
Proof. vm_compute. repeat split; reflexivity. Qed.

(** The double nearest to 0.7 is below 0.7: with it for a threshold the
    exact product with 128000 is below 89600, and its floor is 89599,
    where the ceiling of the code is 89600. *)
Example binary64_default_rounds_up :
  let threshold := b64_round 0.7%Q in
  (threshold < 0.7)%Q
  /\ Qfloor (inject_Z 128000 * threshold) = 89599%Z
  /\ safe_max_tokens (TokenCounter_init (F := binary64) (Some 128000%Z)
                        (Some threshold)) = 89600%Z.
Proof. vm_compute. repeat split; reflexivity. Qed.

(** C6 as the specification states it fails in binary64 for a maximum of
    100 tokens and a threshold of 0.29: a total of 28 is reported as due
    for compaction, below the floor of the product, 29. *)
Lemma should_compact_below_floor :
  ~ should_compact_at_floor_of_product binary64.
Proof.
  intros Hclaim.
  destruct (Hclaim (Some 100%Z) (Some 0.29%Q) 28%Z) as [Hdue _]; [lia|].
  assert (Hcode : should_compact
                    (TokenCounter_init (F := binary64) (Some 100%Z)
                       (Some 0.29%Q)) 28 = true)
    by (vm_compute; reflexivity).
  specialize (Hdue Hcode). vm_compute in Hdue. now contradiction Hdue.
Qed.

(** *** The estimate grows with the text *)

Lemma startswith_app (s p t : pystr) :
  startswith s p = true -> startswith (s ++ t) p = true.
Proof.
  revert p. induction s as [|c s IH]; intros [|a p]; simpl; try easy.
  destruct (a =? c)%N; simpl; [apply IH|easy].
Qed.

Lemma startswith_length (s p : pystr) :
  startswith s p = true -> length p <= length s.
Proof.
  revert p. induction s as [|c s IH]; intros [|a p]; simpl; try easy; try lia.
  destruct (a =? c)%N; simpl; [|easy].
  intros Hp. apply IH in Hp. lia.
Qed.

Lemma count_from_short (p s : pystr) (skip : nat) :
  length s < length p -> count_from p s skip = 0.
Proof.
  revert skip. induction s as [|c s IH]; intros skip Hlen; [reflexivity|].
  simpl in Hlen. simpl count_from.
  destruct skip as [|k]; [|apply IH; lia].
  destruct (startswith (c :: s) p) eqn:Hsw.
  - apply startswith_length in Hsw. simpl in Hsw. lia.
  - apply IH; lia.
Qed.

Lemma startswith_straddle (s p t : pystr) :
  startswith s p = false -> startswith (s ++ t) p = true ->
  length s < length p.
Proof.
  revert p. induction s as [|c s IH]; intros [|a p]; simpl; try easy; try lia.
  destruct (a =? c)%N; simpl; [|easy].
  intros H1 H2. specialize (IH _ H1 H2). lia.
Qed.

Lemma count_from_app (p s t : pystr) (skip : nat) :
  count_from p s skip <= count_from p (s ++ t) skip.
Proof.
  revert skip. induction s as [|c s IH]; intros skip; [simpl; lia|].
  rewrite <- app_comm_cons. simpl count_from.
  destruct skip as [|k]; [|apply IH].
  destruct (startswith (c :: s) p) eqn:Hsw.
  - change (c :: s ++ t) with ((c :: s) ++ t).
    rewrite (startswith_app _ _ t Hsw). apply le_n_S, IH.
  - change (c :: s ++ t) with ((c :: s) ++ t).
    destruct (startswith ((c :: s) ++ t) p) eqn:Hsw'; [|apply IH].
    pose proof (startswith_straddle _ _ _ Hsw Hsw') as Hlen. simpl in Hlen.
    rewrite count_from_short by lia. lia.
Qed.

(** Starting the scan later loses at most one occurrence and gains none. *)
Lemma count_from_skip (p s : pystr) :
  forall j k, j <= k <= length p ->
  count_from p s k <= count_from p s j <= S (count_from p s k).
Proof.
  induction s as [|c s IH]; intros j k Hjk; [simpl; lia|].
  destruct j as [|j], k as [|k]; try lia.
  - cbn [count_from]. destruct (startswith (c :: s) p).
    + specialize (IH k (length p - 1)). lia.
    + specialize (IH 0 k). lia.
  - cbn [count_from]. apply IH. lia.
Qed.

Lemma count_from_prepend (p s t : pystr) :
  forall k, k <= length p ->
  count_from p t 0
  <= count_from p (s ++ t) k + match k with O => 0 | S _ => 1 end.
Proof.
  induction s as [|c s IH]; intros k Hk.
  - simpl app. destruct k as [|k]; [lia|].
    pose proof (count_from_skip p t (j := 0) (k := S k)). lia.
  - rewrite <- app_comm_cons. destruct k as [|k].
    + cbn [count_from]. change (c :: s ++ t) with ((c :: s) ++ t).
      destruct (startswith ((c :: s) ++ t) p).
      * specialize (IH (length p - 1)).
        destruct (length p - 1) eqn:Hlen; cbn beta iota in IH; lia.
      * specialize (IH 0). cbn beta iota in IH. lia.
    + cbn [count_from]. specialize (IH k).
      destruct k; cbn beta iota in IH; lia.
Qed.

Lemma count_superstring (a s b p : pystr) :
  count s p <= count (a ++ s ++ b) p.
Proof.
  unfold count. destruct p as [|c p].
  - rewrite !length_app. lia.
  - pose proof (count_from_app (c :: p) s b 0).
    pose proof (count_from_prepend (c :: p) a (s ++ b) (k := 0)).
    simpl in *. lia.
Qed.

Lemma code_density_superstring (a s b : pystr) :
  (code_density s <= code_density (a ++ s ++ b))%Z.
Proof.
  unfold code_density. apply inj_le.
  induction code_indicators as [|p ps IH]; simpl; [lia|].
  pose proof (count_superstring a s b p). lia.
Qed.

Lemma is_code_heavy_superstring (a s b : pystr) :
  is_code_heavy s = true -> is_code_heavy (a ++ s ++ b) = true.
Proof.
  unfold is_code_heavy. rewrite !Z.ltb_lt.
  pose proof (code_density_superstring a s b). lia.
Qed.

Lemma chinese_count_app (s t : pystr) :
  chinese_count (s ++ t) = (chinese_count s + chinese_count t)%Z.
Proof. unfold chinese_count. rewrite filter_app, length_app. lia. Qed.

Lemma chinese_count_bounds (s : pystr) :
  (0 <= chinese_count s <= Z.of_nat (length s))%Z.
Proof.
  unfold chinese_count. pose proof (filter_length_le is_chinese s). lia.
Qed.

Lemma english_chars_app (s t : pystr) :
  english_chars (s ++ t) = (english_chars s + english_chars t)%Z.
Proof. unfold english_chars. rewrite chinese_count_app, length_app. lia. Qed.

Lemma english_chars_nonneg (s : pystr) : (0 <= english_chars s)%Z.
Proof. unfold english_chars. pose proof (chinese_count_bounds s). lia. Qed.

(** Exact arithmetic has the properties asked of the float arithmetic. *)
Lemma exact_float_monotone : @PyFloatMonotone exact_float.
Proof.
  split; simpl.
  - intros n x Hn Hx. apply Qmult_le_0_compat; [|assumption].
    now rewrite <- (Zle_Qle 0).
  - intros n n' x x' [Hn Hnn'] Hx Hxx'.
    apply Qle_trans with (inject_Z n' * x)%Q.
    + apply Qmult_le_compat_r; [|assumption]. now rewrite <- Zle_Qle.
    + rewrite !(Qmult_comm (inject_Z n')).
      apply Qmult_le_compat_r; [assumption|].
      rewrite <- (Zle_Qle 0). lia.
  - intros x y Hx Hy. replace 0%Q with (0 + 0)%Q by reflexivity.
    now apply Qplus_le_compat.
  - intros x x' y y'. apply Qplus_le_compat.
Qed.

Section EstimateProperties.
Context {F : PyFloat} {M : PyFloatMonotone}.

Lemma estimate_tokens_weighted (text : pystr) :
  text <> [] ->
  estimate_tokens text =
  weighted (is_code_heavy text) (chinese_count text) (english_chars text).
Proof. destruct text; [congruence|reflexivity]. Qed.

Lemma py_int_sign (q : Q) : (0 <= q)%Q -> (0 <= py_int q)%Z.
Proof.
  intros Hq. rewrite py_int_nonneg by assumption.
  change 0%Z with (Qfloor 0). now apply Qfloor_resp_le.
Qed.

Lemma weighted_nonneg (h : bool) (c e : Z) :
  (0 <= c)%Z -> (0 <= e)%Z -> (0 <= weighted h c e)%Z.
Proof.
  intros Hc He. unfold weighted.
  destruct h; apply py_int_sign; apply fadd_nonneg; apply fmul_nonneg;
    try assumption; discriminate.
Qed.

Lemma estimate_tokens_nonneg (text : pystr) : (0 <= estimate_tokens text)%Z.
Proof.
  destruct text as [|c text]; [reflexivity|].
  rewrite estimate_tokens_weighted by discriminate.
  apply weighted_nonneg;
    [apply chinese_count_bounds|apply english_chars_nonneg].
Qed.

Lemma weighted_mono (h h' : bool) (c c' e e' : Z) :
  (0 <= c <= c')%Z -> (0 <= e <= e')%Z -> (h = true -> h' = true) ->
  (weighted h c e <= weighted h' c' e')%Z.
Proof.
  intros Hc He Hh. unfold weighted.
  assert (Hsum : forall w w' : Q, (0 <= w)%Q -> (w <= w')%Q ->
            (py_int (fadd (fmul c 1.5%Q) (fmul e w))
             <= py_int (fadd (fmul c' 1.5%Q) (fmul e' w')))%Z).
  { intros w w' Hw Hww'. apply py_int_mono.
    - apply fadd_nonneg; apply fmul_nonneg; try lia; [discriminate|assumption].
    - apply fadd_mono; apply fmul_mono; try assumption;
        try discriminate; apply Qle_refl. }
  destruct h, h'; try (specialize (Hh eq_refl); discriminate);
    apply Hsum; discriminate.
Qed.

Lemma estimate_tokens_counts (t t' : pystr) :
  (chinese_count t <= chinese_count t')%Z ->
  (english_chars t <= english_chars t')%Z ->
  (is_code_heavy t = true -> is_code_heavy t' = true) ->
  (estimate_tokens t <= estimate_tokens t')%Z.
Proof.
  intros Hc He Hh.
  destruct t as [|x t]; [apply estimate_tokens_nonneg|].
  destruct t' as [|x' t'].
  { pose proof (chinese_count_bounds (x :: t)).
    unfold english_chars in He. simpl length in *. lia. }
  rewrite !estimate_tokens_weighted by discriminate.
  pose proof (chinese_count_bounds (x :: t)).
  pose proof (english_chars_nonneg (x :: t)).
  apply weighted_mono; [lia|lia|assumption].
Qed.

(** C9. The estimate never decreases when a text is extended: for every
    text [t] and every extension [a ++ t ++ b] of it, at its end, at its
    start or at both, whatever characters are added,
    [estimate_tokens t <= estimate_tokens (a ++ t ++ b)].  The float
    arithmetic is any one that is monotone, as binary64 is. *)
Theorem estimate_tokens_extension (a t b : pystr) :
  (estimate_tokens t <= estimate_tokens (a ++ t ++ b))%Z.
Proof.
  apply estimate_tokens_counts.
  - rewrite !chinese_count_app.
    pose proof (chinese_count_bounds a). pose proof (chinese_count_bounds b).
    lia.
  - rewrite !english_chars_app.
    pose proof (english_chars_nonneg a). pose proof (english_chars_nonneg b).
    lia.
  - apply is_code_heavy_superstring.
Qed.

(** X2. The same for any two texts compared by their counts: more wide
    characters, more other characters and a weight class that is kept (or
    raised from prose to code) give an estimate at least as large. *)
Theorem estimate_tokens_monotone_in_counts (t t' : pystr) :
  (chinese_count t <= chinese_count t')%Z ->
  (english_chars t <= english_chars t')%Z ->
  (is_code_heavy t = true -> is_code_heavy t' = true) ->
  (estimate_tokens t <= estimate_tokens t')%Z.
Proof. apply estimate_tokens_counts. Qed.

End EstimateProperties.

Lemma estimate_tokens_extension_witness :
  (estimate_tokens (F := exact_float) (U "数据 ok")
   <= estimate_tokens (F := exact_float) (U "x = " ++ U "数据 ok" ++ U "分析"))%Z.
Proof.
  apply (estimate_tokens_extension (M := exact_float_monotone)).
Defined.

Lemma estimate_tokens_monotone_in_counts_witness :
  (estimate_tokens (F := exact_float) (U "数据 ok")
   <= estimate_tokens (F := exact_float) (U "x = 数据分析"))%Z.
Proof.
  apply (estimate_tokens_monotone_in_counts (M := exact_float_monotone));
    vm_compute; congruence.
Defined.

(** ** Compactor *)

Lemma slice_bound_from_end (len k : Z) :
  (1 <= k <= len)%Z -> slice_bound len (- k) = Z.to_nat (len - k).
Proof.
  intros Hk. unfold slice_bound.
  destruct (Z.ltb_spec (- k) 0); [|lia].
  f_equal. lia.
Qed.

Section CompactorProperties.
Context {Uc : PyUnicode}.

Lemma compact_short (self : ConversationCompactor) (history : list turn_dict)
    (ci : option pystr) :
  (Z.of_nat (length history) <= keep_recent self)%Z ->
  compact self history ci = history.
Proof.
  intros Hlen. unfold compact.
  destruct (Z.leb_spec (Z.of_nat (length history)) (keep_recent self)); [reflexivity|lia].
Qed.

Lemma compact_long (self : ConversationCompactor) (history : list turn_dict)
    (ci : option pystr) :
  (1 <= keep_recent self < Z.of_nat (length history))%Z ->
  let cut := length history - Z.to_nat (keep_recent self) in
  compact self history ci =
  summary_turn (_create_summary (_extract_key_information (firstn cut history)) ci)
    :: skipn cut history.
Proof.
  intros Hk cut. unfold compact.
  destruct (Z.leb_spec (Z.of_nat (length history)) (keep_recent self)); [lia|].
  unfold slice_to, slice_from. rewrite slice_bound_from_end by lia.
  replace (Z.to_nat (Z.of_nat (length history) - keep_recent self)) with cut
    by (unfold cut; lia).
  reflexivity.
Qed.

(** X1. With a positive [keep_recent] the compactor does what its
    contract says: a history of at most [keep_recent] turns is returned as it is;
    a longer one becomes the summary turn (marker question, empty code,
    result [{'success': True, 'stdout': ''}]) followed by its last
    [keep_recent] turns, [keep_recent + 1] turns in all. *)
Theorem compact_keeps_recent (self : ConversationCompactor)
    (history : list turn_dict) (ci : option pystr) :
  (1 <= keep_recent self)%Z ->
  ((Z.of_nat (length history) <= keep_recent self)%Z ->
   compact self history ci = history)
  /\ ((keep_recent self < Z.of_nat (length history))%Z ->
      exists summary,
        compact self history ci =
          {| d_question := U "【历史对话摘要】"; d_code := [];
             d_result := success_with_stdout []; d_explanation := summary |}
          :: skipn (length history - Z.to_nat (keep_recent self)) history
        /\ length (skipn (length history - Z.to_nat (keep_recent self)) history)
           = Z.to_nat (keep_recent self)
        /\ Z.of_nat (length (compact self history ci)) = (keep_recent self + 1)%Z).
Proof.
  intros Hk. split; [apply compact_short|].
  intros Hlen. eexists.
  rewrite compact_long by lia. cbv zeta.
  split; [reflexivity|].
  simpl length. rewrite length_skipn. lia.
Qed.

(** With [keep_recent = 0] the slices [history[:-0]] and [history[-0:]]
    are the empty list and the whole history: nothing is compressed and
    every turn is kept behind the summary. *)
Lemma compact_keep_zero (self : ConversationCompactor)
    (history : list turn_dict) (ci : option pystr) :
  keep_recent self = 0%Z -> history <> [] ->
  compact self history ci =
  summary_turn (_create_summary (_extract_key_information []) ci) :: history.
Proof.
  intros Hk Hne. unfold compact. rewrite Hk.
  destruct history as [|t history]; [congruence|].
  reflexivity.
Qed.

End CompactorProperties.

Lemma compact_keeps_recent_witness :
  Z.of_nat (length (compact (Uc := ascii_unicode)
     {| compactor_threshold := 0.7%Q; target_ratio := 0.4%Q; keep_recent := 1 |}
     [turn_a; turn_b] None)) = 2%Z.
Proof.
  destruct (compact_keeps_recent (Uc := ascii_unicode)
     {| compactor_threshold := 0.7%Q; target_ratio := 0.4%Q; keep_recent := 1 |}
     [turn_a; turn_b] None) as [_ Hlong]; [simpl; lia|].
  destruct Hlong as [summary [_ [_ Hlen]]]; [simpl; lia|].
  exact Hlen.
Defined.

(** C5 at [keep_recent = 0]: a history of two turns comes back as three
    turns, the summary turn followed by both of them, where the contract
    promises the summary turn alone (the last zero turns). *)
Theorem compact_keep_zero_keeps_everything :
  let c := {| compactor_threshold := 0.7%Q; target_ratio := 0.4%Q;
              keep_recent := 0 |} in
  compact (Uc := ascii_unicode) c [turn_a; turn_b] None
  = [summary_turn (U "## 历史对话摘要
" ++ [NL] ++ U "*（早期对话未发现关键信息）*"); turn_a; turn_b]
  /\ length (compact (Uc := ascii_unicode) c [turn_a; turn_b] None) = 3
  /\ length (slice_from [turn_a; turn_b] (- keep_recent c)) = 2.
Proof. vm_compute. repeat split; reflexivity. Qed.

(** ** Session history and the budget *)

Section SessionProperties.
Context {F : PyFloat} {Uc : PyUnicode}.

Lemma fold_add_turn_tokens (history : list turn_dict) (acc : Z) :
  fold_left add_turn_tokens history acc
  = (acc + list_sum_Z (map turn_tokens history))%Z.
Proof.
  revert acc. induction history as [|t history IH]; intros acc; simpl.
  - lia.
  - rewrite IH. unfold add_turn_tokens, turn_tokens.
    destruct (success (d_result t)); lia.
Qed.

Lemma turn_to_dict_failed (turn : ConversationTurn) :
  success (execution_result turn) = false ->
  d_result (turn_to_dict true turn) = only_success false.
Proof. intros Hf. unfold turn_to_dict. simpl. now rewrite Hf. Qed.

Lemma turn_to_dict_hides_errors (turn : ConversationTurn) :
  success (d_result (turn_to_dict true turn)) = false ->
  d_result (turn_to_dict true turn) = only_success false.
Proof.
  unfold turn_to_dict. simpl.
  destruct (success (execution_result turn)); [|reflexivity].
  destruct (plot_saved (execution_result turn)) as [[|]|]; discriminate.
Qed.

Lemma turns_to_dicts_hide_errors (ts : list ConversationTurn) (d : turn_dict) :
  In d (_turns_to_dicts ts true) ->
  success (d_result d) = false -> d_result d = only_success false.
Proof.
  unfold _turns_to_dicts. rewrite in_map_iff.
  intros [turn [<- _]]. apply turn_to_dict_hides_errors.
Qed.

Lemma In_slice_from {A} (l : list A) (start : Z) (x : A) :
  In x (slice_from l start) -> In x l.
Proof.
  unfold slice_from. intros Hin.
  rewrite <- (firstn_skipn (slice_bound (Z.of_nat (length l)) start) l).
  apply in_or_app. now right.
Qed.

Lemma recent_turns_hide_errors (self : SessionManager) (n : Z) (d : turn_dict) :
  In d (recent_turns self n) ->
  success (d_result d) = false -> d_result d = only_success false.
Proof.
  unfold recent_turns.
  destruct (n <? _)%Z; intros Hin.
  - apply In_slice_from in Hin. now apply turns_to_dicts_hide_errors with (ts := turns self).
  - now apply turns_to_dicts_hide_errors with (ts := turns self).
Qed.

Lemma compact_hides_errors (c : ConversationCompactor)
    (ts : list ConversationTurn) (ci : option pystr) (d : turn_dict) :
  In d (compact c (_turns_to_dicts ts true) ci) ->
  success (d_result d) = false -> d_result d = only_success false.
Proof.
  unfold compact. destruct (_ <=? _)%Z.
  - apply turns_to_dicts_hide_errors.
  - intros [<-|Hin]; [discriminate|].
    apply In_slice_from in Hin. now apply turns_to_dicts_hide_errors with (ts := ts).
Qed.

(** C10. In the history a session hands out, a turn whose execution
    failed is the dictionary of its question, code and explanation with
    [result = {'success': False}] and nothing else (no error type, error
    text, traceback or stdout): this holds turn by turn for
    [_turns_to_dicts(turns, only_successful=True)], which the budget
    computation receives, and for every turn of [get_recent_history],
    which the generation path receives.  The budget computation sums,
    over any history, question, code and explanation of each turn and the
    stdout only of the turns whose result is successful. *)
Theorem failed_turns_hidden_from_history_and_budget
    (global_ctx : option pystr) (self : SessionManager) (n : Z)
    (auto_compact : bool) (current_question : pystr) :
  (forall i turn, nth_error (turns self) i = Some turn ->
     success (execution_result turn) = false ->
     nth_error (_turns_to_dicts (turns self) true) i =
       Some {| d_question := question turn; d_code := code turn;
               d_result := only_success false;
               d_explanation := explanation turn |})
  /\ (forall d, In d (get_recent_history global_ctx self n auto_compact
                        current_question) ->
        success (d_result d) = false -> d_result d = only_success false)
  /\ (forall history tokens,
        tk_history (calculate_context_tokens global_ctx current_question
                      history tokens)
        = list_sum_Z (map turn_tokens history))
  /\ tk_history (calculate_current_tokens global_ctx self current_question)
     = list_sum_Z (map (fun turn =>
         (estimate_tokens (question turn) + estimate_tokens (code turn)
          + (if success (execution_result turn)
             then estimate_tokens (get_or (stdout (execution_result turn)) [])
             else 0)
          + estimate_tokens (explanation turn))%Z) (turns self)).
Proof.
  split; [|split; [|split]].
  - intros i turn Hnth Hfail. unfold _turns_to_dicts.
    rewrite nth_error_map, Hnth. simpl. f_equal.
    unfold turn_to_dict. now rewrite Hfail.
  - intros d. unfold get_recent_history, compact_history.
    destruct (compactor self) as [c|]; [|apply recent_turns_hide_errors].
    destruct (auto_compact && enable_smart_compression self);
      [|apply recent_turns_hide_errors].
    destruct (should_compact _ _); [|apply recent_turns_hide_errors].
    apply compact_hides_errors.
  - intros history tokens. unfold calculate_context_tokens. simpl.
    rewrite fold_add_turn_tokens. lia.
  - unfold calculate_current_tokens, calculate_context_tokens. simpl.
    rewrite fold_add_turn_tokens. unfold _turns_to_dicts. rewrite map_map.
    simpl. f_equal. apply map_ext. intros turn.
    unfold turn_tokens, turn_to_dict. simpl.
    destruct (success (execution_result turn)) eqn:Hs; [|reflexivity].
    destruct (plot_saved (execution_result turn)) as [[|]|]; reflexivity.
Qed.

End SessionProperties.

(** ** Policy check *)

Lemma queue_size_app (a b : list node) :
  queue_size (a ++ b) = queue_size a + queue_size b.
Proof. unfold queue_size. now rewrite map_app, list_sum_app. Qed.

Lemma queue_size_aliases (names : list alias) :
  queue_size (map AliasNode names) = length names.
Proof.
  unfold queue_size. induction names as [|a names IH]; simpl; [reflexivity|].
  now rewrite IH.
Qed.

Lemma node_size_children (n : node) :
  node_size n = S (queue_size (iter_child_nodes n)).
Proof.
  destruct n; simpl; rewrite ?queue_size_aliases; try reflexivity.
  all: unfold queue_size; simpl; lia.
Qed.

Lemma walk_queue_nil : walk_queue [] = [].
Proof. now simp walk_queue. Qed.

Lemma walk_queue_cons (n : node) (rest : list node) :
  walk_queue (n :: rest) = n :: walk_queue (rest ++ iter_child_nodes n).
Proof. now simp walk_queue. Qed.

(** The walk reaches every node of every tree in the queue. *)
Lemma walk_queue_reaches (bound : nat) :
  forall todo, queue_size todo <= bound ->
  forall n t, In t todo -> occurs_in n t -> In n (walk_queue todo).
Proof.
  induction bound as [|bound IH]; intros todo Hsize n t Hin Hocc.
  - destruct todo as [|x rest]; [contradiction|].
    unfold queue_size in Hsize. simpl in Hsize.
    rewrite node_size_children in Hsize. lia.
  - destruct todo as [|x rest]; [contradiction|].
    rewrite walk_queue_cons.
    assert (Hsmaller : queue_size (rest ++ iter_child_nodes x) <= bound).
    { rewrite queue_size_app. unfold queue_size in Hsize. simpl in Hsize.
      rewrite node_size_children in Hsize. fold (queue_size rest) in Hsize. lia. }
    destruct Hin as [->|Hin].
    + destruct Hocc as [|t c Hc Hocc]; [now left|].
      right. apply IH with (t := c); [assumption| |assumption].
      apply in_or_app. now right.
    + right. apply IH with (t := t); [assumption| |assumption].
      apply in_or_app. now left.
Qed.

Lemma walk_reaches (tree n : node) : occurs_in n tree -> In n (walk tree).
Proof.
  intros Hocc. unfold walk.
  apply walk_queue_reaches with (bound := queue_size [tree]) (t := tree);
    [apply le_n|now left|assumption].
Qed.

Lemma check_nodes_raises (ns : list node) (n : node) (msg : pystr) :
  In n ns -> check_node n = Some msg -> exists msg', check_nodes ns = Some msg'.
Proof.
  induction ns as [|x ns IH]; intros Hin Hn; [contradiction|].
  simpl. destruct (check_node x) as [m|] eqn:Hx; [now exists m|].
  destruct Hin as [->|Hin]; [congruence|]. now apply IH.
Qed.

Lemma startswith_prefix (p s : pystr) : startswith (p ++ s) p = true.
Proof.
  induction p as [|a p IH]; simpl; [reflexivity|].
  now rewrite N.eqb_refl.
Qed.

Lemma is_dunder_shape (middle : pystr) :
  is_dunder (U "__" ++ middle ++ U "__") = true.
Proof.
  unfold is_dunder, endswith. apply andb_true_intro. split.
  - apply startswith_prefix.
  - rewrite !rev_app_distr, <- app_assoc. apply startswith_prefix.
Qed.

Lemma find_is_some {A} (f : A -> bool) (l : list A) (x : A) :
  In x l -> f x = true -> exists y, find f l = Some y /\ f y = true.
Proof.
  intros Hin Hf. destruct (find f l) as [y|] eqn:Hfind.
  - exists y. split; [reflexivity|]. now apply find_some in Hfind.
  - rewrite (find_none _ _ Hfind _ Hin) in Hf. discriminate.
Qed.

(** A text that starts with a literal of the source is not empty. *)
Ltac literal_prefix :=
  let Heq := fresh "Heq" in
  intros Heq;
  first [ discriminate Heq
        | apply app_eq_nil in Heq; destruct Heq as [Heq _];
          vm_compute in Heq; discriminate Heq ].

Lemma check_node_nonempty (n : node) (msg : pystr) :
  check_node n = Some msg -> msg <> [].
Proof.
  destruct n as [names|m names lvl|f args|v attr|id|a|cs];
    cbn [check_node]; try discriminate.
  - destruct (find _ names); [|discriminate]. intros [= <-]. literal_prefix.
  - destruct m as [m|]; [|discriminate].
    destruct (mem m FORBIDDEN_MODULES); [|discriminate]. intros [= <-]. literal_prefix.
  - destruct f; try discriminate.
    destruct (mem id FORBIDDEN_BUILTINS); [|discriminate]. intros [= <-]. literal_prefix.
  - destruct (is_dunder attr); [|discriminate]. intros [= <-]. literal_prefix.
Qed.

Lemma check_nodes_nonempty (ns : list node) (msg : pystr) :
  check_nodes ns = Some msg -> msg <> [].
Proof.
  induction ns as [|n ns IH]; simpl; [discriminate|].
  destruct (check_node n) as [m|] eqn:Hn; [|assumption].
  intros [= <-]. now apply check_node_nonempty in Hn.
Qed.

Section SandboxProperties.
Context {Uc : PyUnicode} {R : PyRuntime}.

(** A node that raises anywhere in the tree makes the check raise. *)
Lemma check_raises_on (code : pystr) (tree n : node) (msg : pystr) :
  ast_parse code = Parsed tree -> occurs_in n tree ->
  check_node n = Some msg ->
  exists msg', _check_code_safety code = Some (CodeSecurityError msg').
Proof.
  intros Hparse Hocc Hn. unfold _check_code_safety. rewrite Hparse.
  destruct (@check_nodes_raises (walk tree) n msg) as [msg' ->];
    [now apply walk_reaches|assumption|].
  now exists msg'.
Qed.

Lemma check_message_nonempty (code msg : pystr) :
  _check_code_safety code = Some (CodeSecurityError msg) -> msg <> [].
Proof.
  unfold _check_code_safety.
  destruct (ast_parse code) as [tree| |e]; try discriminate.
  destruct (check_nodes (walk tree)) as [m|] eqn:Hm; [|discriminate].
  intros [= <-]. now apply check_nodes_nonempty in Hm.
Qed.

(** A violation is reported as a SecurityError outcome and leaves the
    executor as it was: nothing was passed to [exec]. *)
Lemma execute_violation (self : SandboxExecutor) (code msg : pystr) :
  _check_code_safety code = Some (CodeSecurityError msg) ->
  exists shown,
    shown <> []
    /\ execute self code =
       (inl (mk_failure (U "SecurityError") shown (Some shown) [] None None),
        self).
Proof.
  intros Hcheck. unfold execute. rewrite Hcheck.
  eexists. split; [|reflexivity].
  destruct (contains (lower msg) (U "__import__")).
  - discriminate.
  - now apply check_message_nonempty with (code := code).
Qed.

(** Code that passes the policy check and compiles is passed to [exec],
    and [execute] returns what [_execute_with_timeout] returns. *)
Lemma execute_runs (self : SandboxExecutor) (code : pystr) :
  _check_code_safety code = None -> py_compile code = Compiled ->
  execute self code = (inl (fst (_execute_with_timeout self code)),
                       snd (_execute_with_timeout self code)).
Proof.
  intros Hcheck Hcompile. unfold execute. rewrite Hcheck, Hcompile.
  destruct (use_process_isolation self);
    now destruct (_execute_with_timeout self code).
Qed.

Lemma executed_after_run (self : SandboxExecutor) (code : pystr) :
  executed (snd (_execute_with_timeout self code)) = executed self ++ [code].
Proof.
  unfold _execute_with_timeout.
  destruct (ending _) as [| |msg|cls msg]; try reflexivity.
  now destruct (_ || _).
Qed.

(** [execute] raises only what the parser or the compiler raised, other
    than SyntaxError, and nothing was passed to [exec] then. *)
Lemma execute_raises (self self' : SandboxExecutor) (code e : pystr) :
  execute self code = (inr e, self') ->
  self' = self
  /\ (ast_parse code = ParseRaised e
      \/ (_check_code_safety code = None /\ py_compile code = CompileRaised e)).
Proof.
  unfold execute.
  destruct (_check_code_safety code) as [[msg|e']|] eqn:Hcheck.
  - discriminate.
  - intros [= <- <-]. split; [reflexivity|left].
    unfold _check_code_safety in Hcheck.
    destruct (ast_parse code) as [tree| |e'']; try discriminate.
    + now destruct (check_nodes (walk tree)).
    + congruence.
  - destruct (py_compile code) as [|e' tb|e'] eqn:Hcompile.
    + destruct (use_process_isolation self);
        destruct (_execute_with_timeout self code); discriminate.
    + discriminate.
    + intros [= <- <-]. split; [reflexivity|now right].
Qed.

(** C8. Code that parses and holds, anywhere in its tree, an attribute
    access whose name is [__<anything>__] is flagged: the policy check
    raises, [execute] answers with a SecurityError outcome and the code is
    not run. *)
Theorem dunder_attribute_is_violation (self : SandboxExecutor)
    (code : pystr) (tree value : node) (middle : pystr) :
  ast_parse code = Parsed tree ->
  occurs_in (Attribute value (U "__" ++ middle ++ U "__")) tree ->
  (exists msg, _check_code_safety code = Some (CodeSecurityError msg))
  /\ exists r, fst (execute self code) = inl r
     /\ success r = false
     /\ error_type r = Some (U "SecurityError")
     /\ snd (execute self code) = self.
Proof.
  intros Hparse Hocc.
  assert (Hraise : exists msg,
            _check_code_safety code = Some (CodeSecurityError msg)).
  { eapply check_raises_on; [eassumption|eassumption|].
    cbn [check_node]. rewrite is_dunder_shape. reflexivity. }
  split; [assumption|].
  destruct Hraise as [msg Hmsg].
  destruct (execute_violation self code Hmsg) as [shown [_ ->]].
  eexists. repeat split.
Qed.

(** C1, as the code has it.  Code that parses and holds an [import] of a
    module whose name is on [FORBIDDEN_MODULES], or a [from ... import] from
    such a module, is rejected: the policy check raises, [execute] answers
    with a SecurityError outcome, and the executor is unchanged, so the
    code was never passed to [exec].  An import that names no module of
    the list is not a violation in itself. *)
Theorem forbidden_import_is_rejected (self : SandboxExecutor)
    (code : pystr) (tree : node) (names : list alias) (a : alias)
    (module : option pystr) (level : Z) :
  ast_parse code = Parsed tree ->
  (occurs_in (Import names) tree /\ In a names
     /\ mem (name a) FORBIDDEN_MODULES = true)
  \/ (occurs_in (ImportFrom module names level) tree
     /\ exists m, module = Some m /\ mem m FORBIDDEN_MODULES = true) ->
  ((exists msg, _check_code_safety code = Some (CodeSecurityError msg))
   /\ (exists r, fst (execute self code) = inl r
       /\ success r = false
       /\ error_type r = Some (U "SecurityError"))
   /\ snd (execute self code) = self
   /\ executed (snd (execute self code)) = executed self)
  /\ (forall others,
        (forall b, In b others -> mem (name b) FORBIDDEN_MODULES = false) ->
        check_node (Import others) = None)
  /\ (forall m others lvl,
        mem m FORBIDDEN_MODULES = false ->
        check_node (ImportFrom (Some m) others lvl) = None
        /\ check_node (ImportFrom None others lvl) = None).
Proof.
  intros Hparse Himport.
  assert (Hraise : exists msg,
            _check_code_safety code = Some (CodeSecurityError msg)).
  { destruct Himport as [[Hocc [Hin Hmem]]|[Hocc [m [-> Hmem]]]].
    - destruct (find_is_some (fun a => mem (name a) FORBIDDEN_MODULES)
                  names a Hin Hmem) as [y [Hfind _]].
      eapply check_raises_on; [eassumption|eassumption|].
      cbn [check_node]. rewrite Hfind. reflexivity.
    - eapply check_raises_on; [eassumption|eassumption|].
      cbn [check_node]. rewrite Hmem. reflexivity. }
  split; [|split].
  - split; [assumption|].
    destruct Hraise as [msg Hmsg].
    destruct (execute_violation self code Hmsg) as [shown [_ ->]].
    split; [|split; reflexivity].
    eexists. repeat split.
  - intros others Hothers. cbn [check_node].
    destruct (find _ others) as [b|] eqn:Hfind; [|reflexivity].
    apply find_some in Hfind. destruct Hfind as [Hin Hmem].
    rewrite (Hothers b Hin) in Hmem. discriminate.
  - intros m others lvl Hm. cbn [check_node]. now rewrite Hm.
Qed.

(** C4, as the code has it.  A failed outcome carries an error type and an
    error text, and [error_message], when present, repeats the text; a
    policy violation is a failure of type SecurityError whose text is not
    empty; a successful outcome carries no error field.  (The text of an
    exception raised by the executed code is [str(e)], which may be
    empty.) *)
Theorem outcome_error_fields (self : SandboxExecutor) (code : pystr)
    (r : result_dict) :
  fst (execute self code) = inl r ->
  (success r = false ->
     exists k m, error_type r = Some k /\ error r = Some m
                 /\ traceback r <> None
                 /\ (error_message r = None \/ error_message r = Some m))
  /\ (forall msg, _check_code_safety code = Some (CodeSecurityError msg) ->
        success r = false /\ error_type r = Some (U "SecurityError")
        /\ exists m, error r = Some m /\ m <> [])
  /\ (success r = true ->
        error_type r = None /\ error r = None
        /\ error_message r = None /\ traceback r = None).
Proof.
  intros Hr. split; [|split].
  - revert Hr. unfold execute.
    destruct (_check_code_safety code) as [[e|e]|]; simpl.
    { intros [= <-] _. do 2 eexists. repeat split; [discriminate|now right]. }
    { discriminate. }
    destruct (py_compile code) as [|e tb|e]; simpl.
    2:{ intros [= <-] _. do 2 eexists.
        repeat split; [discriminate|now left]. }
    2:{ discriminate. }
    assert (Hrun : success (fst (_execute_with_timeout self code)) = false ->
       exists k m, error_type (fst (_execute_with_timeout self code)) = Some k
         /\ error (fst (_execute_with_timeout self code)) = Some m
         /\ traceback (fst (_execute_with_timeout self code)) <> None
         /\ (error_message (fst (_execute_with_timeout self code)) = None
             \/ error_message (fst (_execute_with_timeout self code)) = Some m)).
    { unfold _execute_with_timeout.
      destruct (ending _) as [| |msg|cls msg]; simpl; try discriminate.
      - intros _. do 2 eexists. repeat split; [discriminate|now left].
      - intros _. do 2 eexists. repeat split; [discriminate|now left].
      - destruct (_ || _); simpl; intros _; do 2 eexists;
          (repeat split; [discriminate|now right]). }
    destruct (use_process_isolation self);
      destruct (_execute_with_timeout self code) as [r0 s0];
      intros [= <-]; exact Hrun.
  - intros msg Hmsg.
    destruct (execute_violation self code Hmsg) as [shown [Hne Hex]].
    rewrite Hex in Hr. injection Hr as <-.
    simpl. repeat split. now exists shown.
  - revert Hr. unfold execute.
    destruct (_check_code_safety code) as [[e|e]|]; simpl;
      [intros [= <-]; discriminate|discriminate|].
    destruct (py_compile code) as [|e tb|e]; simpl;
      [|intros [= <-]; discriminate|discriminate].
    assert (Hrun : success (fst (_execute_with_timeout self code)) = true ->
       error_type (fst (_execute_with_timeout self code)) = None
       /\ error (fst (_execute_with_timeout self code)) = None
       /\ error_message (fst (_execute_with_timeout self code)) = None
       /\ traceback (fst (_execute_with_timeout self code)) = None).
    { unfold _execute_with_timeout.
      destruct (ending _) as [| |msg|cls msg]; simpl; try discriminate.
      - intros _. repeat split.
      - destruct (_ || _); simpl; discriminate. }
    destruct (use_process_isolation self);
      destruct (_execute_with_timeout self code) as [r0 s0];
      intros [= <-]; exact Hrun.
Qed.


(** X3. A call of a builtin on the denylist, anywhere in the tree, is a
    violation too. *)
Theorem forbidden_builtin_call_is_violation (self : SandboxExecutor)
    (code : pystr) (tree : node) (func_name : pystr) (args : list node) :
  ast_parse code = Parsed tree ->
  occurs_in (Call (Name func_name) args) tree ->
  mem func_name FORBIDDEN_BUILTINS = true ->
  (exists msg, _check_code_safety code = Some (CodeSecurityError msg))
  /\ (exists r, fst (execute self code) = inl r
      /\ error_type r = Some (U "SecurityError"))
  /\ snd (execute self code) = self.
Proof.
  intros Hparse Hocc Hmem.
  assert (Hraise : exists msg,
            _check_code_safety code = Some (CodeSecurityError msg)).
  { eapply check_raises_on; [eassumption|eassumption|].
    cbn [check_node]. rewrite Hmem. reflexivity. }
  split; [assumption|].
  destruct Hraise as [msg Hmsg].
  destruct (execute_violation self code Hmsg) as [shown [_ ->]].
  split; [|reflexivity]. eexists. split; reflexivity.
Qed.

(** X4. Code that does not parse is not a violation: the policy check lets it
    through, and the syntax check of [execute] reports it as a
    SyntaxError, with the text and traceback of the platform and without
    running anything. *)
Theorem syntax_error_is_not_a_violation (self : SandboxExecutor)
    (code e tb : pystr) :
  ast_parse code = ParseSyntaxError ->
  py_compile code = CompileSyntaxError e tb ->
  _check_code_safety code = None
  /\ execute self code =
     (inl {| success := false; stdout := None; stderr := None;
             error_type := Some (U "SyntaxError"); error := Some e;
             error_message := None; traceback := Some tb;
             plot_saved := None; plot_path := None |}, self).
Proof.
  intros Hparse Hcompile.
  assert (Hcheck : _check_code_safety code = None).
  { unfold _check_code_safety. now rewrite Hparse. }
  split; [assumption|].
  unfold execute. now rewrite Hcheck, Hcompile.
Qed.

End SandboxProperties.

(** *** The sandbox on the concrete platform *)

(** Evaluation of the walk on a concrete tree. *)
Ltac run_walk :=
  unfold walk;
  repeat (rewrite walk_queue_cons; unfold ctx_node;
          cbn [iter_child_nodes app map]);
  rewrite walk_queue_nil.

Lemma demo_check_import_json (sig : bool) :
  _check_code_safety (R := demo_runtime sig) (U "import json") = None.
Proof.
  unfold _check_code_safety.
  change (ast_parse (U "import json"))
    with (Parsed (Other [Import [plain "json"]])).
  run_walk. reflexivity.
Qed.

Lemma demo_check_raise (sig : bool) :
  _check_code_safety (R := demo_runtime sig) (U "raise ValueError()") = None.
Proof.
  unfold _check_code_safety.
  change (ast_parse (U "raise ValueError()"))
    with (Parsed (Other [Other [Call (Name (U "ValueError")) []]])).
  run_walk. reflexivity.
Qed.




(** [import json] passes the policy check and reaches [exec], where it
    fails for want of [__import__]. *)
Example import_json_is_executed :
  let self := demo_executor true in
  _check_code_safety (R := demo_runtime true) (U "import json") = None
  /\ executed (snd (execute (Uc := ascii_unicode) self (U "import json")))
     = [U "import json"]
  /\ exists r,
       fst (execute (Uc := ascii_unicode) self (U "import json")) = inl r
       /\ error_type r = Some (U "ImportError").
Proof.
  cbv zeta. split; [apply demo_check_import_json|].
  rewrite execute_runs; [|apply demo_check_import_json|reflexivity].
  split; [reflexivity|]. eexists. split; reflexivity.
Qed.

(** C1 as the specification states it fails on [import json]. *)
Lemma not_every_import_is_rejected : ~ policy_rejects_every_import.
Proof.
  intros Hclaim.
  destruct (Hclaim ascii_unicode (demo_runtime true) (demo_executor true)
              (U "import json") (Other [Import [plain "json"]])
              (Import [plain "json"])) as [[msg Hmsg] _].
  - reflexivity.
  - apply occurs_below with (c := Import [plain "json"]);
      [now left|apply occurs_here].
  - reflexivity.
  - rewrite demo_check_import_json in Hmsg. discriminate.
Qed.

Lemma forbidden_import_is_rejected_witness :
  let self := demo_executor true in
  (exists r, fst (execute (Uc := ascii_unicode) self (U "import os")) = inl r
             /\ error_type r = Some (U "SecurityError"))
  /\ executed (snd (execute (Uc := ascii_unicode) self (U "import os"))) = [].
Proof.
  cbv zeta.
  destruct (@forbidden_import_is_rejected ascii_unicode (demo_runtime true)
              (demo_executor true) (U "import os")
              (Other [Import [plain "os"]]) [plain "os"] (plain "os") None 0)
    as [[_ [[r [Hr [_ Htype]]] [_ Hexec]]] _].
  - reflexivity.
  - left. split; [|split].
    + apply occurs_below with (c := Import [plain "os"]);
        [now left|apply occurs_here].
    + now left.
    + reflexivity.
  - split; [now exists r|exact Hexec].
Defined.

Lemma dunder_attribute_is_violation_witness :
  let self := demo_executor true in
  (exists r,
     fst (execute (Uc := ascii_unicode) self (U "x = df.__class__")) = inl r
     /\ error_type r = Some (U "SecurityError"))
  /\ snd (execute (Uc := ascii_unicode) self (U "x = df.__class__")) = self.
Proof.
  cbv zeta.
  destruct (@dunder_attribute_is_violation ascii_unicode (demo_runtime true)
              (demo_executor true) (U "x = df.__class__")
              (Other [Other [Name (U "x");
                             Attribute (Name (U "df")) (U "__class__")]])
              (Name (U "df")) (U "class"))
    as [_ [r [Hr [_ [Htype Hself]]]]].
  - reflexivity.
  - apply occurs_below with
      (c := Other [Name (U "x"); Attribute (Name (U "df")) (U "__class__")]);
      [now left|].
    apply occurs_below with (c := Attribute (Name (U "df")) (U "__class__"));
      [right; now left|apply occurs_here].
  - split; [now exists r|exact Hself].
Defined.

Lemma forbidden_builtin_call_is_violation_witness :
  let self := demo_executor true in
  (exists r, fst (execute (Uc := ascii_unicode) self (U "eval('1')")) = inl r
             /\ error_type r = Some (U "SecurityError"))
  /\ snd (execute (Uc := ascii_unicode) self (U "eval('1')")) = self.
Proof.
  cbv zeta.
  destruct (@forbidden_builtin_call_is_violation ascii_unicode
              (demo_runtime true) (demo_executor true) (U "eval('1')")
              (Other [Other [Call (Name (U "eval")) [Other []]]])
              (U "eval") [Other []]) as [_ Hout].
  - reflexivity.
  - apply occurs_below with (c := Other [Call (Name (U "eval")) [Other []]]);
      [now left|].
    apply occurs_below with (c := Call (Name (U "eval")) [Other []]);
      [now left|apply occurs_here].
  - reflexivity.
  - exact Hout.
Defined.

Lemma syntax_error_is_not_a_violation_witness :
  (exists r,
     fst (execute (Uc := ascii_unicode) (demo_executor true) (U "print("))
     = inl r /\ error_type r = Some (U "SyntaxError"))
  /\ snd (execute (Uc := ascii_unicode) (demo_executor true) (U "print("))
     = demo_executor true.
Proof.
  destruct (@syntax_error_is_not_a_violation ascii_unicode (demo_runtime true)
              (demo_executor true) (U "print(")
              (U "invalid syntax (<sandbox>, line 1)")
              (U "Traceback (most recent call last): SyntaxError"))
    as [_ Hout].
  - reflexivity.
  - reflexivity.
  - rewrite Hout. split; [|reflexivity]. eexists. split; reflexivity.
Defined.

(** [raise ValueError()] fails with an empty error text. *)
Example empty_error_text :
  fst (execute (Uc := ascii_unicode) (demo_executor true)
         (U "raise ValueError()"))
  = inl {| success := false; stdout := Some []; stderr := Some [];
           error_type := Some (U "ValueError"); error := Some [];
           error_message := Some [];
           traceback :=
             Some (U "Traceback (most recent call last): ValueError");
           plot_saved := None; plot_path := None |}.
Proof.
  rewrite execute_runs; [reflexivity|apply demo_check_raise|reflexivity].
Qed.

(** C4 as the specification states it fails on [raise ValueError()]. *)
Lemma outcome_invariant_fails : ~ every_outcome_satisfies_invariant.
Proof.
  intros Hclaim.
  destruct (Hclaim ascii_unicode (demo_runtime true) (demo_executor true)
              (U "raise ValueError()") _ empty_error_text) as [Hfail _].
  destruct (Hfail eq_refl) as [_ [m [Hm Hne]]].
  injection Hm as <-. now apply Hne.
Qed.

Lemma outcome_error_fields_witness :
  exists r,
    fst (execute (Uc := ascii_unicode) (demo_executor true)
           (U "raise ValueError()")) = inl r
    /\ error_type r = Some (U "ValueError")
    /\ error r = Some []
    /\ (error_message r = None \/ error_message r = Some []).
Proof.
  eexists. split; [exact empty_error_text|].
  destruct (@outcome_error_fields ascii_unicode (demo_runtime true)
              (demo_executor true) (U "raise ValueError()") _
              empty_error_text) as [Hfail _].
  destruct (Hfail eq_refl) as [k [m [Hk [Hm [_ Hmsg]]]]].
  injection Hm as <-.
  split; [reflexivity|split; [reflexivity|exact Hmsg]].
Defined.

(** A text with a null byte makes the parser raise ValueError: the
    exception leaves the policy check and [execute]. *)
Example null_byte_leaves_execute :
  _check_code_safety (R := demo_runtime true) null_byte_code
    = Some (OtherException null_byte_message)
  /\ execute (Uc := ascii_unicode) (demo_executor true) null_byte_code
     = (inr null_byte_message, demo_executor true).
Proof. split; reflexivity. Qed.





(** ** Retry loop *)

Section WorkflowProperties.
Context {Uc : PyUnicode} {R : PyRuntime} {L : LLMServices}.
Variable max_retries : Z.
Variable question : pystr.
Variable info : df_info.
Variable history : list turn_dict.
Variable plot : pystr.

Local Abbreviation body :=
  (attempt_body max_retries question info history plot).
Local Abbreviation loop :=
  (retry_loop max_retries question info history plot).
Local Abbreviation announce := (announce max_retries).



(** An attempt whose code runs successfully returns it with the index of
    the attempt. *)
Lemma body_success (attempt : nat) (st : loop_state) (w : World)
    (code : pystr) (l : llm_state) (r : result_dict) (sb : SandboxExecutor) :
  generate_code question info history (error_feedback st) plot (llm w)
    = (inl code, l) ->
  execute (sandbox w) code = (inl r, sb) ->
  success r = true ->
  body attempt st w =
  (Return (Some code) (Some r) (Z.of_nat attempt),
   {| llm := l; sandbox := sb;
      trace := trace w ++ [announce attempt; CallGenerate attempt;
                           ShowCode code; ShowExecuting;
                           CallExecute attempt code] |}).
Proof.
  intros Hgen Hexec Hok. unfold attempt_body.
  cbn [emit llm sandbox trace]. rewrite Hgen.
  unfold run_execute, emit. cbn [llm sandbox trace]. rewrite Hexec, Hok.
  cbn [llm sandbox trace]. rewrite <- !app_assoc. reflexivity.
Qed.

(** An attempt whose execution raises: the except clause finds the new
    code in [last_code] and the result of an earlier attempt, if any, in
    [last_result]. *)
Lemma body_execution_raises (attempt : nat) (st : loop_state) (w : World)
    (code : pystr) (l : llm_state) (e : pystr) (sb : SandboxExecutor) :
  generate_code question info history (error_feedback st) plot (llm w)
    = (inl code, l) ->
  execute (sandbox w) code = (inr e, sb) ->
  let st' := {| error_feedback := error_feedback st;
                last_code := Some code;
                last_result := last_result st |} in
  let shown := trace w ++ [announce attempt; CallGenerate attempt;
                           ShowCode code; ShowExecuting;
                           CallExecute attempt code] in
  body attempt st w =
  if (Z.of_nat attempt <? max_retries - 1)%Z
  then (Continue st',
        {| llm := l; sandbox := sb;
           trace := shown ++ [ShowError e (U "Exception")] |})
  else (Return (Some code) (last_result st) (Z.of_nat attempt),
        {| llm := l; sandbox := sb; trace := shown |}).
Proof.
  intros Hgen Hexec. cbv zeta. unfold attempt_body.
  cbn [emit llm sandbox trace]. rewrite Hgen.
  unfold run_execute, emit. cbn [llm sandbox trace]. rewrite Hexec.
  unfold on_exception, emit.
  cbn [llm sandbox trace error_feedback last_code last_result].
  destruct (_ <? _)%Z; rewrite <- !app_assoc; reflexivity.
Qed.

(** The state of the loop after a failed execution of [code]. *)
Lemma body_later_failure (n : nat) (st : loop_state) (w : World)
    (code : pystr) (l : llm_state) (r : result_dict) (sb : SandboxExecutor) :
  generate_code question info history (error_feedback st) plot (llm w)
    = (inl code, l) ->
  execute (sandbox w) code = (inl r, sb) ->
  success r = false ->
  body (S n) st w =
  (Continue {| error_feedback := Some (feedback_of code r);
               last_code := Some code; last_result := Some r |},
   {| llm := l; sandbox := sb;
      trace := trace w ++ [announce (S n); CallGenerate (S n);
                           ShowCode code; ShowExecuting;
                           CallExecute (S n) code;
                           ShowError (get_or (error r) (U "Unknown error"))
                                     (get_or (error_type r) (U "Error"))] |}).
Proof.
  intros Hgen Hexec Hfail. unfold attempt_body.
  cbn [emit llm sandbox trace]. rewrite Hgen.
  unfold run_execute, emit. cbn [llm sandbox trace]. rewrite Hexec, Hfail.
  cbn [llm sandbox trace error_feedback last_code last_result].
  rewrite <- !app_assoc. reflexivity.
Qed.



Lemma thinking_calls_app (a b : list event) :
  thinking_calls (a ++ b) = thinking_calls a + thinking_calls b.
Proof. unfold thinking_calls. now rewrite filter_app, length_app. Qed.





(** *** The budget of attempts *)

Lemma generation_calls_app (a b : list event) :
  generation_calls (a ++ b) = generation_calls a + generation_calls b.
Proof. unfold generation_calls. now rewrite filter_app, length_app. Qed.

(** Every iteration calls the generation service exactly once. *)
Lemma body_one_generation (attempt : nat) (st : loop_state) (w : World) :
  generation_calls (trace (snd (body attempt st w)))
  = S (generation_calls (trace w)).
Proof.
  assert (Hann : generation_calls [announce attempt] = 0)
    by (destruct attempt; reflexivity).
  unfold attempt_body. cbn [emit llm sandbox trace].
  destruct (generate_code _ _ _ _ _ _) as [[code|e] l].
  - unfold run_execute, emit. cbn [llm sandbox trace].
    destruct (execute (sandbox w) code) as [[r|e] sb].
    2:{ unfold on_exception, emit. cbn [llm sandbox trace].
        destruct (_ <? _)%Z; cbn [snd trace];
          rewrite !generation_calls_app, Hann; cbn; lia. }
    destruct (success r); cbn [snd trace llm sandbox].
    { rewrite !generation_calls_app, Hann. cbn. lia. }
    destruct attempt as [|n]; cbn [snd trace].
    2: { rewrite !generation_calls_app, Hann. cbn. lia. }
    unfold deep_analysis. cbn [emit llm sandbox trace].
    destruct (analyze_error_with_thinking _ _ _ _ _ _) as [[t|e] l'].
    + destruct (th_success t), (th_code t) as [[|c cs]|];
        cbn [snd trace]; try (rewrite !generation_calls_app, Hann; cbn; lia).
      unfold run_execute, emit. cbn [llm sandbox trace].
      destruct (execute sb (c :: cs)) as [[r'|e'] sb'].
      * destruct (success r'); cbn [snd trace];
          rewrite !generation_calls_app, Hann; cbn; lia.
      * unfold on_exception, emit. cbn [llm sandbox trace].
        destruct (_ <? _)%Z; cbn [snd trace];
          rewrite !generation_calls_app, Hann; cbn; lia.
    + unfold on_exception, emit. cbn [llm sandbox trace].
      destruct (_ <? _)%Z; cbn [snd trace];
        rewrite !generation_calls_app, Hann; cbn; lia.
  - unfold on_exception, emit. cbn [llm sandbox trace].
    destruct (_ <? _)%Z; cbn [snd trace];
      rewrite !generation_calls_app, Hann; cbn; lia.
Qed.

(** An iteration that returns, returns its own index. *)
Lemma body_returns_index (attempt : nat) (st : loop_state) (w w' : World)
    (c : option pystr) (r : option result_dict) (n : Z) :
  body attempt st w = (Return c r n, w') -> n = Z.of_nat attempt.
Proof.
  unfold attempt_body. cbn [emit llm sandbox trace].
  destruct (generate_code _ _ _ _ _ _) as [[code|e] l].
  - unfold run_execute, emit. cbn [llm sandbox trace].
    destruct (execute (sandbox w) code) as [[r0|e] sb].
    2:{ unfold on_exception. destruct (_ <? _)%Z;
          [discriminate|now intros [= _ _ <- _]]. }
    destruct (success r0); [now intros [= _ _ <- _]|].
    destruct attempt as [|k]; [|discriminate].
    unfold deep_analysis. cbn [emit llm sandbox trace].
    destruct (analyze_error_with_thinking _ _ _ _ _ _) as [[t|e] l'].
    + destruct (th_success t), (th_code t) as [[|c0 cs]|]; try discriminate.
      unfold run_execute, emit. cbn [llm sandbox trace].
      destruct (execute sb (c0 :: cs)) as [[r'|e'] sb'].
      * destruct (success r'); [now intros [= _ _ <- _]|discriminate].
      * unfold on_exception. destruct (_ <? _)%Z;
          [discriminate|now intros [= _ _ <- _]].
    + unfold on_exception. destruct (_ <? _)%Z;
        [discriminate|now intros [= _ _ <- _]].
  - unfold on_exception. destruct (_ <? _)%Z;
      [discriminate|now intros [= _ _ <- _]].
Qed.

Lemma loop_budget (attempts : list nat) :
  forall st w,
    let run := loop attempts st w in
    (exists a, In a attempts /\ snd (fst run) = Z.of_nat a
               /\ generation_calls (trace (snd run))
                  <= generation_calls (trace w) + length attempts)
    \/ (snd (fst run) = max_retries
        /\ generation_calls (trace (snd run))
           = generation_calls (trace w) + length attempts).
Proof.
  induction attempts as [|a attempts IH]; intros st w; cbv zeta.
  - right. cbn. split; [reflexivity|lia].
  - cbn [retry_loop].
    pose proof (body_one_generation a st w) as Hgen.
    destruct (body a st w) as [[c r n|st'] w'] eqn:Hbody; cbn [snd] in Hgen.
    + left. exists a. cbn [fst snd length].
      split; [now left|]. split; [|lia].
      now apply body_returns_index in Hbody.
    + destruct (IH st' w') as [[b [Hin [Hn Hcalls]]]|[Hn Hcalls]].
      * left. exists b. cbn [length]. split; [now right|]. split; [assumption|lia].
      * right. cbn [length]. split; [assumption|lia].
Qed.

(** X5. The loop issues at most [max_retries] generation calls; the
    count it returns lies between 0 and [max_retries], and it is
    [max_retries] only when every attempt was made and none returned. *)
Theorem retry_budget (w : World) :
  (0 <= max_retries)%Z ->
  let run := _generate_and_execute_with_retry max_retries question info
               history plot w in
  let retries := snd (fst run) in
  (0 <= retries <= max_retries)%Z
  /\ generation_calls (trace (snd run))
     <= generation_calls (trace w) + Z.to_nat max_retries
  /\ (retries = max_retries ->
      generation_calls (trace (snd run))
      = generation_calls (trace w) + Z.to_nat max_retries).
Proof.
  intros Hmax run retries. subst retries run.
  unfold _generate_and_execute_with_retry.
  destruct (loop_budget (seq 0 (Z.to_nat max_retries)) initial_loop_state w)
    as [[a [Hin [Hn Hcalls]]]|[Hn Hcalls]];
    rewrite length_seq in Hcalls.
  - apply in_seq in Hin. rewrite Hn.
    split; [lia|]. split; [assumption|]. intros Habs. lia.
  - rewrite Hn. split; [lia|]. split; [lia|]. intros _. assumption.
Qed.

End WorkflowProperties.

(** *** The retry loop on the concrete platform *)





Lemma retry_budget_witness :
  let run := @_generate_and_execute_with_retry ascii_unicode
               (demo_runtime true) flaky_llm 3
               (U "q") tt [] (U "plot.png") (demo_world flaky_llm 0%nat) in
  generation_calls (trace (snd run)) <= 3.
Proof.
  cbv zeta.
  destruct (@retry_budget ascii_unicode (demo_runtime true) flaky_llm 3%Z
              (U "q") tt [] (U "plot.png") (demo_world flaky_llm 0%nat))
    as [_ [Hcalls _]]; [lia|].
  exact Hcalls.
Defined.

(** * Further properties of the code *)

(** ** Policy check: what it accepts *)

Lemma occurs_in_trans (a b c : node) :
  occurs_in a b -> occurs_in b c -> occurs_in a c.
Proof.
  intros Hab Hbc. induction Hbc as [|t c' Hc' Hbc IH]; [assumption|].
  apply occurs_below with (c := c'); assumption.
Qed.

(** The walk yields nodes of the trees in the queue only. *)
Lemma walk_queue_sound (bound : nat) :
  forall todo, queue_size todo <= bound ->
  forall n, In n (walk_queue todo) -> exists t, In t todo /\ occurs_in n t.
Proof.
  induction bound as [|bound IH]; intros todo Hsize n Hin.
  - destruct todo as [|x rest].
    + rewrite walk_queue_nil in Hin. contradiction.
    + unfold queue_size in Hsize. simpl in Hsize.
      rewrite node_size_children in Hsize. lia.
  - destruct todo as [|x rest].
    + rewrite walk_queue_nil in Hin. contradiction.
    + rewrite walk_queue_cons in Hin.
      destruct Hin as [<-|Hin].
      * exists x. split; [now left|constructor].
      * assert (Hsmaller : queue_size (rest ++ iter_child_nodes x) <= bound).
        { rewrite queue_size_app. unfold queue_size in Hsize. simpl in Hsize.
          rewrite node_size_children in Hsize. fold (queue_size rest) in Hsize.
          lia. }
        destruct (IH _ Hsmaller _ Hin) as [t [Ht Hocc]].
        apply in_app_or in Ht. destruct Ht as [Ht|Ht].
        -- exists t. split; [now right|assumption].
        -- exists x. split; [now left|].
           apply occurs_below with (c := t); assumption.
Qed.

Lemma walk_sound (tree n : node) : In n (walk tree) -> occurs_in n tree.
Proof.
  intros Hin. unfold walk in Hin.
  destruct (@walk_queue_sound (queue_size [tree]) [tree] (le_n _) n Hin)
    as [t [[<-|[]] Hocc]].
  assumption.
Qed.

Lemma check_nodes_none (ns : list node) :
  check_nodes ns = None <-> forall n, In n ns -> check_node n = None.
Proof.
  induction ns as [|x ns IH]; simpl.
  - split; [intros _ n []|reflexivity].
  - destruct (check_node x) as [m|] eqn:Hx.
    + split; [discriminate|]. intros H. rewrite <- Hx. apply H. now left.
    + rewrite IH. split.
      * intros H n [<-|Hin]; [assumption|now apply H].
      * intros H n Hin. apply H. now right.
Qed.

Lemma check_nodes_some (ns : list node) (msg : pystr) :
  check_nodes ns = Some msg -> exists n, In n ns /\ check_node n = Some msg.
Proof.
  induction ns as [|x ns IH]; simpl; [discriminate|].
  destruct (check_node x) as [m|] eqn:Hx.
  - intros [= <-]. exists x. split; [now left|assumption].
  - intros H. destruct (IH H) as [n [Hin Hn]]. exists n. split; [now right|assumption].
Qed.

Section PolicyProperties.
Context {Uc : PyUnicode} {R : PyRuntime}.

(** X6. The policy check accepts a program that parses exactly when no node of
    its tree raises; when it raises, the message is that of a node of the
    tree; and a program that [execute] hands to [exec] has no such node. *)
Theorem policy_check_characterisation (self : SandboxExecutor)
    (code : pystr) (tree : node) :
  ast_parse code = Parsed tree ->
  (_check_code_safety code = None
     <-> forall n, occurs_in n tree -> check_node n = None)
  /\ (forall msg, _check_code_safety code = Some (CodeSecurityError msg) ->
        exists n, occurs_in n tree /\ check_node n = Some msg)
  /\ (executed (snd (execute self code)) <> executed self ->
      forall n, occurs_in n tree -> check_node n = None).
Proof.
  intros Hparse.
  assert (Hnone : _check_code_safety code = None
                  <-> forall n, occurs_in n tree -> check_node n = None).
  { unfold _check_code_safety. rewrite Hparse.
    assert (Hwalk : check_nodes (walk tree) = None
                    <-> forall n, occurs_in n tree -> check_node n = None).
    { rewrite check_nodes_none. split.
      - intros H n Hocc. apply H. now apply walk_reaches.
      - intros H n Hin. apply H. now apply walk_sound. }
    rewrite <- Hwalk.
    destruct (check_nodes (walk tree)); split; congruence. }
  split; [exact Hnone|]. split.
  - unfold _check_code_safety. rewrite Hparse. intros msg Hmsg.
    destruct (check_nodes (walk tree)) as [m|] eqn:Hm; [|discriminate].
    injection Hmsg as ->.
    destruct (check_nodes_some _ Hm) as [n [Hin Hn]].
    exists n. split; [now apply walk_sound|assumption].
  - intros Hran. apply Hnone.
    destruct (_check_code_safety code) as [[msg|e]|] eqn:Hcheck;
      [| |reflexivity];
      exfalso; apply Hran; unfold execute; now rewrite Hcheck.
Qed.

End PolicyProperties.

Lemma policy_check_characterisation_witness :
  exists n, occurs_in n (Other [Import [plain "os"]])
            /\ check_node n = Some (U "禁止导入模块: os").
Proof.
  destruct (@policy_check_characterisation ascii_unicode (demo_runtime true)
              (demo_executor true) (U "import os")
              (Other [Import [plain "os"]]) eq_refl) as [_ [Hmsg _]].
  apply Hmsg. vm_compute. reflexivity.
Defined.

(** ** The execution environment *)

Lemma str_eqb_refl (s : pystr) : str_eqb s s = true.
Proof. induction s as [|a s IH]; simpl; [reflexivity|]. now rewrite N.eqb_refl. Qed.

Lemma str_eqb_eq (s t : pystr) : str_eqb s t = true <-> s = t.
Proof.
  split; [|intros ->; apply str_eqb_refl].
  revert t. induction s as [|a s IH]; intros [|b t]; simpl; try discriminate.
  - reflexivity.
  - intros H. apply andb_prop in H. destruct H as [Hab Hst].
    apply N.eqb_eq in Hab. apply IH in Hst. now subst.
Qed.

Lemma str_eqb_neq (s t : pystr) : str_eqb s t = false <-> s <> t.
Proof.
  rewrite <- str_eqb_eq. destruct (str_eqb s t); split; congruence.
Qed.

Lemma mem_In (s : pystr) (l : list pystr) : mem s l = true <-> In s l.
Proof.
  unfold mem. rewrite existsb_exists. split.
  - intros [x [Hin Heq]]. apply str_eqb_eq in Heq. now subst.
  - intros Hin. exists s. split; [assumption|apply str_eqb_refl].
Qed.

Lemma dict_get_set {V} (d : pydict V) (k k' : pystr) (v : V) :
  dict_get (dict_set d k v) k' = if str_eqb k k' then Some v else dict_get d k'.
Proof.
  induction d as [|[k0 v0] d IH]; simpl.
  - reflexivity.
  - destruct (str_eqb k0 k) eqn:H0; simpl.
    + apply str_eqb_eq in H0. subst k0.
      destruct (str_eqb k k'); reflexivity.
    + destruct (str_eqb k0 k') eqn:H0'.
      * apply str_eqb_eq in H0'. subst k0.
        assert (Hk : str_eqb k k' = false).
        { apply str_eqb_neq. apply str_eqb_neq in H0. congruence. }
        now rewrite Hk.
      * exact IH.
Qed.

Lemma str_eqb_sym (s t : pystr) : str_eqb s t = str_eqb t s.
Proof.
  destruct (str_eqb s t) eqn:H.
  - apply str_eqb_eq in H. subst. now rewrite str_eqb_refl.
  - symmetry. apply str_eqb_neq. apply str_eqb_neq in H. congruence.
Qed.

Section EnvironmentProperties.
Variable pyobject : Type.
Variable hasattr_builtins : pystr -> bool.
Variable builtin : pystr -> pyobject.
Variables pd np plt sns datetime timedelta math : pyobject.

Lemma dict_get_allowed (names : list pystr) (d : pydict pyobject) (k : pystr) :
  dict_get (fold_left (fun d name => if hasattr_builtins name
                                     then dict_set d name (builtin name) else d)
                      names d) k
  = if mem k names && hasattr_builtins k then Some (builtin k) else dict_get d k.
Proof.
  revert d. induction names as [|n names IH]; intros d; [reflexivity|].
  cbn [fold_left]. rewrite IH. unfold mem. cbn [existsb]. fold (mem k names).
  destruct (mem k names && hasattr_builtins k) eqn:Hrest.
  - apply andb_prop in Hrest. destruct Hrest as [Hm Hh].
    now rewrite Hm, Hh, orb_true_r.
  - destruct (str_eqb k n) eqn:Hkn.
    + apply str_eqb_eq in Hkn. subst n. cbn [orb andb].
      destruct (hasattr_builtins k); [|reflexivity].
      now rewrite dict_get_set, str_eqb_refl.
    + cbn [orb]. rewrite Hrest.
      destruct (hasattr_builtins n); [|reflexivity].
      rewrite dict_get_set, str_eqb_sym, Hkn. reflexivity.
Qed.

Lemma dict_get_updated (names : list pystr) (d : pydict pyobject) (k : pystr) :
  dict_get (dict_update d (map (fun name => (name, builtin name)) names)) k
  = if mem k names then Some (builtin k) else dict_get d k.
Proof.
  unfold dict_update. revert d.
  induction names as [|n names IH]; intros d; [reflexivity|].
  cbn [map fold_left fst snd]. rewrite IH. unfold mem. cbn [existsb].
  fold (mem k names).
  destruct (mem k names); [now rewrite orb_true_r|].
  rewrite orb_false_r, dict_get_set, str_eqb_sym.
  destruct (str_eqb k n) eqn:Hkn; [|reflexivity].
  apply str_eqb_eq in Hkn. now subst.
Qed.

Lemma safe_builtins_get (k : pystr) :
  dict_get (safe_builtins hasattr_builtins builtin) k
  = if mem k UPDATED_BUILTINS then Some (builtin k)
    else if mem k ALLOWED_BUILTINS && hasattr_builtins k
         then Some (builtin k) else None.
Proof.
  unfold safe_builtins. rewrite dict_get_updated, dict_get_allowed. reflexivity.
Qed.

Lemma forbidden_not_provided (k : pystr) :
  mem k FORBIDDEN_BUILTINS = true ->
  mem k UPDATED_BUILTINS = false /\ mem k ALLOWED_BUILTINS = false.
Proof.
  intros Hk. apply mem_In in Hk.
  assert (Hall : forallb (fun f => negb (mem f UPDATED_BUILTINS)
                                   && negb (mem f ALLOWED_BUILTINS))
                         FORBIDDEN_BUILTINS = true) by (vm_compute; reflexivity).
  rewrite forallb_forall in Hall. specialize (Hall k Hk).
  apply andb_prop in Hall. destruct Hall as [H1 H2].
  apply negb_true_iff in H1, H2. now split.
Qed.

(** X7. The builtins of the sandbox.  Whatever the module [builtins] of the
    platform provides, the dictionary that [_init_globals] installs as
    [__builtins__] binds no name of [FORBIDDEN_BUILTINS] (so not
    [__import__], [eval], [exec], [open], [getattr]); every name it binds
    is bound to the builtin of that name and is a name of the update
    literal or a name of [ALLOWED_BUILTINS] that the platform has; and the
    names of the update literal are always bound. *)
Theorem safe_builtins_exclude_forbidden :
  (forall name, mem name FORBIDDEN_BUILTINS = true ->
     dict_get (safe_builtins hasattr_builtins builtin) name = None)
  /\ (forall name v,
        dict_get (safe_builtins hasattr_builtins builtin) name = Some v ->
        v = builtin name
        /\ (mem name UPDATED_BUILTINS = true
            \/ (mem name ALLOWED_BUILTINS = true
                /\ hasattr_builtins name = true)))
  /\ (forall name, mem name UPDATED_BUILTINS = true ->
        dict_get (safe_builtins hasattr_builtins builtin) name
        = Some (builtin name)).
Proof.
  split; [|split].
  - intros name Hf. rewrite safe_builtins_get.
    destruct (forbidden_not_provided _ Hf) as [-> ->]. reflexivity.
  - intros name v. rewrite safe_builtins_get.
    destruct (mem name UPDATED_BUILTINS).
    + intros [= <-]. split; [reflexivity|now left].
    + destruct (mem name ALLOWED_BUILTINS), (hasattr_builtins name);
        cbn [andb]; try discriminate.
      intros [= <-]. split; [reflexivity|right; now split].
  - intros name Hu. rewrite safe_builtins_get. now rewrite Hu.
Qed.

Local Abbreviation init :=
  (_init_globals hasattr_builtins builtin pd np plt sns datetime timedelta math).
Local Abbreviation reset_env :=
  (reset hasattr_builtins builtin pd np plt sns datetime timedelta math).

Lemma init_has_no_df : dict_get init (U "df") = None.
Proof. reflexivity. Qed.

(** X8. [reset] keeps the data frame and nothing else.  For every state
    [globals_dict] the executed code may have left: the variable [df]
    reads after [reset] as it did before; every other name reads as in a
    fresh environment; resetting twice is resetting once; and
    [set_dataframe] binds [df] and leaves the other names alone. *)
Theorem reset_keeps_only_the_dataframe (globals_dict : pydict (pyvalue pyobject)) :
  get_variable (reset_env globals_dict) (U "df")
    = get_variable globals_dict (U "df")
  /\ (forall name, name <> U "df" ->
        get_variable (reset_env globals_dict) name = get_variable init name)
  /\ (forall name,
        get_variable (reset_env (reset_env globals_dict)) name
        = get_variable (reset_env globals_dict) name)
  /\ (forall df, get_variable (set_dataframe globals_dict df) (U "df") = df)
  /\ (forall df name, name <> U "df" ->
        get_variable (set_dataframe globals_dict df) name
        = get_variable globals_dict name).
Proof.
  assert (Hdf : get_variable (reset_env globals_dict) (U "df")
                = get_variable globals_dict (U "df")).
  { unfold reset.
    destruct (get_variable globals_dict (U "df")) as [|o|d] eqn:Hbackup.
    - reflexivity.
    - unfold get_variable. now rewrite dict_get_set, str_eqb_refl.
    - unfold get_variable. now rewrite dict_get_set, str_eqb_refl. }
  assert (Hother : forall g name, name <> U "df" ->
            get_variable (reset_env g) name = get_variable init name).
  { intros g name Hname. unfold reset.
    assert (Hneq : str_eqb (U "df") name = false)
      by (apply str_eqb_neq; congruence).
    destruct (get_variable g (U "df")) as [|o|d]; [reflexivity| |];
      unfold get_variable; now rewrite dict_get_set, Hneq. }
  split; [exact Hdf|]. split; [now apply Hother|]. split; [|split].
  - intros name. destruct (str_eqb (U "df") name) eqn:Hname.
    + apply str_eqb_eq in Hname. subst name.
      unfold reset at 1.
      destruct (get_variable (reset_env globals_dict) (U "df")) as [|o|d] eqn:Hb.
      * reflexivity.
      * unfold get_variable. now rewrite dict_get_set, str_eqb_refl.
      * unfold get_variable. now rewrite dict_get_set, str_eqb_refl.
    + apply str_eqb_neq in Hname.
      rewrite !Hother by congruence. reflexivity.
  - intros df. unfold get_variable, set_dataframe.
    now rewrite dict_get_set, str_eqb_refl.
  - intros df name Hname. unfold get_variable, set_dataframe.
    assert (Hneq : str_eqb (U "df") name = false)
      by (apply str_eqb_neq; congruence).
    now rewrite dict_get_set, Hneq.
Qed.

End EnvironmentProperties.

(** ** Retry loop: what it returns *)

Lemma execution_calls_app (a b : list event) :
  execution_calls (a ++ b) = execution_calls a + execution_calls b.
Proof. unfold execution_calls. now rewrite filter_app, length_app. Qed.

Section WorkflowOutcomes.
Context {Uc : PyUnicode} {R : PyRuntime} {L : LLMServices}.
Variable max_retries : Z.
Variable question : pystr.
Variable info : df_info.
Variable history : list turn_dict.
Variable plot : pystr.
Variable w0 : World.

Local Abbreviation body :=
  (attempt_body max_retries question info history plot).
Local Abbreviation loop :=
  (retry_loop max_retries question info history plot).

(** What the loop holds or returns.  [outcome_of code r]: [r] is what
    [execute] returned for [code] in some state of the executor.
    [held c r w]: as long as no code was generated nothing was executed
    since [w0], and a result that is held is the failed outcome of a code
    generated before.  [synced c r]: [r] is the failed outcome of [c]
    itself; [succeeded c r]: its successful outcome. *)
Local Abbreviation outcome_of code r :=
  (exists sb, fst (execute sb code) = inl r).
Local Abbreviation unused w :=
  (sandbox w = sandbox w0
   /\ execution_calls (trace w) = execution_calls (trace w0)).
Local Abbreviation held c r w :=
  ((c = @None pystr -> r = @None result_dict /\ unused w)
   /\ (forall res, r = Some res ->
         c <> None /\ success res = false
         /\ exists code, outcome_of code res)).
Local Abbreviation synced c r :=
  (exists code res, c = Some code /\ r = Some res
                    /\ success res = false /\ outcome_of code res).
Local Abbreviation succeeded c r :=
  (exists code res, c = Some code /\ r = Some res
                    /\ success res = true /\ outcome_of code res).

Lemma synced_held (c : option pystr) (r : option result_dict) (w : World) :
  synced c r -> held c r w.
Proof.
  intros [code [res [-> [-> [Hfail Hout]]]]]. split; [discriminate|].
  intros res' [= <-]. split; [discriminate|]. split; [assumption|].
  now exists code.
Qed.

Lemma body_outcomes (attempt : nat) (st : loop_state) (w : World) :
  held (last_code st) (last_result st) w ->
  match body attempt st w with
  | (Return c r k, w') =>
    k = Z.of_nat attempt
    /\ (succeeded c r
        \/ (~ (Z.of_nat attempt < max_retries - 1)%Z /\ held c r w'))
  | (Continue st', w') =>
    held (last_code st') (last_result st') w'
    /\ ((Z.of_nat attempt < max_retries - 1)%Z
        \/ synced (last_code st') (last_result st'))
  end.
Proof.
  intros Hheld.
  assert (Hann : execution_calls [announce max_retries attempt] = 0)
    by (destruct attempt; reflexivity).
  assert (Hkeep : forall l shown,
            execution_calls shown = 0 ->
            held (last_code st) (last_result st)
                 {| llm := l; sandbox := sandbox w; trace := trace w ++ shown |}).
  { intros l shown Hshown. destruct Hheld as [Hnone Hsome].
    split; [|exact Hsome]. intros Hc.
    destruct (Hnone Hc) as [Hr [Hsb Hcalls]].
    cbn [sandbox trace]. rewrite execution_calls_app, Hshown.
    repeat split; try assumption. lia. }
  assert (Hnew : forall code w',
            held (Some code) (last_result st) w').
  { intros code w'. split; [discriminate|].
    intros res Hres. destruct Hheld as [_ Hsome].
    destruct (Hsome res Hres) as [_ [Hfail Hout]].
    split; [discriminate|]. now split. }
  assert (Hexc : forall c r e w',
            held c r w' ->
            forall st', last_code st' = c -> last_result st' = r ->
            match on_exception max_retries attempt e st' w' with
            | (Return c' r' k, w'') =>
              k = Z.of_nat attempt
              /\ (succeeded c' r'
                  \/ (~ (Z.of_nat attempt < max_retries - 1)%Z
                      /\ held c' r' w''))
            | (Continue st'', w'') =>
              held (last_code st'') (last_result st'') w''
              /\ ((Z.of_nat attempt < max_retries - 1)%Z
                  \/ synced (last_code st'') (last_result st''))
            end).
  { intros c r e w' [Hnone Hsome] st' <- <-. unfold on_exception, emit.
    destruct (_ <? _)%Z eqn:Hlast.
    - apply Z.ltb_lt in Hlast. split; [|now left].
      split; [|exact Hsome]. intros Hc.
      destruct (Hnone Hc) as [Hr [Hsb Hcalls]].
      cbn [sandbox trace]. rewrite execution_calls_app. cbn.
      repeat split; try assumption. lia.
    - apply Z.ltb_ge in Hlast. split; [reflexivity|]. right.
      split; [lia|]. now split. }
  unfold attempt_body. cbn [emit llm sandbox trace].
  destruct (generate_code _ _ _ _ _ _) as [[code|e] l].
  - unfold run_execute, emit. cbn [llm sandbox trace].
    destruct (execute (sandbox w) code) as [[r0|e] sb] eqn:Hexec.
    2:{ apply Hexc with (c := Some code) (r := last_result st);
          [apply Hnew|reflexivity|reflexivity]. }
    assert (Hout : outcome_of code r0)
      by (exists (sandbox w); now rewrite Hexec).
    destruct (success r0) eqn:Hok.
    { split; [reflexivity|]. left. exists code, r0. now repeat split. }
    assert (Hsync : synced (Some code) (Some r0))
      by (exists code, r0; now repeat split).
    destruct attempt as [|k].
    2:{ split; [now apply synced_held|now right]. }
    unfold deep_analysis. cbn [emit llm sandbox trace].
    destruct (analyze_error_with_thinking _ _ _ _ _ _) as [[t|e] l'].
    + destruct (th_success t), (th_code t) as [[|c0 cs]|];
        try (split; [now apply synced_held|now right]).
      unfold run_execute, emit. cbn [llm sandbox trace].
      destruct (execute sb (c0 :: cs)) as [[r'|e'] sb'] eqn:Hexec'.
      * destruct (success r') eqn:Hok'.
        -- split; [reflexivity|]. left. exists (c0 :: cs), r'.
           repeat split; try assumption. exists sb. now rewrite Hexec'.
        -- split; [now apply synced_held|now right].
      * apply Hexc with (c := Some code) (r := Some r0);
          [now apply synced_held|reflexivity|reflexivity].
    + apply Hexc with (c := Some code) (r := Some r0);
        [now apply synced_held|reflexivity|reflexivity].
  - apply Hexc with (c := last_code st) (r := last_result st);
      [|reflexivity|reflexivity].
    rewrite <- !app_assoc. apply Hkeep.
    rewrite !execution_calls_app, Hann. reflexivity.
Qed.

Lemma loop_outcomes (attempts : list nat) :
  forall st w,
    held (last_code st) (last_result st) w ->
    match loop attempts st w with
    | ((c, r, k), w') =>
      (exists a, In a attempts /\ k = Z.of_nat a
                 /\ (succeeded c r
                     \/ (~ (Z.of_nat a < max_retries - 1)%Z /\ held c r w')))
      \/ (k = max_retries /\ held c r w'
          /\ (attempts <> [] ->
              (Z.of_nat (last attempts 0%nat) < max_retries - 1)%Z
              \/ synced c r))
    end.
Proof.
  induction attempts as [|a attempts IH]; intros st w Hheld.
  - cbn [retry_loop]. right. split; [reflexivity|]. split; [assumption|].
    intros Habs. now contradiction Habs.
  - cbn [retry_loop].
    pose proof (@body_outcomes a st w Hheld) as Hbody.
    destruct (body a st w) as [[c r k|st'] w'].
    + destruct Hbody as [Hk Hcases]. left. exists a.
      split; [now left|]. split; assumption.
    + destruct Hbody as [Hheld' Hlast].
      specialize (IH st' w' Hheld').
      destruct attempts as [|b attempts].
      * cbn [retry_loop] in *. right. split; [reflexivity|].
        split; [assumption|]. intros _. exact Hlast.
      * destruct (loop (b :: attempts) st' w') as [[[c r] k] w''].
        destruct IH as [[d [Hin H]]|[Hk [Hfinal Hsync]]].
        -- left. exists d. split; [now right|assumption].
        -- right. split; [assumption|]. split; [assumption|].
           intros _. apply Hsync. discriminate.
Qed.

Lemma initial_held : held (last_code initial_loop_state)
                          (last_result initial_loop_state) w0.
Proof.
  split; [now repeat split|]. intros res Hres. discriminate.
Qed.

Lemma last_seq (n : nat) : last (seq 0 (S n)) 0 = n.
Proof. rewrite seq_S. apply last_last. Qed.


(** X10. What the returned count tells, when at least one attempt is allowed.
    A count equal to [max_retries] means that the attempts are used up:
    the last attempt ran its code, and the loop returns that code with
    its failed outcome.  A successful result comes with the index of its
    attempt, below [max_retries].  No result at all comes with the count
    [max_retries - 1]: the last attempt ended in the except clause. *)
Theorem retry_count_meaning :
  (1 <= max_retries)%Z ->
  let run := _generate_and_execute_with_retry max_retries question info
               history plot w0 in
  let code := fst (fst (fst run)) in
  let result := snd (fst (fst run)) in
  let retries := snd (fst run) in
  (retries = max_retries ->
     exists c r sb, code = Some c /\ result = Some r /\ success r = false
                    /\ fst (execute sb c) = inl r)
  /\ (forall r, result = Some r -> success r = true ->
        (0 <= retries < max_retries)%Z)
  /\ (result = None -> retries = (max_retries - 1)%Z).
Proof.
  intros Hmax. cbv zeta. unfold _generate_and_execute_with_retry.
  pose proof (@loop_outcomes (seq 0 (Z.to_nat max_retries)) _ _ initial_held)
    as Hloop.
  destruct (loop _ _ _) as [[[c r] k] w']. cbn [fst snd] in *.
  assert (Hsync : k = max_retries -> synced c r).
  { intros ->.
    destruct Hloop as [[a [Hin [Hk _]]]|[_ [_ Hlast]]].
    { apply in_seq in Hin. lia. }
    destruct (Z.to_nat max_retries) as [|n] eqn:Hn; [lia|].
    destruct Hlast as [Hlt|H]; [discriminate| |assumption].
    rewrite last_seq in Hlt. lia. }
  split; [|split].
  - intros Hk. destruct (Hsync Hk) as [code [res [-> [-> [Hfail [sb Hout]]]]]].
    now exists code, res, sb.
  - intros r' -> Hok.
    destruct Hloop as [[a [Hin [-> Hcases]]]|[Hk _]].
    { apply in_seq in Hin. lia. }
    destruct (Hsync Hk) as [code [res [_ [[= ->] [Hfail _]]]]]. congruence.
  - intros ->.
    destruct Hloop as [[a [Hin [-> Hcases]]]|[Hk _]].
    + apply in_seq in Hin.
      destruct Hcases as [[code [res [_ [Habs _]]]]|[Hnot _]];
        [discriminate|lia].
    + destruct (Hsync Hk) as [code [res [_ [Habs _]]]]. discriminate.
Qed.

End WorkflowOutcomes.

Lemma retry_count_meaning_witness :
  let run := @_generate_and_execute_with_retry ascii_unicode
               (demo_runtime true) unavailable_llm 3
               (U "q") tt [] (U "plot.png") (demo_world unavailable_llm 0%nat) in
  snd (fst run) = 2%Z.
Proof.
  cbv zeta.
  destruct (@retry_count_meaning ascii_unicode (demo_runtime true)
              unavailable_llm 3%Z (U "q") tt [] (U "plot.png")
              (demo_world unavailable_llm 0%nat)) as [_ [_ Hnone]]; [lia|].
  apply Hnone. vm_compute. reflexivity.
Defined.

(** With two attempts allowed: the first code fails, the second code has
    a null byte and makes [execute] raise on the last attempt.  The loop
    returns the second code with the outcome of the first one. *)
Example stale_result_with_newer_code :
  let run := @_generate_and_execute_with_retry ascii_unicode
               (demo_runtime true) careless_llm 2
               (U "q") tt [] (U "plot.png") (demo_world careless_llm 0%nat) in
  fst run = (Some null_byte_code,
             Some {| success := false; stdout := Some []; stderr := Some [];
                     error_type := Some (U "ValueError"); error := Some [];
                     error_message := Some [];
                     traceback :=
                       Some (U "Traceback (most recent call last): ValueError");
                     plot_saved := None; plot_path := None |},
             1%Z)
  /\ execution_calls (trace (snd run)) = 2.
Proof. vm_compute. split; reflexivity. Qed.

(** With one attempt allowed, a code that makes [execute] raise is
    returned with no result, after the executor was called. *)
Example code_without_result :
  let run := @_generate_and_execute_with_retry ascii_unicode
               (demo_runtime true)
               (scripted_llm [inl null_byte_code] (inr (U "unused"))) 1
               (U "q") tt [] (U "plot.png")
               (demo_world (scripted_llm [inl null_byte_code]
                                         (inr (U "unused"))) 0%nat) in
  fst run = (Some null_byte_code, None, 0%Z)
  /\ execution_calls (trace (snd run)) = 1.
Proof. vm_compute. split; reflexivity. Qed.

(** ** Session: statistics, window and budget *)

Lemma list_sum_Z_app (a b : list Z) :
  list_sum_Z (a ++ b) = (list_sum_Z a + list_sum_Z b)%Z.
Proof.
  unfold list_sum_Z. induction a as [|x a IH]; simpl; [reflexivity|].
  rewrite IH. lia.
Qed.

Lemma filter_length_le {A} (f : A -> bool) (l : list A) :
  length (filter f l) <= length l.
Proof.
  induction l as [|x l IH]; simpl; [lia|]. destruct (f x); simpl; lia.
Qed.

(** X11. The statistics of a session count its turns: successes and failures
    add up to the number of turns, none of the counts is negative or
    exceeds it, and adding a turn adds one to [total_turns], one to
    [success_count] or to [failed_count] according to the result of the
    turn, and the retries of the turn to [total_retries]. *)
Theorem statistics_follow_turns (self : SessionManager)
    (turn : ConversationTurn) :
  let before := get_statistics self in
  let after := get_statistics (add_turn self turn) in
  (success_count before + failed_count before = total_turns before)%Z
  /\ (0 <= success_count before <= total_turns before)%Z
  /\ (0 <= failed_count before <= total_turns before)%Z
  /\ (0 <= plots_generated before <= total_turns before)%Z
  /\ total_turns after = (total_turns before + 1)%Z
  /\ success_count after
     = (success_count before
        + if success (execution_result turn) then 1 else 0)%Z
  /\ failed_count after
     = (failed_count before
        + if success (execution_result turn) then 0 else 1)%Z
  /\ total_retries after = (total_retries before + retry_count turn)%Z
  /\ plots_generated after
     = (plots_generated before
        + if truthy (turn_plot_path turn) then 1 else 0)%Z.
Proof.
  cbv zeta. unfold get_statistics, add_turn.
  cbn [turns total_turns success_count failed_count total_retries
       plots_generated].
  pose proof (filter_length_le (fun t => success (execution_result t))
                               (turns self)) as Hs.
  pose proof (filter_length_le (fun t => truthy (turn_plot_path t))
                               (turns self)) as Hp.
  rewrite !filter_app, !length_app, map_app, list_sum_Z_app.
  cbn [filter map length].
  destruct (success (execution_result turn)), (truthy (turn_plot_path turn));
    cbn [length list_sum_Z fold_right]; repeat split; lia.
Qed.

Section SessionWindow.
Context {F : PyFloat} {Uc : PyUnicode}.

Lemma turns_to_dicts_length (ts : list ConversationTurn) (b : bool) :
  length (_turns_to_dicts ts b) = length ts.
Proof. unfold _turns_to_dicts. apply length_map. Qed.

Lemma recent_turns_window (self : SessionManager) (n : Z) :
  recent_turns self n
  = _turns_to_dicts
      (skipn (if (1 <=? n)%Z then length (turns self) - Z.to_nat n
              else Z.to_nat (- n)) (turns self)) true.
Proof.
  unfold recent_turns. rewrite turns_to_dicts_length.
  unfold slice_from, slice_bound. rewrite turns_to_dicts_length.
  unfold _turns_to_dicts. rewrite <- skipn_map.
  set (len := length (turns self)).
  destruct (Z.ltb_spec n (Z.of_nat len)) as [Hlt|Hge].
  - destruct (Z.leb_spec 1 n) as [Hpos|Hneg].
    + f_equal. destruct (Z.ltb_spec (- n) 0); lia.
    + destruct (Z.ltb_spec (- n) 0); [lia|].
      destruct (Z.le_gt_cases (- n) (Z.of_nat len)) as [Hin|Hout].
      * f_equal. lia.
      * rewrite !skipn_all2; [reflexivity| |];
          rewrite length_map; fold len; clearbody len; lia.
  - destruct (Z.leb_spec 1 n) as [Hpos|Hneg].
    + replace (len - Z.to_nat n) with 0 by lia. reflexivity.
    + subst len. destruct (turns self) as [|t ts]; [|simpl length in Hge; lia].
      now rewrite skipn_nil.
Qed.

(** X12. The window of [get_recent_history] when it does not compact (no
    compactor is set, or [auto_compact] is off, or smart compression is
    disabled, or the budget is below the threshold): for [n >= 1] it is
    the last [n] turns of the session, all of them when there are fewer,
    in their order and in filtered form.  For [n = 0] it is the whole
    history, not the empty list, and for [n < 0] the history without its
    first [-n] turns. *)
Theorem recent_history_window (global_ctx : option pystr)
    (self : SessionManager) (n : Z) (auto_compact : bool)
    (current_question : pystr) :
  compactor self = None \/ auto_compact = false
  \/ enable_smart_compression self = false
  \/ should_compact (token_counter self)
       (tk_total (calculate_current_tokens global_ctx self current_question))
     = false ->
  let history := get_recent_history global_ctx self n auto_compact
                   current_question in
  ((1 <= n)%Z ->
     history = _turns_to_dicts
                 (skipn (length (turns self) - Z.to_nat n) (turns self)) true
     /\ Z.of_nat (length history) = Z.min n (Z.of_nat (length (turns self))))
  /\ (n = 0%Z -> history = _turns_to_dicts (turns self) true)
  /\ ((n < 0)%Z ->
      history = _turns_to_dicts (skipn (Z.to_nat (- n)) (turns self)) true).
Proof.
  intros Hno history.
  assert (Hrecent : history = recent_turns self n).
  { subst history. unfold get_recent_history.
    unfold calculate_current_tokens in Hno.
    destruct (compactor self) as [c|]; [|reflexivity].
    destruct auto_compact; [|reflexivity].
    destruct (enable_smart_compression self); [|reflexivity].
    cbn [andb].
    destruct Hno as [Hno|[Hno|[Hno|Hno]]]; try discriminate.
    now rewrite Hno. }
  rewrite Hrecent, recent_turns_window.
  split; [|split].
  - intros Hn. destruct (Z.leb_spec 1 n); [|lia].
    split; [reflexivity|].
    rewrite turns_to_dicts_length, length_skipn. lia.
  - intros ->. reflexivity.
  - intros Hn. destruct (Z.leb_spec 1 n); [lia|]. reflexivity.
Qed.

(** X13. When the budget reaches the threshold, [get_recent_history] answers
    with the compacted history of the whole session, whatever window [n]
    was asked for: with [1 <= keep_recent < len(turns)] it has
    [keep_recent + 1] turns, the summary turn and the last [keep_recent]
    turns, [keep_recent] being the setting of the compactor. *)
Theorem compaction_overrides_window (global_ctx : option pystr)
    (self : SessionManager) (c : ConversationCompactor) (n : Z)
    (current_question : pystr) :
  compactor self = Some c ->
  enable_smart_compression self = true ->
  should_compact (token_counter self)
    (tk_total (calculate_current_tokens global_ctx self current_question))
  = true ->
  let history := get_recent_history global_ctx self n true current_question in
  history = compact c (_turns_to_dicts (turns self) true) None
  /\ ((1 <= keep_recent c < Z.of_nat (length (turns self)))%Z ->
      Z.of_nat (length history) = (keep_recent c + 1)%Z
      /\ tl history
         = _turns_to_dicts
             (skipn (length (turns self) - Z.to_nat (keep_recent c))
                    (turns self)) true).
Proof.
  intros Hc Hen Hover history.
  assert (Hcompact : history = compact c (_turns_to_dicts (turns self) true) None).
  { subst history. unfold get_recent_history, compact_history.
    unfold calculate_current_tokens in Hover.
    rewrite Hc, Hen. cbn [andb]. now rewrite Hover. }
  split; [exact Hcompact|].
  intros Hk. rewrite Hcompact.
  rewrite compact_long by (rewrite turns_to_dicts_length; lia).
  cbv zeta. cbn [length tl]. rewrite turns_to_dicts_length.
  split.
  - rewrite length_skipn, turns_to_dicts_length. lia.
  - unfold _turns_to_dicts. now rewrite skipn_map.
Qed.

End SessionWindow.

Section SessionBudget.
Context {F : PyFloat} {M : PyFloatMonotone}.

Lemma turn_tokens_nonneg (turn : turn_dict) : (0 <= turn_tokens turn)%Z.
Proof.
  unfold turn_tokens.
  pose proof (estimate_tokens_nonneg (d_question turn)).
  pose proof (estimate_tokens_nonneg (d_code turn)).
  pose proof (estimate_tokens_nonneg (d_explanation turn)).
  pose proof (estimate_tokens_nonneg (get_or (stdout (d_result turn)) [])).
  destruct (success (d_result turn)); lia.
Qed.

(** X14. The budget of a session never shrinks when a turn is added: the
    total computed for the same question is at least what it was, so a
    session that has reached the compaction threshold stays over it. *)
Theorem budget_grows_with_session (global_ctx : option pystr)
    (self : SessionManager) (turn : ConversationTurn)
    (current_question : pystr) :
  let before := calculate_current_tokens global_ctx self current_question in
  let after := calculate_current_tokens global_ctx (add_turn self turn)
                 current_question in
  tk_history after
    = (tk_history before + turn_tokens (turn_to_dict true turn))%Z
  /\ (tk_total before <= tk_total after)%Z
  /\ (should_compact (token_counter self) (tk_total before) = true ->
      should_compact (token_counter (add_turn self turn)) (tk_total after)
      = true).
Proof.
  cbv zeta. unfold calculate_current_tokens, calculate_context_tokens.
  cbn [tk_history tk_total add_turn turns token_counter].
  unfold _turns_to_dicts. rewrite map_app. cbn [map].
  rewrite !fold_add_turn_tokens, map_app, list_sum_Z_app.
  cbn [map list_sum_Z fold_right].
  pose proof (turn_tokens_nonneg (turn_to_dict true turn)) as Hturn.
  split; [lia|]. split; [lia|].
  unfold should_compact. rewrite !Z.leb_le. lia.
Qed.

End SessionBudget.

Lemma recent_history_window_witness :
  length (get_recent_history (F := exact_float) (Uc := ascii_unicode) None
            demo_session 0 false (U "next")) = 3.
Proof.
  destruct (@recent_history_window exact_float ascii_unicode None
              demo_session 0 false (U "next")) as [_ [Hzero _]].
  - right. left. reflexivity.
  - rewrite (Hzero eq_refl). reflexivity.
Defined.

Lemma compaction_overrides_window_witness :
  length (get_recent_history (F := exact_float) (Uc := ascii_unicode) None
            demo_session 3 true (U "next")) = 2.
Proof.
  destruct (@compaction_overrides_window exact_float ascii_unicode None
              demo_session small_compactor 3 (U "next")) as [_ Hlen].
  - reflexivity.
  - reflexivity.
  - vm_compute. reflexivity.
  - destruct Hlen as [Hlen _]; [vm_compute; split; [discriminate|reflexivity]|].
    apply Nat2Z.inj. rewrite Hlen. reflexivity.
Defined.

Lemma budget_grows_with_session_witness :
  (tk_total (calculate_current_tokens (F := exact_float)
               None demo_session (U "next"))
   <= tk_total (calculate_current_tokens (F := exact_float) None
                  (add_turn demo_session failed_turn) (U "next")))%Z.
Proof.
  destruct (@budget_grows_with_session exact_float exact_float_monotone
              None demo_session failed_turn (U "next"))
    as [_ [Hle _]].
  exact Hle.
Defined.

(** ** Token counter: the status of the context window *)

Lemma exact_percent : @PyFloatPercent exact_float exact_div.
Proof.
  split; simpl.
  - intros a b [Hb Hab].
    apply Qle_shift_div_l.
    + now rewrite <- (Zlt_Qlt 0).
    + rewrite Qmult_1_l. now rewrite <- Zle_Qle.
  - intros x Hx. setoid_replace (100 : Q) with (inject_Z 100 * 1)%Q at 1
      by reflexivity.
    rewrite !(Qmult_comm (inject_Z 100)).
    apply Qmult_le_compat_r; [assumption|discriminate].
Qed.

Section WindowStatusProperties.
Context {F : PyFloat} {D : PyFloatDiv} {P : PyFloatPercent}.

(** X15. The status of the context window.  [get_context_window_status]
    raises exactly when the threshold [safe_max_tokens] is zero.  When it
    answers, [remaining_tokens + total_tokens = max_tokens], the field
    [should_compact] is the answer of [should_compact], and with a
    positive threshold every total for which [should_compact] is true has
    the status ['critical']. *)
Theorem window_status_consistent (self : TokenCounter) (total_tokens : Z) :
  (get_context_window_status self total_tokens = None
     <-> safe_max_tokens self = 0%Z)
  /\ (forall st, get_context_window_status self total_tokens = Some st ->
        ws_max_tokens st = safe_max_tokens self
        /\ (ws_remaining_tokens st + ws_total_tokens st = ws_max_tokens st)%Z
        /\ ws_should_compact st = should_compact self total_tokens
        /\ ((0 < safe_max_tokens self)%Z -> ws_should_compact st = true ->
            ws_status st = U "critical")).
Proof.
  unfold get_context_window_status.
  destruct (Z.eqb_spec (safe_max_tokens self) 0) as [Hzero|Hnz].
  - split; [tauto|]. discriminate.
  - split; [split; [discriminate|contradiction]|].
    intros st [= <-]. cbn [ws_max_tokens ws_remaining_tokens ws_total_tokens
                           ws_should_compact ws_status].
    split; [reflexivity|]. split; [lia|]. split; [reflexivity|].
    intros Hpos Hover. unfold should_compact in Hover.
    apply Z.leb_le in Hover.
    assert (Hpct : (100 <= fmul 100 (fdiv total_tokens (safe_max_tokens self)))%Q).
    { apply fmul_at_least_hundred. apply fdiv_at_least_one. lia. }
    apply Qle_bool_iff in Hpct. now rewrite Hpct.
Qed.

End WindowStatusProperties.

Lemma window_status_consistent_witness :
  option_map ws_status
    (get_context_window_status (F := exact_float) (D := exact_div)
       (TokenCounter_init (F := exact_float) None None) 90000)
  = Some (U "critical").
Proof.
  destruct (@window_status_consistent exact_float exact_div exact_percent
              (TokenCounter_init (F := exact_float) None None) 90000)
    as [_ Hst].
  destruct (get_context_window_status _ _) as [st|] eqn:Hget;
    [|vm_compute in Hget; discriminate].
  destruct (Hst st eq_refl) as [_ [_ [Hsc Hcrit]]].
  cbn [option_map]. rewrite Hcrit; [reflexivity|vm_compute; reflexivity|].
  rewrite Hsc. vm_compute. reflexivity.
Defined.

Lemma b64_round_1 : (b64_round 1 == 1)%Q.
Proof. vm_compute. reflexivity. Qed.

Lemma b64_round_100 : (b64_round 100 == 100)%Q.
Proof. vm_compute. reflexivity. Qed.

(** Binary64 has what the status of the context window needs. *)
Lemma binary64_percent : @PyFloatPercent binary64 binary64_div.
Proof.
  constructor.
  - intros a b Hab. cbn [fdiv binary64_div].
    rewrite <- b64_round_1 at 1. apply b64_round_mono.
    assert (Hb : (0 < inject_Z b)%Q).
    { change (inject_Z 0 < inject_Z b)%Q. rewrite <- Zlt_Qlt. lia. }
    assert (Hba : (inject_Z b <= inject_Z a)%Q).
    { rewrite <- Zle_Qle. lia. }
    apply Qle_shift_div_l; lra.
  - intros x Hx. cbn [fmul binary64].
    rewrite <- b64_round_100 at 1. apply b64_round_mono.
    assert (Hrx : (1 <= b64_round x)%Q).
    { rewrite <- b64_round_1 at 1. now apply b64_round_mono. }
    change (inject_Z 100) with 100%Q.
    assert (H : (b64_round 100 * 1 <= b64_round 100 * b64_round x)%Q).
    { apply Qmult_le_l_nonneg; [|assumption]. rewrite b64_round_100. discriminate. }
    rewrite b64_round_100 in H at 1. lra.
Qed.

(** The status computed with binary64 at the default setting. *)
Example binary64_window_status :
  option_map (fun st => (ws_status st, ws_remaining_tokens st))
    (get_context_window_status (F := binary64) (D := binary64_div)
       (TokenCounter_init (F := binary64) None None) 71680)
  = Some (U "warning", 17920%Z).
Proof. vm_compute. reflexivity. Qed.

(** A small usage, 50 tokens of 89600: the percentage is the double that
    the machine computes for [(50 / 89600) * 100], 0.0558..., and the
    status is 'healthy'. *)
Example binary64_small_usage :
  option_map (fun st => (Some (ws_usage_percentage st), ws_status st))
    (get_context_window_status (F := binary64) (D := binary64_div)
       (TokenCounter_init (F := binary64) None None) 50)
  = Some (float_value
            (PrimFloat.mul
               (PrimFloat.div (float_of_small 50) (float_of_small 89600))
               (float_of_small 100)),
          U "healthy").
Proof. vm_compute. reflexivity. Qed.

(** ** Parser of the deep-analysis answer *)

Lemma startswith_weaken (s p q : pystr) :
  startswith s (p ++ q) = true -> startswith s p = true.
Proof.
  revert s. induction p as [|a p IH]; intros s; [reflexivity|].
  destruct s as [|b s]; simpl; [discriminate|].
  destruct (a =? b)%N; [apply IH|discriminate].
Qed.

Section ThinkingParserProperties.
Context {Uc : PyUnicode}.

Local Abbreviation fence := (U "```").
Local Abbreviation no_fence line := (startswith (strip line) fence = false).

Lemma not_python_fence (line : pystr) :
  no_fence line -> startswith (strip line) (U "```python") = false.
Proof.
  intros Hno. destruct (startswith (strip line) (U "```python")) eqn:Hpy;
    [|reflexivity].
  change (U "```python") with (fence ++ U "python") in Hpy.
  apply startswith_weaken in Hpy. congruence.
Qed.

Lemma not_closing_fence (line : pystr) :
  no_fence line -> str_eqb (strip line) fence = false.
Proof.
  intros Hno. apply str_eqb_neq. intros Heq. rewrite Heq in Hno. discriminate.
Qed.

Lemma code_block_lines_outside (pre rest : list pystr) :
  (forall l, In l pre -> no_fence l) ->
  code_block_lines false (pre ++ rest) = code_block_lines false rest.
Proof.
  induction pre as [|l pre IH]; intros Hpre; [reflexivity|].
  assert (Hl : no_fence l) by (apply Hpre; now left).
  cbn [app code_block_lines].
  rewrite (not_python_fence _ Hl), Hl.
  cbn [orb andb negb]. rewrite andb_false_r. apply IH.
  intros l' Hl'. apply Hpre. now right.
Qed.

Lemma code_block_lines_inside (body post : list pystr) (close : pystr) :
  (forall l, In l body -> no_fence l) ->
  strip close = fence ->
  code_block_lines true (body ++ close :: post) = body.
Proof.
  intros Hbody Hclose. induction body as [|l body IH].
  - cbn [app code_block_lines]. rewrite Hclose. reflexivity.
  - assert (Hl : no_fence l) by (apply Hbody; now left).
    cbn [app code_block_lines].
    rewrite (not_python_fence _ Hl), Hl, (not_closing_fence _ Hl).
    cbn [orb andb negb]. f_equal. apply IH.
    intros l' Hl'. apply Hbody. now right.
Qed.

Lemma keep_block_line_spec (line : pystr) :
  keep_block_line line = negb (_is_explanation_line line).
Proof.
  unfold keep_block_line, _is_explanation_line, _looks_like_code.
  destruct (startswith (strip line) (U "#")); [reflexivity|].
  destruct (is_empty (strip line)); [reflexivity|].
  destruct (contains_any (strip line) parser_code_indicators); [reflexivity|].
  now destruct (contains_any (strip line) explanation_patterns).
Qed.

Lemma keep_plain_line_spec (line : pystr) :
  keep_plain_line line
  = negb (is_empty (strip line)) && _looks_like_code line.
Proof.
  unfold keep_plain_line, _is_explanation_line.
  destruct (is_empty (strip line)); [reflexivity|]. cbn [negb andb].
  destruct (startswith (strip line) (U "#")); [reflexivity|].
  destruct (_looks_like_code line); [reflexivity|].
  now destruct (contains_any (strip line) explanation_patterns).
Qed.

(** X16. Only the first fenced block of the answer counts.  When the lines of
    the stripped answer are some lines without a fence, a line that opens
    a fence, a non-empty block of lines without a fence, and a line that
    is a closing fence, followed by anything, the code extracted is the
    block without its explanation lines (comments and blank lines are
    kept), joined by newlines: what precedes the block and what follows
    its closing fence play no part. *)
Theorem extract_code_first_block (answer : pystr)
    (pre body post : list pystr) (open close : pystr) :
  split_on NL (strip answer) = pre ++ [open] ++ body ++ [close] ++ post ->
  (forall l, In l pre -> startswith (strip l) (U "```") = false) ->
  startswith (strip open) (U "```") = true ->
  (forall l, In l body -> startswith (strip l) (U "```") = false) ->
  strip close = U "```" ->
  body <> [] ->
  extract_code_from_thinking answer
  = Some (join [NL] (filter (fun l => negb (_is_explanation_line l)) body))
  /\ (forall l, In l body ->
        startswith (strip l) (U "#") = true \/ strip l = [] ->
        In l (filter (fun l => negb (_is_explanation_line l)) body)).
Proof.
  intros Hlines Hpre Hopen Hbody Hclose Hne. split.
  - unfold extract_code_from_thinking. rewrite Hlines.
    rewrite code_block_lines_outside by assumption.
    cbn [app code_block_lines]. rewrite Hopen.
    cbn [andb negb]. rewrite orb_true_r.
    rewrite code_block_lines_inside by assumption.
    destruct body as [|l body]; [congruence|].
    now rewrite (filter_ext _ _ keep_block_line_spec).
  - intros l Hl Hkind. apply filter_In. split; [assumption|].
    rewrite <- keep_block_line_spec. unfold keep_block_line.
    destruct Hkind as [-> | ->]; [reflexivity|].
    now destruct (startswith [] (U "#")).
Qed.

(** X17. An answer without any fence.  When no line of the stripped answer
    starts a fence, the code extracted is made of its non-blank lines
    that look like code (a comment, or a line with one of the code
    indicators), in their order; there is no code when there is no such
    line. *)
Theorem extract_code_without_block (answer : pystr) :
  (forall l, In l (split_on NL (strip answer)) ->
     startswith (strip l) (U "```") = false) ->
  extract_code_from_thinking answer
  = match filter (fun l => negb (is_empty (strip l)) && _looks_like_code l)
                 (split_on NL (strip answer)) with
    | [] => None
    | code_lines => Some (join [NL] code_lines)
    end.
Proof.
  intros Hno. unfold extract_code_from_thinking.
  rewrite <- (app_nil_r (split_on NL (strip answer))) at 1.
  rewrite code_block_lines_outside by assumption.
  cbn [code_block_lines].
  rewrite (filter_ext _ _ keep_plain_line_spec).
  now destruct (filter _ _).
Qed.

(** X18. The deep analysis answers with success exactly when it has a
    non-empty code, the one extracted from the content of the message:
    with [success = True] comes a code that is not empty and is what
    [extract_code_from_thinking] found in the answer; with
    [success = False] comes no code; and a failure of the API gives
    [success = False]. *)
Theorem thinking_result_has_code (api : completion + pystr) :
  let t := thinking_result_of api in
  (th_success t = true ->
     exists response code,
       api = inl response
       /\ extract_code_from_thinking
            (final_answer (parse_thinking_response response)) = Some code
       /\ code <> [] /\ th_code t = Some code)
  /\ (th_success t = false -> th_code t = None)
  /\ (forall e, api = inr e -> th_success t = false).
Proof.
  cbv zeta. unfold thinking_result_of.
  destruct api as [response|e].
  - destruct (extract_code_from_thinking _) as [[|c cs]|] eqn:Hx;
      cbn [th_success th_code].
    + split; [discriminate|]. split; [reflexivity|]. discriminate.
    + split; [|split; discriminate].
      intros _. exists response, (c :: cs). now repeat split.
    + split; [discriminate|]. split; [reflexivity|]. discriminate.
  - cbn [th_success th_code]. split; [discriminate|]. split; reflexivity.
Qed.

End ThinkingParserProperties.

Lemma extract_code_first_block_witness :
  extract_code_from_thinking (Uc := ascii_unicode) fenced_answer
  = Some (join [NL] [U "# 清洗 Sales 列"; U "sales = df['Sales']";
                     U "print(sales.mean())"]).
Proof.
  destruct (@extract_code_first_block ascii_unicode fenced_answer
              [U "The column has to be cleaned first."]
              [U "# 清洗 Sales 列"; U "sales = df['Sales']";
               U "说明：先去掉符号"; U "print(sales.mean())"]
              [U "x = 1"] (U "```python") (U "```")) as [Hcode _].
  - vm_compute. reflexivity.
  - intros l [<-|[]]. vm_compute. reflexivity.
  - vm_compute. reflexivity.
  - intros l [<-|[<-|[<-|[<-|[]]]]]; vm_compute; reflexivity.
  - vm_compute. reflexivity.
  - discriminate.
  - rewrite Hcode. vm_compute. reflexivity.
Defined.

Lemma extract_code_without_block_witness :
  extract_code_from_thinking (Uc := ascii_unicode) plain_answer
  = Some (U "print(df['Sales'].mean())").
Proof.
  rewrite (@extract_code_without_block ascii_unicode plain_answer).
  - vm_compute. reflexivity.
  - intros l Hl. vm_compute in Hl.
    destruct Hl as [<-|[<-|[<-|[<-|[]]]]]; vm_compute; reflexivity.
Defined.

(** A block whose lines are all explanations yields the empty code, which
    the analyzer reports as a failure. *)
Example explanation_only_block :
  extract_code_from_thinking (Uc := ascii_unicode)
    (join [NL] [U "```"; U "说明：无需修改"; U "```"]) = Some []
  /\ thinking_result_of (Uc := ascii_unicode)
       (inl (Message None
               (Some (join [NL] [U "```"; U "说明：无需修改"; U "```"]))))
     = {| th_success := false; th_code := None |}.
Proof. vm_compute. split; reflexivity. Qed.

Lemma endswith_suffix (s p : pystr) : endswith (s ++ p) p = true.
Proof. unfold endswith. rewrite rev_app_distr. apply startswith_prefix. Qed.

Lemma slice_to_length {A} (l : list A) (stop : Z) :
  (0 <= stop)%Z ->
  Z.of_nat (length (slice_to l stop)) = Z.min stop (Z.of_nat (length l)).
Proof.
  intros Hstop. unfold slice_to, slice_bound. rewrite length_firstn.
  destruct (Z.ltb_spec stop 0); lia.
Qed.

Section DisplayProperties.
Context {Uc : PyUnicode}.

(** X19. The text shown for the thinking of the model is bounded: for a
    limit [max_length >= 0] it has at most [max_length + 3] characters,
    and when it has more than [max_length] it is a cut text that ends in
    ["..."]; an empty thinking gives the empty text. *)
Theorem thinking_display_is_bounded (thinking_content : pystr)
    (max_length : Z) :
  (0 <= max_length)%Z ->
  let shown := format_thinking_for_display thinking_content max_length in
  (Z.of_nat (length shown) <= max_length + 3)%Z
  /\ ((max_length < Z.of_nat (length shown))%Z ->
      endswith shown (U "...") = true)
  /\ (thinking_content = [] -> shown = []).
Proof.
  intros Hmax shown. subst shown. unfold format_thinking_for_display.
  destruct thinking_content as [|c cs]; cbn [is_empty].
  { split; [simpl; lia|]. split; [simpl; lia|reflexivity]. }
  set (formatted := join [NL] _).
  destruct (Z.ltb_spec max_length (Z.of_nat (length formatted))) as [Hlong|Hshort].
  - split; [|split; [|discriminate]].
    + rewrite length_app, Nat2Z.inj_add, slice_to_length by assumption.
      change (Z.of_nat (length (U "..."))) with 3%Z. lia.
    + intros _. apply endswith_suffix.
  - split; [lia|]. split; [lia|discriminate].
Qed.

End DisplayProperties.

Lemma thinking_display_is_bounded_witness :
  (Z.of_nat (length (format_thinking_for_display (Uc := ascii_unicode)
                       (join [NL] [U "先分析错误原因"; U "ok";
                                   U "所以需要清洗数据"]) 10))
   <= 13)%Z.
Proof.
  refine (proj1 (@thinking_display_is_bounded ascii_unicode _ 10 _)). lia.
Defined.

(** ** Cleaning of a generated answer *)

Lemma split_on_nonempty (sep : N) (s : pystr) : split_on sep s <> [].
Proof.
  destruct s as [|c s]; simpl; [discriminate|].
  destruct (c =? sep)%N; [discriminate|].
  destruct (split_on sep s); discriminate.
Qed.

Lemma join_cons (sep x : pystr) (rest : list pystr) :
  rest <> [] -> join sep (x :: rest) = x ++ sep ++ join sep rest.
Proof. destruct rest; [congruence|reflexivity]. Qed.

(** ['\n'.join(s.split('\n')) == s] *)
Lemma join_split_on (sep : N) (s : pystr) : join [sep] (split_on sep s) = s.
Proof.
  induction s as [|c s IH]; [reflexivity|].
  cbn [split_on]. destruct (N.eqb_spec c sep) as [->|Hc].
  - rewrite join_cons by apply split_on_nonempty. now rewrite IH.
  - pose proof (split_on_nonempty sep s) as Hne.
    destruct (split_on sep s) as [|w ws]; [congruence|].
    destruct ws as [|w' ws].
    + cbn [join] in *. now rewrite IH.
    + rewrite join_cons by discriminate.
      rewrite join_cons in IH by discriminate.
      rewrite <- IH. reflexivity.
Qed.

Lemma last_app_one {A} (l : list A) (x d : A) : last (l ++ [x]) d = x.
Proof. apply last_last. Qed.

Section CleanProperties.
Context {Uc : PyUnicode}.

(** X20. [_clean_code_response] unwraps a fenced answer and leaves an
    unfenced one alone.  When the first line of the stripped response
    does not start a fence and its last line is not a closing fence, the
    result is the stripped response, stripped again.  When the stripped
    response is a line that starts a fence, some lines, and a closing
    fence, the result is those lines, joined and stripped. *)
Theorem clean_code_response_unwraps (response : pystr) :
  let lines := split_on NL (strip response) in
  (startswith (strip (hd [] lines)) (U "```") = false ->
   strip (last lines []) <> U "```" ->
   _clean_code_response response = strip (strip response))
  /\ (forall open body close,
        lines = open :: body ++ [close] ->
        startswith (strip open) (U "```") = true ->
        strip close = U "```" ->
        _clean_code_response response = strip (join [NL] body)).
Proof.
  cbv zeta. unfold _clean_code_response. split.
  - intros Hfirst Hlast.
    pose proof (join_split_on NL (strip response)) as Hround.
    pose proof (split_on_nonempty NL (strip response)) as Hne.
    destruct (split_on NL (strip response)) as [|first rest]; [congruence|].
    cbn [hd] in Hfirst. rewrite Hfirst.
    apply str_eqb_neq in Hlast. rewrite Hlast. now rewrite Hround.
  - intros open body close -> Hopen Hclose. rewrite Hopen.
    destruct body as [|l body]; cbn [app].
    + cbn [last]. rewrite Hclose. reflexivity.
    + change (l :: body ++ [close]) with ((l :: body) ++ [close]).
      rewrite last_last, Hclose, removelast_last. reflexivity.
Qed.

End CleanProperties.

(** ** Configuration *)

Lemma split_on_no_sep (sep : N) (s : pystr) :
  ~ In sep s -> split_on sep s = [s].
Proof.
  induction s as [|c s IH]; intros Hno; [reflexivity|].
  cbn [split_on]. destruct (N.eqb_spec c sep) as [->|Hc].
  - exfalso. apply Hno. now left.
  - rewrite IH; [reflexivity|]. intros Hin. apply Hno. now right.
Qed.

Lemma split_on_app (sep : N) (s t : pystr) :
  ~ In sep s -> split_on sep (s ++ sep :: t) = s :: split_on sep t.
Proof.
  induction s as [|c s IH]; intros Hno.
  - cbn [app split_on]. now rewrite N.eqb_refl.
  - cbn [app split_on]. destruct (N.eqb_spec c sep) as [->|Hc].
    + exfalso. apply Hno. now left.
    + rewrite IH; [reflexivity|]. intros Hin. apply Hno. now right.
Qed.

(** X21. [Config.get] follows a dotted path one mapping at a time.  For a key
    [k] without a dot: [get(k)] is the value stored under [k], and the
    default when [k] is missing or bound to [None] (a stored [0], [False]
    or [''] is returned, not the default); [get(k + '.' + rest)] is
    [get(rest)] in the mapping stored under [k], and the default when
    what is stored under [k] is not a mapping.  A configuration that is
    not a mapping gives the default for every key. *)
Theorem config_get_follows_path (items : pydict yaml) (k rest : pystr)
    (default : yaml) :
  ~ In DOT k ->
  Config_get (YDict items) k default
    = match dict_get items k with
      | None | Some YNone => default
      | Some v => v
      end
  /\ Config_get (YDict items) (k ++ [DOT] ++ rest) default
     = match dict_get items k with
       | Some (YDict sub) => Config_get (YDict sub) rest default
       | _ => default
       end
  /\ (forall config key,
        (forall sub, config <> YDict sub) ->
        Config_get config key default = default).
Proof.
  intros Hk. unfold Config_get. split; [|split].
  - rewrite split_on_no_sep by assumption. cbn [config_lookup].
    destruct (dict_get items k) as [[]|]; reflexivity.
  - cbn [app]. rewrite split_on_app by assumption. cbn [config_lookup].
    pose proof (split_on_nonempty DOT rest) as Hne.
    destruct (dict_get items k) as [[]|]; try reflexivity;
      destruct (split_on DOT rest); try congruence; reflexivity.
  - intros config key Hnot.
    pose proof (split_on_nonempty DOT key) as Hne.
    destruct (split_on DOT key) as [|k0 ks]; [congruence|].
    destruct config; try reflexivity. exfalso. now apply (Hnot items0).
Qed.

Lemma config_get_follows_path_witness :
  Config_get demo_config (U "session.context_window") (YInt 3) = YInt 0
  /\ Config_get demo_config (U "logging.level") (YStr (U "INFO"))
     = YStr (U "INFO").
Proof.
  split.
  - destruct demo_config as [| | | | |l|items] eqn:Hcfg; try discriminate.
    injection Hcfg as <-.
    match goal with
    | |- Config_get (YDict ?items) _ _ = _ =>
      destruct (@config_get_follows_path items (U "session")
                  (U "context_window") (YInt 3)) as [_ [Hpath _]]
    end.
    + vm_compute. intuition discriminate.
    + change (U "session.context_window")
        with (U "session" ++ [DOT] ++ U "context_window").
      rewrite Hpath. vm_compute. reflexivity.
  - vm_compute. reflexivity.
Defined.

Lemma replace_items_map (env : pystr -> option pystr) (items : pydict yaml) :
  (fix replace_items (items : pydict yaml) : pydict yaml :=
     match items with
     | [] => []
     | (key, v) :: rest => (key, replace_value env v) :: replace_items rest
     end) items
  = _replace_env_vars env items.
Proof.
  unfold _replace_env_vars.
  induction items as [|[k v] items IH]; [reflexivity|].
  cbn [map fst snd]. now rewrite IH.
Qed.

Lemma replace_value_dict (env : pystr -> option pystr) (items : pydict yaml) :
  replace_value env (YDict items) = YDict (_replace_env_vars env items).
Proof. cbn [replace_value]. now rewrite replace_items_map. Qed.

Lemma dict_get_replaced (env : pystr -> option pystr) (items : pydict yaml)
    (k : pystr) :
  dict_get (_replace_env_vars env items) k
  = option_map (replace_value env) (dict_get items k).
Proof.
  unfold _replace_env_vars.
  induction items as [|[k0 v0] items IH]; [reflexivity|].
  cbn [map fst snd dict_get]. destruct (str_eqb k0 k); [reflexivity|exact IH].
Qed.

Lemma replace_value_unset (env : pystr -> option pystr) :
  (forall name, env name = None) -> forall v, replace_value env v = v.
Proof.
  intros Hnone. fix IH 1. intros [| | | |s|l|items]; try reflexivity.
  - cbn [replace_value]. rewrite Hnone. now destruct (is_placeholder s).
  - cbn [replace_value]. f_equal.
    induction items as [|[k v] items IHitems]; [reflexivity|].
    now rewrite IH, IHitems.
Qed.

(** X22. [_replace_env_vars] touches the placeholders under mappings and
    nothing else.  It keeps the keys and their order; a value that is
    neither a mapping nor a text of the form ["${...}"] is stored as it
    was, a list included (placeholders inside a list are not replaced);
    a placeholder becomes the value of its variable when the environment
    has it and stays as written otherwise, in nested mappings as well;
    and with no variable set the configuration is unchanged. *)
Theorem replace_env_vars_touches_placeholders_only
    (env : pystr -> option pystr) (config_dict : pydict yaml) :
  map fst (_replace_env_vars env config_dict) = map fst config_dict
  /\ (forall k v, dict_get config_dict k = Some v ->
        dict_get (_replace_env_vars env config_dict) k
        = Some match v with
               | YDict sub => YDict (_replace_env_vars env sub)
               | YStr s =>
                 if is_placeholder s
                 then YStr (match env (slice s 2 (-1)) with
                            | Some e => e
                            | None => s
                            end)
                 else v
               | _ => v
               end)
  /\ (forall k, dict_get config_dict k = None ->
        dict_get (_replace_env_vars env config_dict) k = None)
  /\ ((forall name, env name = None) ->
      _replace_env_vars env config_dict = config_dict).
Proof.
  split; [|split; [|split]].
  - unfold _replace_env_vars. rewrite map_map. cbn [fst]. reflexivity.
  - intros k v Hk. rewrite dict_get_replaced, Hk. cbn [option_map].
    destruct v; try reflexivity. now rewrite replace_value_dict.
  - intros k Hk. now rewrite dict_get_replaced, Hk.
  - intros Hnone. unfold _replace_env_vars.
    induction config_dict as [|[k v] items IH]; [reflexivity|].
    cbn [map fst snd]. now rewrite (@replace_value_unset env Hnone), IH.
Qed.

(** The placeholders of the configuration file, resolved. *)
Example replace_env_vars_example :
  match demo_config with
  | YDict items =>
    Config_get (YDict (_replace_env_vars demo_env items)) (U "llm.api_key")
      YNone = YStr (U "secret")
    /\ Config_get (YDict (_replace_env_vars demo_env items)) (U "llm.stop")
         YNone = YList [YStr (U "${STOP}")]
  | _ => False
  end.
Proof. vm_compute. split; reflexivity. Qed.

(** ** Compactor: the summary *)

Section SummaryProperties.
Context {Uc : PyUnicode}.

Local Abbreviation failed_item :=
  (fun it : nat * turn_dict => negb (success (d_result (snd it)))).
Local Abbreviation error_entry :=
  (fun it : nat * turn_dict =>
     ((Z.of_nat (fst it) + 1)%Z,
      get_or (error_type (d_result (snd it))) (U "Unknown") ++ U ": "
      ++ firstn 100 (get_or (error (d_result (snd it))) []))).

Lemma extract_turn_errors (i : nat) (turn : turn_dict) (k : key_information) :
  errors_encountered (extract_turn i turn k)
  = errors_encountered k
    ++ if failed_item (i, turn) then [error_entry (i, turn)] else [].
Proof.
  unfold extract_turn. cbn [errors_encountered fst snd].
  destruct (negb (success (d_result turn))); [reflexivity|].
  now rewrite app_nil_r.
Qed.

Lemma extract_from_errors (history : list turn_dict) :
  forall i k,
    errors_encountered (extract_from i history k)
    = errors_encountered k
      ++ map error_entry
           (filter failed_item (combine (seq i (length history)) history)).
Proof.
  induction history as [|turn history IH]; intros i k.
  - cbn. now rewrite app_nil_r.
  - cbn [extract_from length seq combine filter].
    rewrite IH, extract_turn_errors, <- app_assoc.
    destruct (failed_item (i, turn)); reflexivity.
Qed.

Lemma turn_to_dict_success (turn : ConversationTurn) :
  success (d_result (turn_to_dict true turn)) = success (execution_result turn).
Proof.
  unfold turn_to_dict. cbn [d_result].
  destruct (success (execution_result turn)) eqn:Hs; [|reflexivity].
  now destruct (plot_saved (execution_result turn)) as [[|]|].
Qed.

Lemma combine_seq_map {A B} (f : A -> B) (l : list A) :
  forall i,
    combine (seq i (length (map f l))) (map f l)
    = map (fun it => (fst it, f (snd it))) (combine (seq i (length l)) l).
Proof.
  induction l as [|x l IH]; intros i; [reflexivity|].
  cbn [map length seq combine fst snd]. now rewrite IH.
Qed.

(** X23. The errors listed in a summary.  For every history, the list
    [errors_encountered] holds one entry per turn whose result is not
    successful, in order, with the position of the turn counted from 1
    and the text [<error_type>: <first 100 characters of error>], where a
    missing type reads [Unknown] and a missing error is empty.  In the
    histories a session hands to the compactor the results of failed
    turns carry no detail, so every entry reads [Unknown: ]. *)
Theorem summary_errors_are_failed_turns (history : list turn_dict)
    (ts : list ConversationTurn) :
  errors_encountered (_extract_key_information history)
  = map (fun it : nat * turn_dict =>
           ((Z.of_nat (fst it) + 1)%Z,
            get_or (error_type (d_result (snd it))) (U "Unknown") ++ U ": "
            ++ firstn 100 (get_or (error (d_result (snd it))) [])))
        (filter (fun it => negb (success (d_result (snd it))))
                (combine (seq 0 (length history)) history))
  /\ errors_encountered (_extract_key_information (_turns_to_dicts ts true))
     = map (fun it : nat * ConversationTurn =>
              ((Z.of_nat (fst it) + 1)%Z, U "Unknown: "))
           (filter (fun it => negb (success (execution_result (snd it))))
                   (combine (seq 0 (length ts)) ts)).
Proof.
  split.
  - unfold _extract_key_information. rewrite extract_from_errors. reflexivity.
  - unfold _extract_key_information. rewrite extract_from_errors.
    cbn [errors_encountered app]. unfold _turns_to_dicts.
    rewrite combine_seq_map.
    generalize (combine (seq 0 (length ts)) ts). intros items.
    induction items as [|[i turn] items IH]; [reflexivity|].
    cbn [map filter fst snd]. rewrite turn_to_dict_success.
    destruct (success (execution_result turn)) eqn:Hs; cbn [negb].
    + exact IH.
    + cbn [map fst snd]. rewrite IH. f_equal. f_equal.
      rewrite (@turn_to_dict_failed turn Hs). reflexivity.
Qed.

Local Abbreviation heading := (U "## 历史对话摘要" ++ [NL]).
Local Abbreviation placeholder := (U "*（早期对话未发现关键信息）*").
Local Abbreviation sections key_info :=
  (summary_section (U "### 关键决策") 5 (important_decisions key_info)
   ++ summary_section (U "### 主要代码操作") 5 (code_changes key_info)
   ++ summary_section (U "### 遇到的错误") 3 (errors_encountered key_info)
   ++ summary_section (U "### 关键发现") 5 (key_findings key_info)).

Lemma summary_section_nil (title : pystr) (cap : nat)
    (entries : list (Z * pystr)) :
  summary_section title cap entries = [] <-> entries = [].
Proof.
  destruct entries; [tauto|]. split; discriminate.
Qed.

(** X24. The placeholder of an empty summary.  Without a custom instruction
    the summary is the heading and the sections, and the line that says
    that nothing was found is added exactly when all four lists of key
    information are empty.  With a custom instruction the summary is the
    instruction, the heading and the sections, and that line is never
    added, not even when nothing was found: the test
    [len(summary_parts) == 1] counts the instruction. *)
Theorem summary_placeholder (key_info : key_information) :
  _create_summary key_info None
    = join [NL]
        ([heading] ++ sections key_info
         ++ match important_decisions key_info, code_changes key_info,
                  errors_encountered key_info, key_findings key_info with
            | [], [], [], [] => [placeholder]
            | _, _, _, _ => []
            end)
  /\ (forall c cs,
        _create_summary key_info (Some (c :: cs))
        = join [NL]
            ([U "**压缩说明**: " ++ (c :: cs) ++ [NL]] ++ [heading]
             ++ sections key_info))
  /\ _create_summary key_info (Some []) = _create_summary key_info None.
Proof.
  split; [|split].
  - unfold _create_summary. cbv zeta. rewrite <- !app_assoc.
    cbn [app length Nat.eqb].
    destruct (important_decisions key_info) as [|d ds];
      [destruct (code_changes key_info) as [|x xs];
       [destruct (errors_encountered key_info) as [|e es];
        [destruct (key_findings key_info) as [|f fs]; [reflexivity|]|]|]|];
      cbn [summary_section app length Nat.eqb];
      rewrite ?app_nil_r; reflexivity.
  - intros c cs. unfold _create_summary. cbv zeta. rewrite <- !app_assoc.
    cbn [app length Nat.eqb]. reflexivity.
  - reflexivity.
Qed.

(** X25. Compacting a compacted history keeps the recent turns.  With
    [1 <= keep_recent < len(history)], compacting the result of [compact]
    once more gives a history of the same length whose turns after the
    first are the same last [keep_recent] turns of the original; only the
    summary turn is replaced, by a summary of the previous summary. *)
Theorem compact_twice_keeps_recent (self : ConversationCompactor)
    (history : list turn_dict) (ci ci' : option pystr) :
  (1 <= keep_recent self < Z.of_nat (length history))%Z ->
  let once := compact self history ci in
  let twice := compact self once ci' in
  length twice = length once
  /\ tl twice = tl once
  /\ tl once = skipn (length history - Z.to_nat (keep_recent self)) history
  /\ hd_error twice
     = Some (summary_turn
               (_create_summary
                  (_extract_key_information (firstn 1 once)) ci')).
Proof.
  intros Hk once twice.
  assert (Honce : once
            = summary_turn
                (_create_summary
                   (_extract_key_information
                      (firstn (length history - Z.to_nat (keep_recent self))
                              history)) ci)
              :: skipn (length history - Z.to_nat (keep_recent self)) history).
  { subst once. now rewrite compact_long by assumption. }
  assert (Hlen : length once = S (Z.to_nat (keep_recent self))).
  { rewrite Honce. cbn [length]. rewrite length_skipn. lia. }
  assert (Htwice : twice
            = summary_turn
                (_create_summary (_extract_key_information (firstn 1 once)) ci')
              :: skipn 1 once).
  { subst twice. rewrite compact_long by lia. cbv zeta.
    replace (length once - Z.to_nat (keep_recent self)) with 1 by lia.
    reflexivity. }
  rewrite Htwice. cbn [length tl hd_error].
  split; [|split; [|split]].
  - rewrite length_skipn. lia.
  - rewrite Honce. reflexivity.
  - rewrite Honce. reflexivity.
  - reflexivity.
Qed.

End SummaryProperties.

Lemma compact_twice_keeps_recent_witness :
  tl (compact (Uc := ascii_unicode) small_compactor
        (compact (Uc := ascii_unicode) small_compactor
           [turn_a; turn_b; turn_a] None) None)
  = [turn_a].
Proof.
  destruct (@compact_twice_keeps_recent ascii_unicode small_compactor
              [turn_a; turn_b; turn_a] None None) as [_ [Htl [Hrecent _]]].
  - cbn. lia.
  - rewrite Htl, Hrecent. reflexivity.
Defined.

(** ** Prompt manager *)

Section PromptEstimate.
Context {F : PyFloat} {M : PyFloatMonotone}.

(** X26. The estimate of the prompt manager is a lower bound of the estimate
    of the token counter: for every non-empty text it is the value the
    token counter computes with the weight of prose, equal to its
    estimate when the text is not code-heavy and at most its estimate
    when it is. *)
Theorem prompt_estimate_is_lower_bound (text : pystr) :
  text <> [] ->
  (estimate_token_count text <= estimate_tokens text)%Z
  /\ (is_code_heavy text = false ->
      estimate_token_count text = estimate_tokens text)
  /\ (0 <= estimate_token_count text)%Z.
Proof.
  intros Hne.
  assert (Hcount : estimate_token_count text
                   = weighted false (chinese_count text) (english_chars text))
    by reflexivity.
  rewrite Hcount, estimate_tokens_weighted by assumption.
  pose proof (chinese_count_bounds text) as Hc.
  pose proof (english_chars_nonneg text) as He.
  split; [|split].
  - apply weighted_mono; [lia|lia|discriminate].
  - now intros ->.
  - apply weighted_nonneg; lia.
Qed.

End PromptEstimate.

Lemma prompt_estimate_is_lower_bound_witness :
  (estimate_token_count (F := exact_float) (U "数据 ok")
   <= estimate_tokens (F := exact_float) (U "数据 ok"))%Z.
Proof.
  refine (proj1 (@prompt_estimate_is_lower_bound exact_float
                   exact_float_monotone (U "数据 ok") _)).
  discriminate.
Defined.

Lemma combine_seq_shift {A B} (f : nat * A -> B) (l : list A) :
  forall a n,
    map f (combine (seq (S a) n) l)
    = map (fun it => f (S (fst it), snd it)) (combine (seq a n) l).
Proof.
  induction l as [|x l IH]; intros a n.
  - now rewrite !combine_nil.
  - destruct n as [|n]; [reflexivity|].
    cbn [seq combine map fst snd]. now rewrite IH.
Qed.

Lemma list_sum_cons (a : nat) (l : list nat) :
  list_sum (a :: l) = a + list_sum l.
Proof. reflexivity. Qed.

Section FormatHistory.
Context {Uc : PyUnicode}.
Variables max_length_per_turn max_total_length : Z.

Local Abbreviation omitted := ([NL] ++ U "... (更早的历史已省略)").
Local Abbreviation turn_text i :=
  (fun it : nat * turn_dict =>
     format_turn max_length_per_turn (i + Z.of_nat (fst it)) (snd it)).
Local Abbreviation total_length texts :=
  (Z.of_nat (list_sum (map (@length N) texts))).

Lemma format_turns_prefix (history : list turn_dict) :
  forall i current_length,
  exists kept,
    kept <= length history
    /\ let texts := map (turn_text i)
                        (combine (seq 0 kept) (firstn kept history)) in
       format_turns max_length_per_turn max_total_length i history
         current_length
       = texts ++ (if kept <? length history then [omitted] else [])
       /\ (kept <> 0 ->
           (current_length + total_length texts <= max_total_length)%Z)
       /\ (forall turn, nth_error history kept = Some turn ->
             (max_total_length
              < current_length + total_length texts
                + Z.of_nat (length (format_turn max_length_per_turn
                                      (i + Z.of_nat kept) turn)))%Z).
Proof.
  induction history as [|turn rest IH]; intros i current_length.
  - exists 0. split; [apply le_n|]. cbv zeta. split; [reflexivity|].
    split; [congruence|]. intros turn Hnth. discriminate.
  - cbn [format_turns].
    destruct (Z.ltb_spec max_total_length
                (current_length
                 + Z.of_nat (length (format_turn max_length_per_turn i turn))))
      as [Hover|Hfits].
    + exists 0. split; [cbn; lia|]. cbv zeta. split; [reflexivity|].
      split; [congruence|]. intros turn' [= <-].
      cbn [map combine seq firstn list_sum fold_right Z.of_nat].
      rewrite !Z.add_0_r. lia.
    + destruct (IH (i + 1)%Z
                   (current_length
                    + Z.of_nat (length (format_turn max_length_per_turn i turn)))%Z)
        as [kept [Hkept [Htexts [Hbudget Hnext]]]].
      exists (S kept). split; [cbn; lia|]. cbv zeta.
      cbn [firstn seq combine map fst snd length].
      rewrite combine_seq_shift. cbn [fst snd].
      assert (Hsame : map (fun it : nat * turn_dict =>
                             format_turn max_length_per_turn
                               (i + Z.of_nat (S (fst it))) (snd it))
                          (combine (seq 0 kept) (firstn kept rest))
                      = map (turn_text (i + 1)%Z)
                            (combine (seq 0 kept) (firstn kept rest))).
      { apply map_ext. intros [j t]. cbn [fst snd]. f_equal. lia. }
      rewrite Hsame, Z.add_0_r.
      split; [|split].
      * rewrite Htexts. reflexivity.
      * intros _. cbn [map]. rewrite list_sum_cons, Nat2Z.inj_add.
        destruct kept as [|kept'].
        -- cbn [seq combine map list_sum fold_right firstn Z.of_nat]. lia.
        -- specialize (Hbudget ltac:(discriminate)). lia.
      * intros turn' Hnth. cbn [nth_error] in Hnth.
        specialize (Hnext turn' Hnth). cbn [map].
        rewrite list_sum_cons, Nat2Z.inj_add.
        replace (i + Z.of_nat (S kept))%Z with (i + 1 + Z.of_nat kept)%Z by lia.
        lia.
Qed.

(** X27. The history of a prompt keeps the oldest turns.  For a non-empty
    history the text is the title followed by the texts of the first
    [kept] turns, numbered from 1, and, when turns are left out, by the
    line that says so: the turns left out are the most recent ones.
    What is kept fits the budget (the title and the texts of the kept turns
    have at most [max_total_length] characters together), and the first
    turn left out is the first whose text would exceed it. *)
Theorem format_history_keeps_oldest (history : list turn_dict) :
  history <> [] ->
  exists kept,
    kept <= length history
    /\ let texts :=
         map (fun it : nat * turn_dict =>
                format_turn max_length_per_turn (Z.of_nat (fst it) + 1)
                  (snd it))
             (combine (seq 0 kept) (firstn kept history)) in
       format_history history max_length_per_turn max_total_length
       = join [NL]
           (U "【对话历史】" :: texts
            ++ (if kept <? length history
                then [[NL] ++ U "... (更早的历史已省略)"] else []))
       /\ (kept <> 0 ->
           (6 + Z.of_nat (list_sum (map (@length N) texts))
            <= max_total_length)%Z)
       /\ (forall turn, nth_error history kept = Some turn ->
             (max_total_length
              < 6 + Z.of_nat (list_sum (map (@length N) texts))
                + Z.of_nat (length (format_turn max_length_per_turn
                                      (Z.of_nat kept + 1) turn)))%Z).
Proof.
  intros Hne.
  destruct (format_turns_prefix history 1 6) as [kept [Hkept [Htexts [Hb Hn]]]].
  exists kept. split; [assumption|]. cbv zeta.
  assert (Hsame : map (fun it : nat * turn_dict =>
                         format_turn max_length_per_turn
                           (Z.of_nat (fst it) + 1) (snd it))
                      (combine (seq 0 kept) (firstn kept history))
                  = map (turn_text 1%Z)
                        (combine (seq 0 kept) (firstn kept history))).
  { apply map_ext. intros [j t]. cbn [fst snd]. f_equal. lia. }
  rewrite Hsame. split; [|split].
  - unfold format_history. destruct history as [|t ts]; [congruence|].
    change (Z.of_nat (length (U "【对话历史】"))) with 6%Z.
    now rewrite Htexts.
  - exact Hb.
  - intros turn Hnth. specialize (Hn turn Hnth).
    now rewrite (Z.add_comm (Z.of_nat kept) 1).
Qed.

End FormatHistory.

Lemma format_history_keeps_oldest_witness :
  exists kept,
    kept <= 2
    /\ format_history (Uc := ascii_unicode) [turn_a; turn_b] 500 70
       = join [NL]
           (U "【对话历史】"
            :: map (fun it : nat * turn_dict =>
                      format_turn (Uc := ascii_unicode) 500
                        (Z.of_nat (fst it) + 1) (snd it))
                   (combine (seq 0 kept) (firstn kept [turn_a; turn_b]))
            ++ (if kept <? 2 then [[NL] ++ U "... (更早的历史已省略)"] else [])).
Proof.
  destruct (@format_history_keeps_oldest ascii_unicode 500 70 [turn_a; turn_b])
    as [kept [Hkept [Htext _]]]; [discriminate|].
  exists kept. split; [exact Hkept|exact Htext].
Defined.

(** With a budget of 70 characters the first turn is kept and the second,
    the most recent one, is left out. *)
Example format_history_drops_recent :
  format_history (Uc := ascii_unicode) [turn_a; turn_b] 500 70
  = join [NL]
      [U "【对话历史】";
       format_turn (Uc := ascii_unicode) 500 1 turn_a;
       [NL] ++ U "... (更早的历史已省略)"]
  /\ length (format_turn (Uc := ascii_unicode) 500 1 turn_a) = 57.
Proof. vm_compute. split; reflexivity. Qed.

(** ** Compactor: the key information *)

Section KeyInformationProperties.
Context {Uc : PyUnicode}.

Local Abbreviation entries_within lo hi cap :=
  (Forall (fun e : Z * pystr =>
             (lo < fst e <= hi)%Z /\ length (snd e) <= cap)).

Lemma entries_within_weaken (lo hi hi' : Z) (cap : nat) (l : list (Z * pystr)) :
  (hi <= hi')%Z -> entries_within lo hi cap l -> entries_within lo hi' cap l.
Proof.
  intros Hhi. apply Forall_impl. intros e [Hn Hlen]. split; [lia|assumption].
Qed.

Lemma join_lines_length (parts : list pystr) :
  Forall (fun p => length p <= 60) parts -> parts <> [] ->
  length (join (U "; ") parts) + 2 <= length parts * 62.
Proof.
  induction 1 as [|p parts Hp Hparts IH]; intros Hne; [congruence|].
  destruct parts as [|q parts]; [cbn [join length]; lia|].
  rewrite join_cons by discriminate. rewrite !length_app.
  change (length (U "; ")) with 2.
  specialize (IH ltac:(discriminate)). cbn [length] in *. lia.
Qed.

Lemma key_lines_bound (code : pystr) :
  length (join (U "; ") (key_lines code)) <= 184.
Proof.
  assert (Hparts : Forall (fun p => length p <= 60) (key_lines code)).
  { unfold key_lines. apply Forall_forall. intros p Hp.
    apply in_map_iff in Hp. destruct Hp as [q [<- _]].
    rewrite length_firstn. lia. }
  assert (Hcount : length (key_lines code) <= 3).
  { unfold key_lines. rewrite length_map, length_firstn. lia. }
  destruct (key_lines code) as [|l ls] eqn:Hkl; [cbn; lia|].
  pose proof (join_lines_length Hparts ltac:(discriminate)) as Hjoin.
  cbn [length] in *. lia.
Qed.

Lemma extract_turn_bounds (i : nat) (turn : turn_dict) (k : key_information) :
  let n := Z.of_nat i in
  entries_within 0 n 100 (important_decisions k) ->
  entries_within 0 n 184 (code_changes k) ->
  Forall (fun e : Z * pystr => (0 < fst e <= n)%Z) (errors_encountered k) ->
  entries_within 0 n 150 (key_findings k) ->
  let k' := extract_turn i turn k in
  entries_within 0 (n + 1) 100 (important_decisions k')
  /\ entries_within 0 (n + 1) 184 (code_changes k')
  /\ Forall (fun e : Z * pystr => (0 < fst e <= n + 1)%Z) (errors_encountered k')
  /\ entries_within 0 (n + 1) 150 (key_findings k').
Proof.
  intros n Hd Hc He Hf k'. subst k'. unfold extract_turn.
  cbn [important_decisions code_changes errors_encountered key_findings].
  assert (Hup : forall cap l, entries_within 0 n cap l ->
                              entries_within 0 (n + 1) cap l).
  { intros cap l. apply entries_within_weaken. lia. }
  assert (Hnew : forall cap l text, entries_within 0 n cap l ->
            length text <= cap ->
            entries_within 0 (n + 1) cap (l ++ [((n + 1)%Z, text)])).
  { intros cap l text Hl Htext. apply Forall_app. split; [now apply Hup|].
    constructor; [|constructor]. cbn [fst snd]. split; [lia|assumption]. }
  split; [|split; [|split]].
  - destruct (existsb _ decision_keywords); [|now apply Hup].
    apply Hnew; [assumption|]. rewrite length_firstn. lia.
  - destruct (d_code turn) as [|c cs] eqn:Hcode; [now apply Hup|].
    destruct (50 <? length (c :: cs)); [|now apply Hup].
    pose proof (key_lines_bound (c :: cs)) as Hkl.
    destruct (key_lines (c :: cs)) as [|l ls]; [now apply Hup|].
    now apply Hnew.
  - destruct (negb (success (d_result turn))).
    + apply Forall_app. split.
      * revert He. apply Forall_impl. intros e. lia.
      * constructor; [|constructor]. cbn [fst]. lia.
    + revert He. apply Forall_impl. intros e. lia.
  - destruct (existsb _ finding_keywords); [|now apply Hup].
    apply Hnew; [assumption|]. rewrite length_firstn. lia.
Qed.

Lemma extract_from_bounds (history : list turn_dict) :
  forall i k,
    let n := Z.of_nat i in
    entries_within 0 n 100 (important_decisions k) ->
    entries_within 0 n 184 (code_changes k) ->
    Forall (fun e : Z * pystr => (0 < fst e <= n)%Z) (errors_encountered k) ->
    entries_within 0 n 150 (key_findings k) ->
    let m := Z.of_nat (i + length history) in
    let k' := extract_from i history k in
    entries_within 0 m 100 (important_decisions k')
    /\ entries_within 0 m 184 (code_changes k')
    /\ Forall (fun e : Z * pystr => (0 < fst e <= m)%Z) (errors_encountered k')
    /\ entries_within 0 m 150 (key_findings k').
Proof.
  induction history as [|turn history IH]; intros i k n Hd Hc He Hf m k'.
  - subst m k'. cbn [length extract_from]. rewrite Nat.add_0_r.
    now repeat split.
  - subst m k'. cbn [length extract_from].
    destruct (@extract_turn_bounds i turn k Hd Hc He Hf) as [Hd' [Hc' [He' Hf']]].
    replace (Z.of_nat i + 1)%Z with (Z.of_nat (S i)) in * by lia.
    replace (i + S (length history)) with (S i + length history) by lia.
    now apply IH.
Qed.

(** X28. The key information extracted from a history is bounded.  Every entry
    carries the position of its turn, between 1 and the length of the
    history; a decision is cut to 100 characters, a finding to 150, and
    the summary of a code change, at most three lines of 60 characters
    joined by ["; "], has at most 184. *)
Theorem key_information_is_bounded (history : list turn_dict) :
  let key_info := _extract_key_information history in
  let len := Z.of_nat (length history) in
  Forall (fun e : Z * pystr => (1 <= fst e <= len)%Z /\ length (snd e) <= 100)
         (important_decisions key_info)
  /\ Forall (fun e : Z * pystr => (1 <= fst e <= len)%Z /\ length (snd e) <= 184)
            (code_changes key_info)
  /\ Forall (fun e : Z * pystr => (1 <= fst e <= len)%Z)
            (errors_encountered key_info)
  /\ Forall (fun e : Z * pystr => (1 <= fst e <= len)%Z /\ length (snd e) <= 150)
            (key_findings key_info).
Proof.
  cbv zeta. unfold _extract_key_information.
  destruct (@extract_from_bounds history 0
              {| important_decisions := []; code_changes := [];
                 errors_encountered := []; key_findings := [] |})
    as [Hd [Hc [He Hf]]]; [constructor|constructor|constructor|constructor|].
  cbn [Nat.add] in *.
  split; [|split; [|split]];
    [revert Hd|revert Hc|revert He|revert Hf];
    apply Forall_impl; intros e; lia.
Qed.

End KeyInformationProperties.

(** ** Retry loop: the budget of executions *)

Section ExecutionBudget.
Context {Uc : PyUnicode} {R : PyRuntime} {L : LLMServices}.
Variable max_retries : Z.
Variable question : pystr.
Variable info : df_info.
Variable history : list turn_dict.
Variable plot : pystr.

Local Abbreviation body :=
  (attempt_body max_retries question info history plot).
Local Abbreviation loop :=
  (retry_loop max_retries question info history plot).

(** An attempt calls the executor at most once, the first attempt at most
    twice (the second call runs the candidate of the deep analysis), and
    only the first attempt asks for the deep analysis, at most once. *)
Lemma body_execution_calls (attempt : nat) (st : loop_state) (w : World) :
  let w' := snd (body attempt st w) in
  execution_calls (trace w')
    <= execution_calls (trace w) + (if Nat.eqb attempt 0 then 2 else 1)
  /\ thinking_calls (trace w')
     <= thinking_calls (trace w) + (if Nat.eqb attempt 0 then 1 else 0)
  /\ thinking_calls (trace w') <= thinking_calls (trace w)
                                  + (execution_calls (trace w')
                                     - execution_calls (trace w)).
Proof.
  cbv zeta.
  assert (Hann : execution_calls [announce max_retries attempt] = 0
                 /\ thinking_calls [announce max_retries attempt] = 0)
    by (destruct attempt; split; reflexivity).
  destruct Hann as [Hae Hat].
  unfold attempt_body. cbn [emit llm sandbox trace].
  destruct (generate_code _ _ _ _ _ _) as [[code|e] l].
  - unfold run_execute, emit. cbn [llm sandbox trace].
    destruct (execute (sandbox w) code) as [[r|e] sb].
    2:{ unfold on_exception, emit. cbn [llm sandbox trace].
        destruct (_ <? _)%Z; cbn [snd trace];
          rewrite !execution_calls_app, !thinking_calls_app, Hae, Hat;
          destruct attempt; cbn; lia. }
    destruct (success r); cbn [snd trace llm sandbox].
    { rewrite !execution_calls_app, !thinking_calls_app, Hae, Hat.
      destruct attempt; cbn; lia. }
    destruct attempt as [|n]; cbn [snd trace Nat.eqb].
    2: { rewrite !execution_calls_app, !thinking_calls_app, Hae, Hat.
         cbn. lia. }
    unfold deep_analysis. cbn [emit llm sandbox trace].
    destruct (analyze_error_with_thinking _ _ _ _ _ _) as [[t|e] l'].
    + destruct (th_success t), (th_code t) as [[|c cs]|];
        cbn [snd trace];
        try (rewrite !execution_calls_app, !thinking_calls_app, Hae, Hat;
             cbn; lia).
      unfold run_execute, emit. cbn [llm sandbox trace].
      destruct (execute sb (c :: cs)) as [[r'|e'] sb'].
      * destruct (success r'); cbn [snd trace];
          rewrite !execution_calls_app, !thinking_calls_app, Hae, Hat;
          cbn; lia.
      * unfold on_exception, emit. cbn [llm sandbox trace].
        destruct (_ <? _)%Z; cbn [snd trace];
          rewrite !execution_calls_app, !thinking_calls_app, Hae, Hat;
          cbn; lia.
    + unfold on_exception, emit. cbn [llm sandbox trace].
      destruct (_ <? _)%Z; cbn [snd trace];
        rewrite !execution_calls_app, !thinking_calls_app, Hae, Hat;
        cbn; lia.
  - unfold on_exception, emit. cbn [llm sandbox trace].
    destruct (_ <? _)%Z; cbn [snd trace];
      rewrite !execution_calls_app, !thinking_calls_app, Hae, Hat;
      destruct attempt; cbn; lia.
Qed.

Lemma loop_execution_calls (attempts : list nat) :
  forall st w,
    let w' := snd (loop attempts st w) in
    execution_calls (trace w')
      <= execution_calls (trace w) + length attempts
         + length (filter (Nat.eqb 0) attempts)
    /\ thinking_calls (trace w')
       <= thinking_calls (trace w) + length (filter (Nat.eqb 0) attempts).
Proof.
  induction attempts as [|a attempts IH]; intros st w; cbv zeta.
  - cbn. lia.
  - cbn [retry_loop].
    pose proof (body_execution_calls a st w) as Hbody. cbv zeta in Hbody.
    destruct (body a st w) as [[c r n|st'] w']; cbn [snd] in *.
    + cbn [filter length]. destruct a; cbn [Nat.eqb length] in *; lia.
    + specialize (IH st' w'). cbv zeta in IH.
      cbn [filter length]. destruct a; cbn [Nat.eqb length] in *; lia.
Qed.

Lemma filter_zero_seq (n : nat) :
  length (filter (Nat.eqb 0) (seq 0 n)) <= 1.
Proof.
  destruct n as [|n]; [cbn; lia|].
  cbn [seq filter Nat.eqb length].
  assert (Hrest : forall a k, filter (Nat.eqb 0) (seq (S a) k) = []).
  { intros a k. revert a. induction k as [|k IHk]; intros a; [reflexivity|].
    cbn [seq filter Nat.eqb]. apply IHk. }
  rewrite Hrest. cbn. lia.
Qed.

(** X29. The budget of executions of a question: the executor is called at
    most [max_retries + 1] times, once per attempt and once more for the
    candidate of the deep analysis, and the deep analysis is asked at most
    once. *)
Theorem execution_budget (w : World) :
  (0 <= max_retries)%Z ->
  let run := _generate_and_execute_with_retry max_retries question info
               history plot w in
  execution_calls (trace (snd run))
    <= execution_calls (trace w) + Z.to_nat max_retries + 1
  /\ thinking_calls (trace (snd run)) <= thinking_calls (trace w) + 1.
Proof.
  intros Hmax run. subst run. unfold _generate_and_execute_with_retry.
  pose proof (loop_execution_calls (seq 0 (Z.to_nat max_retries))
                initial_loop_state w) as Hloop.
  cbv zeta in Hloop. rewrite length_seq in Hloop.
  pose proof (filter_zero_seq (Z.to_nat max_retries)) as Hzero.
  lia.
Qed.

End ExecutionBudget.

Lemma execution_budget_witness :
  let run := @_generate_and_execute_with_retry ascii_unicode
               (demo_runtime true) healing_llm 3
               (U "q") tt [] (U "plot.png") (demo_world healing_llm 0%nat) in
  execution_calls (trace (snd run)) <= 4.
Proof.
  cbv zeta.
  destruct (@execution_budget ascii_unicode (demo_runtime true) healing_llm
              3%Z (U "q") tt [] (U "plot.png") (demo_world healing_llm 0%nat))
    as [Hcalls _]; [lia|].
  exact Hcalls.
Defined.

(** ** Session: the latest turn *)

Lemma last_map {A B} (f : A -> B) (l : list A) (d : B) (a : A) :
  l <> [] -> last (map f l) d = f (last l a).
Proof.
  induction l as [|x l IH]; intros Hne; [congruence|].
  destruct l as [|y l]; [reflexivity|].
  cbn [map last] in *. apply IH. discriminate.
Qed.

Lemma last_skipn {A} (l : list A) (k : nat) (d : A) :
  k < length l -> last (skipn k l) d = last l d.
Proof.
  revert k. induction l as [|x l IH]; intros k Hk; [cbn in Hk; lia|].
  destruct k as [|k]; [reflexivity|].
  cbn [skipn]. cbn [length] in Hk. rewrite IH by lia.
  destruct l as [|y l]; [cbn in Hk; lia|reflexivity].
Qed.

Lemma skipn_nonempty {A} (l : list A) (k : nat) :
  k < length l -> skipn k l <> [].
Proof.
  intros Hk Hnil. apply (f_equal (@length A)) in Hnil.
  rewrite length_skipn in Hnil. cbn in Hnil. lia.
Qed.

Section LatestTurn.
Context {F : PyFloat} {Uc : PyUnicode}.

(** X30. The latest turn is always handed out.  For a session that has turns,
    a window [n >= 0] and a compactor, if one is set, with
    [keep_recent >= 0], the last turn of the history that
    [get_recent_history] returns is the latest turn of the session in
    filtered form, whether the history was compacted or not. *)
Theorem latest_turn_is_handed_out (global_ctx : option pystr)
    (self : SessionManager) (n : Z) (auto_compact : bool)
    (current_question : pystr) (d : turn_dict) (t : ConversationTurn) :
  turns self <> [] ->
  (0 <= n)%Z ->
  (forall c, compactor self = Some c -> (0 <= keep_recent c)%Z) ->
  last (get_recent_history global_ctx self n auto_compact current_question) d
  = turn_to_dict true (last (turns self) t).
Proof.
  intros Hne Hn Hkeep.
  assert (Hlen : 0 < length (turns self)).
  { destruct (turns self); [congruence|cbn; lia]. }
  assert (Hsuffix : forall k, k < length (turns self) ->
            last (_turns_to_dicts (skipn k (turns self)) true) d
            = turn_to_dict true (last (turns self) t)).
  { intros k Hk. unfold _turns_to_dicts.
    rewrite (last_map _ d t) by now apply skipn_nonempty.
    now rewrite last_skipn. }
  assert (Hrecent : last (recent_turns self n) d
                    = turn_to_dict true (last (turns self) t)).
  { rewrite recent_turns_window. apply Hsuffix.
    destruct (Z.leb_spec 1 n); lia. }
  assert (Hcompact : forall c, compactor self = Some c ->
            last (compact c (_turns_to_dicts (turns self) true) None) d
            = turn_to_dict true (last (turns self) t)).
  { intros c Hc. specialize (Hkeep c Hc). unfold compact.
    rewrite turns_to_dicts_length.
    destruct (Z.leb_spec (Z.of_nat (length (turns self))) (keep_recent c)).
    - rewrite <- (Hsuffix 0) by assumption. reflexivity.
    - unfold slice_from. rewrite turns_to_dicts_length.
      unfold _turns_to_dicts at 2. rewrite skipn_map.
      fold (_turns_to_dicts
              (skipn (slice_bound (Z.of_nat (length (turns self)))
                                  (- keep_recent c)) (turns self)) true).
      assert (Hbound : slice_bound (Z.of_nat (length (turns self)))
                                   (- keep_recent c) < length (turns self)).
      { unfold slice_bound. destruct (Z.ltb_spec (- keep_recent c) 0); lia. }
      rewrite <- (Hsuffix _ Hbound).
      cbn [app]. 
      assert (Hnonempty : _turns_to_dicts
                (skipn (slice_bound (Z.of_nat (length (turns self)))
                                    (- keep_recent c)) (turns self)) true <> []).
      { unfold _turns_to_dicts. intros Hnil.
        apply map_eq_nil in Hnil. now apply skipn_nonempty in Hnil. }
      destruct (_turns_to_dicts _ true); [congruence|reflexivity]. }
  unfold get_recent_history, compact_history.
  destruct (compactor self) as [c|] eqn:Hc; [|exact Hrecent].
  destruct (auto_compact && enable_smart_compression self); [|exact Hrecent].
  destruct (should_compact _ _); [|exact Hrecent].
  now apply Hcompact.
Qed.

End LatestTurn.

Lemma latest_turn_is_handed_out_witness :
  d_question (last (get_recent_history (F := exact_float)
                      (Uc := ascii_unicode) None demo_session 3 true
                      (U "next")) turn_a)
  = U "and columns".
Proof.
  rewrite (@latest_turn_is_handed_out exact_float ascii_unicode None
             demo_session 3 true (U "next") turn_a failed_turn).
  - reflexivity.
  - discriminate.
  - lia.
  - intros c [= <-]. cbn. lia.
Defined.
